(** * Plurk backup viewer: import engine, FTS synchronisation, scan
    planning, link extraction and search, embedded in Rocq.

    Text values are Python [str] values, i.e. sequences of Unicode code
    points, modelled as [list Z].  SQLite stores them as UTF-8, whose
    BINARY collation orders them like their code point sequences.
    A nullable SQL column is an [option]. *)

From Stdlib Require Import String Ascii ZArith.
From stdpp Require Import base gmap list sorting.

Open Scope Z_scope.

Abbreviation text := (list Z).

(** ASCII literals as code point sequences. *)
Fixpoint cps (s : string) : text :=
  match s with
  | EmptyString => []
  | String a s' => Z.of_nat (nat_of_ascii a) :: cps s'
  end.

(** Python exceptions raised by the modelled code. *)
Inductive exn :=
| ValueError (msg : string)
| TypeError (msg : string)
| OperationalError (msg : string)
| OverflowError (msg : string)
(* [json.JSONDecodeError], a subclass of [ValueError]: its message and
   the position it reports *)
| JSONDecodeError (msg : string) (pos : nat)
| RecursionError (msg : string)
(* raised by the JSON scanner when no value starts at [value] *)
| StopIteration (value : nat)
| KeyError (msg : string)
(* an [AttributeError] *)
| PyAttributeError (msg : string)
(* [sqlite3.ProgrammingError] and [sqlite3.IntegrityError] *)
| ProgrammingError (msg : string)
| IntegrityError (msg : string)
(* a [UnicodeEncodeError] (a subclass of [ValueError]) of the UTF-8 codec
   at the position of a lone surrogate *)
| UnicodeEncodeError (pos : nat).

(** ** Rows of the entity tables (columns of [create_schema]). *)

Module Plurks.
Record row := mk_row {
  base_id : option text;
  content_raw : option text;
  posted : option text;
  response_count : option Z;
  qualifier : option text
}.
End Plurks.

Module Responses.
Record row := mk_row {
  base_id : option text;
  content_raw : option text;
  posted : option text;
  user_id : option Z;
  user_nick : option text;
  user_display : option text
}.
End Responses.

(** The JSON object kept in [link_metadata.sources]; a key missing from
    the JSON reads as [] through [dict.get(key, [])]. *)
Record sources := mk_sources { plurk_ids : list Z; response_ids : list Z }.

Record link_row := mk_link_row {
  url : text;
  og_title : option text;
  og_description : option text;
  og_site_name : option text;
  l_sources : option sources;
  status : option text;
  fetched_at : option text
}.

(** ** Full-text indexes.

    An FTS5 table with [content='...'] (external content) stores only its
    index.  An entry is the rowid with the values of the indexed columns;
    [INSERT INTO t_fts(rowid, cols)] adds one, and the ['delete'] command
    [INSERT INTO t_fts(t_fts, rowid, cols) VALUES ('delete', ...)] removes
    the entry with exactly those values. *)

Record fts_index := mk_fts { fts_tokenizer : text; fts_entries : list (Z * list (option text)) }.

Definition fts_entry := (Z * list (option text))%type.

Definition fts_entry_eq_dec : EqDecision fts_entry := _.

Fixpoint remove_first (e : fts_entry) (l : list fts_entry) : list fts_entry :=
  match l with
  | [] => []
  | e' :: l' => if decide (e' = e) then l' else e' :: remove_first e l'
  end.

Definition fts_insert (e : fts_entry) (ix : fts_index) : fts_index :=
  mk_fts (fts_tokenizer ix) (fts_entries ix ++ [e]).

Definition fts_delete (e : fts_entry) (ix : fts_index) : fts_index :=
  mk_fts (fts_tokenizer ix) (remove_first e (fts_entries ix)).

(** The indexed columns of each entity, in the column order of its FTS
    table. *)
Class Indexed (R : Type) := indexed_cols : R -> list (option text).

#[global] Instance plurk_indexed : Indexed Plurks.row :=
  fun r => [Plurks.content_raw r].
#[global] Instance response_indexed : Indexed Responses.row :=
  fun r => [Responses.content_raw r].
#[global] Instance link_indexed : Indexed link_row :=
  fun r => [og_title r; og_description r; og_site_name r].

(** ** Tables.

    [plurks] and [responses] are rowid tables ([id INTEGER PRIMARY KEY]);
    their FTS table and its three triggers are created together by
    [create_schema] and always exist.  [link_metadata] exists only after
    [links extract]; it is a rowid table with [url TEXT PRIMARY KEY], and
    its FTS table with its triggers may be missing. *)

Record content_table (R : Type) := mk_ctable { rows : gmap Z R; index : fts_index }.
Arguments mk_ctable {R}.
Arguments rows {R}.
Arguments index {R}.

Record link_table := mk_ltable { lrows : gmap Z link_row; lindex : option fts_index }.

Record store := mk_store {
  plurks : content_table Plurks.row;
  responses : content_table Responses.row;
  link_metadata : option link_table
}.

Definition set_plurks (t : content_table Plurks.row) (s : store) : store :=
  mk_store t (responses s) (link_metadata s).
Definition set_responses (t : content_table Responses.row) (s : store) : store :=
  mk_store (plurks s) t (link_metadata s).
Definition set_links (t : option link_table) (s : store) : store :=
  mk_store (plurks s) (responses s) t.

(** ** The state of a [sqlite3.Connection] threaded through Python code
    that may raise: an exception leaves the statements already executed
    in place. *)

Definition M (A : Type) := store -> store * (exn + A).

Definition ret {A} (a : A) : M A := fun s => (s, inr a).
Definition raise {A} (e : exn) : M A := fun s => (s, inl e).
Definition bind {A B} (m : M A) (k : A -> M B) : M B :=
  fun s => match m s with
           | (s', inl e) => (s', inl e)
           | (s', inr a) => k a s'
           end.

Notation "x <- m ;; k" := (bind m (fun x => k))
  (at level 100, m at next level, right associativity).

(** Raising code that does not touch the connection. *)
Notation "'let?' x ':=' m 'in' k" :=
  (match m with inl e => inl e | inr x => k end)
  (at level 200, x name, m at level 200, k at level 200).

(** ** Row-level statements with the triggers of [create_schema].

    [INSERT OR IGNORE] on an [INTEGER PRIMARY KEY]: a row with the same id
    makes it a no-op ([cursor.rowcount = 0]); otherwise the row is added
    and the [*_ai] trigger indexes it ([rowcount = 1]; rows written by
    triggers are not counted). *)

Definition insert_or_ignore {R} `{Indexed R} (k : Z) (r : R)
    (t : content_table R) : content_table R * Z :=
  match rows t !! k with
  | Some _ => (t, 0)
  | None => (mk_ctable (<[k := r]> (rows t)) (fts_insert (k, indexed_cols r) (index t)), 1)
  end.

Definition sql_insert_or_ignore_plurk (k : Z) (r : Plurks.row) : M Z :=
  fun s => let '(t, n) := insert_or_ignore k r (plurks s) in (set_plurks t s, inr n).

Definition sql_insert_or_ignore_response (k : Z) (r : Responses.row) : M Z :=
  fun s => let '(t, n) := insert_or_ignore k r (responses s) in (set_responses t s, inr n).

Definition max_rowid {R} (m : gmap Z R) : option Z :=
  foldr (fun k acc => match acc with None => Some k | Some a => Some (Z.max k a) end)
        None (map fst (map_to_list m)).

(** SQLite's choice of rowid for an insert that gives none: one more than
    the largest rowid, or 1 in an empty table (the random choice made once
    the largest rowid is 2^63-1 is not modelled). *)
Definition new_rowid {R} (m : gmap Z R) : Z :=
  match max_rowid m with None => 1 | Some a => a + 1 end.

(** ** [import_plurks] / [import_responses] (database.py).

    Both loop over the fragment files, parse each one (a malformed file
    raises and ends the run, the rows inserted so far stay on the
    connection), and run one [INSERT OR IGNORE] per record, counting
    [rowcount == 1] as new and anything else as skipped.  They differ
    only in the table and in how a record becomes the statement's
    parameters.  The section states the loop once for both; [to_row]
    turns a record into the value the [id] column receives ([None] for
    SQL NULL) and the row, or into the exception raised while building
    the parameters, binding them or running the statement (that record's
    statement then changes nothing). *)

Section ImportCmd.
Context {R : Type} `{Indexed R} {Rec File : Type}.
Variable tbl : store -> content_table R.
Variable set_tbl : content_table R -> store -> store.
Variable to_row : text -> Rec -> exn + (option Z * R).
Variable parse_file : File -> exn + (text * list Rec).

(** A NULL [INTEGER PRIMARY KEY] takes the rowid SQLite chooses. *)
Definition sql_insert_or_ignore (id : option Z) (r : R) : M Z :=
  fun s =>
    let k := match id with Some k => k | None => new_rowid (rows (tbl s)) end in
    let '(t, n) := insert_or_ignore k r (tbl s) in (set_tbl t s, inr n).

Fixpoint import_records (key : text) (ps : list Rec) (c : nat * nat) : M (nat * nat) :=
  match ps with
  | [] => ret c
  | p :: ps' =>
      match to_row key p with
      | inl e => raise e
      | inr (id, r) =>
          rc <- sql_insert_or_ignore id r ;;
          import_records key ps'
            (if decide (rc = 1) then (S c.1, c.2) else (c.1, S c.2))
      end
  end.

Fixpoint import_files (files : list File) (c : nat * nat) : M (nat * nat) :=
  match files with
  | [] => ret c
  | f :: fs =>
      match parse_file f with
      | inl e => raise e
      | inr (key, ps) => c' <- import_records key ps c ;; import_files fs c'
      end
  end.

(** The number of records a run goes through, or the first error that
    stops it: a file that does not parse or a record that does not
    become a row. *)
Fixpoint records_ok (key : text) (ps : list Rec) : exn + nat :=
  match ps with
  | [] => inr 0%nat
  | p :: ps' =>
      match to_row key p with
      | inl e => inl e
      | inr _ =>
          match records_ok key ps' with
          | inl e => inl e
          | inr n => inr (S n)
          end
      end
  end.

Fixpoint records_in (files : list File) : exn + nat :=
  match files with
  | [] => inr 0%nat
  | f :: fs =>
      match parse_file f with
      | inl e => inl e
      | inr (key, ps) =>
          match records_ok key ps with
          | inl e => inl e
          | inr m =>
              match records_in fs with
              | inl e => inl e
              | inr n => inr (m + n)%nat
              end
          end
      end
  end.
End ImportCmd.

(** Running an import [N] times in a row on the same files. *)
Definition import_n_times {File} (run : list File -> M (nat * nat)) (N : nat)
    (files : list File) (s : store) : store :=
  Nat.iter N (fun s' => fst (run files s')) s.

(** What the claim of idempotence asks of one import function on a list
    of files. *)
Definition import_spec {R File} (tbl : store -> content_table R)
    (records : list File -> exn + nat) (run : list File -> M (nat * nat))
    (files : list File) : Prop :=
  forall s,
    let '(s1, r1) := run files s in
    (* rows already stored are never overwritten *)
    (forall k v, rows (tbl s) !! k = Some v -> rows (tbl s1) !! k = Some v) /\
    (* new + skipped = records processed *)
    (forall n, records files = inr n -> exists a b, r1 = inr (a, b) /\ (a + b = n)%nat) /\
    (forall e, records files = inl e -> r1 = inl e) /\
    (* a second run inserts nothing, changes nothing, skips everything *)
    run files s1 = (s1, match records files with
                        | inl e => inl e
                        | inr n => inr (0%nat, n)
                        end) /\
    (* N runs leave the database of one run *)
    (forall N, (1 <= N)%nat -> import_n_times run N files s = s1).

(** ** Statements on the entity tables and the triggers they fire.

    Row-level primitives on a rowid table together with its FTS index:
    the [*_ai] trigger indexes the new row, [*_ad] issues the FTS
    ['delete'] command with the old values, and [*_au] does both. *)

Definition row_insert {R} `{Indexed R} (k : Z) (r : R) (m : gmap Z R) (ix : fts_index)
    : gmap Z R * fts_index :=
  (<[k := r]> m, fts_insert (k, indexed_cols r) ix).

Definition row_delete {R} `{Indexed R} (k : Z) (m : gmap Z R) (ix : fts_index)
    : gmap Z R * fts_index :=
  match m !! k with
  | Some old => (delete k m, fts_delete (k, indexed_cols old) ix)
  | None => (m, ix)
  end.

Definition row_update {R} `{Indexed R} (k k' : Z) (r' : R) (m : gmap Z R) (ix : fts_index)
    : gmap Z R * fts_index :=
  match m !! k with
  | Some old => (<[k' := r']> (delete k m),
                 fts_insert (k', indexed_cols r') (fts_delete (k, indexed_cols old) ix))
  | None => (m, ix)
  end.

(** The statements a client can run against [plurks] or [responses]:
    [INSERT] (aborts on a taken id), [INSERT OR IGNORE], an [UPDATE] of
    the row [k] that may also change its id to [k'] (aborts when [k'] is
    another row's id), and [DELETE]. *)
Inductive content_stmt (R : Type) :=
| Insert (k : Z) (r : R)
| InsertOrIgnore (k : Z) (r : R)
| Update (k k' : Z) (r' : R)
| Delete (k : Z).
Arguments Insert {R}.
Arguments InsertOrIgnore {R}.
Arguments Update {R}.
Arguments Delete {R}.

Definition unique_failed : exn := OperationalError "UNIQUE constraint failed".

Definition exec_content {R} `{Indexed R} (st : content_stmt R) (t : content_table R)
    : exn + content_table R :=
  let to_t p := mk_ctable p.1 p.2 in
  match st with
  | Insert k r =>
      match rows t !! k with
      | Some _ => inl unique_failed
      | None => inr (to_t (row_insert k r (rows t) (index t)))
      end
  | InsertOrIgnore k r => inr (insert_or_ignore k r t).1
  | Update k k' r' =>
      if decide (k <> k' /\ is_Some (rows t !! k') /\ is_Some (rows t !! k))
      then inl unique_failed
      else inr (to_t (row_update k k' r' (rows t) (index t)))
  | Delete k => inr (to_t (row_delete k (rows t) (index t)))
  end.

(** [link_metadata]: rows by rowid, [url] unique.  An insert may give
    the rowid or leave it to SQLite. *)
Definition url_taken (m : gmap Z link_row) (u : text) (except : option Z) : bool :=
  existsb (fun kr => bool_decide (url kr.2 = u) && bool_decide (Some kr.1 <> except))
          (map_to_list m).

Inductive link_stmt :=
| LInsert (rowid : option Z) (r : link_row)
| LInsertOrIgnore (rowid : option Z) (r : link_row)
| LUpdate (rid rid' : Z) (r' : link_row)
| LDelete (rid : Z).

Definition with_index (f : fts_index -> fts_index) (ix : option fts_index) : option fts_index :=
  match ix with Some i => Some (f i) | None => None end.

(** Without [link_metadata_fts] there are no triggers either: only the
    rows change. *)
Definition link_apply (p : gmap Z link_row -> fts_index -> gmap Z link_row * fts_index)
    (t : link_table) : link_table :=
  match lindex t with
  | Some ix => mk_ltable (p (lrows t) ix).1 (Some (p (lrows t) ix).2)
  | None => mk_ltable (p (lrows t) (mk_fts [] [])).1 None
  end.

Definition link_insert_target (rowid : option Z) (t : link_table) : Z :=
  match rowid with Some k => k | None => new_rowid (lrows t) end.

Definition link_insert_conflict (rowid : option Z) (r : link_row) (t : link_table) : bool :=
  url_taken (lrows t) (url r) None ||
  bool_decide (is_Some (lrows t !! link_insert_target rowid t)).

Definition exec_link (st : link_stmt) (t : link_table) : exn + link_table :=
  match st with
  | LInsert rowid r =>
      if link_insert_conflict rowid r t then inl unique_failed
      else inr (link_apply (row_insert (link_insert_target rowid t) r) t)
  | LInsertOrIgnore rowid r =>
      if link_insert_conflict rowid r t then inr t
      else inr (link_apply (row_insert (link_insert_target rowid t) r) t)
  | LUpdate rid rid' r' =>
      match lrows t !! rid with
      | None => inr t
      | Some _ =>
          if url_taken (lrows t) (url r') (Some rid)
             || bool_decide (rid <> rid' /\ is_Some (lrows t !! rid'))
          then inl unique_failed
          else inr (link_apply (row_update rid rid' r') t)
      end
  | LDelete rid => inr (link_apply (row_delete rid) t)
  end.

(** [create_link_metadata_table] (links_cmd.py): [CREATE ... IF NOT
    EXISTS] for the table, its FTS table and its triggers. *)
Definition create_link_metadata_table (s : store) : store :=
  match link_metadata s with
  | None => set_links (Some (mk_ltable ∅ (Some (mk_fts (cps "unicode61") [])))) s
  | Some t =>
      match lindex t with
      | Some _ => s
      | None => set_links (Some (mk_ltable (lrows t) (Some (mk_fts (cps "unicode61") [])))) s
      end
  end.

Inductive stmt :=
| OnPlurks (st : content_stmt Plurks.row)
| OnResponses (st : content_stmt Responses.row)
| OnLinks (st : link_stmt)
| CreateLinkTable.

(** One statement; a failing statement leaves the store as it was. *)
Definition exec_stmt (st : stmt) : M unit :=
  fun s =>
    match st with
    | OnPlurks c =>
        match exec_content c (plurks s) with
        | inl e => (s, inl e) | inr t => (set_plurks t s, inr tt) end
    | OnResponses c =>
        match exec_content c (responses s) with
        | inl e => (s, inl e) | inr t => (set_responses t s, inr tt) end
    | OnLinks c =>
        match link_metadata s with
        | None => (s, inl (OperationalError "no such table: link_metadata"))
        | Some t =>
            match exec_link c t with
            | inl e => (s, inl e) | inr t' => (set_links (Some t') s, inr tt) end
        end
    | CreateLinkTable => (create_link_metadata_table s, inr tt)
    end.

(** Any sequence of statements, whether or not some of them fail. *)
Fixpoint exec_stmts (sts : list stmt) (s : store) : store :=
  match sts with
  | [] => s
  | st :: sts' => exec_stmts sts' (exec_stmt st s).1
  end.

(** [create_schema] (database.py) on a new database. *)
Definition create_schema_fresh : store :=
  mk_store (mk_ctable ∅ (mk_fts (cps "unicode61") []))
           (mk_ctable ∅ (mk_fts (cps "unicode61") []))
           None.

(** The FTS index [ix] reflects the rows [m]: for every rowid, the index
    holds exactly one entry with the row's current indexed values when
    the row exists, and none when it does not. *)
Definition index_synced {R} `{Indexed R} (m : gmap Z R) (ix : fts_index) : Prop :=
  forall k, filter (fun e : fts_entry => e.1 = k) (fts_entries ix) =
            match m !! k with Some r => [(k, indexed_cols r)] | None => [] end.

Definition store_synced (s : store) : Prop :=
  index_synced (rows (plurks s)) (index (plurks s)) /\
  index_synced (rows (responses s)) (index (responses s)) /\
  match link_metadata s with
  | None => True
  | Some t => exists ix, lindex t = Some ix /\ index_synced (lrows t) ix
  end.

(** ** [calculate_scan_range] (utils.py). *)

Record date := mk_date { year : Z; month : Z; day : Z }.

Definition is_leap (y : Z) : bool :=
  (Z.eqb (y mod 4) 0 && negb (Z.eqb (y mod 100) 0)) || Z.eqb (y mod 400) 0.

Definition days_in_month (y m : Z) : Z :=
  if Z.eqb m 2 then (if is_leap y then 29 else 28)
  else if existsb (Z.eqb m) [4; 6; 9; 11] then 30 else 31.

(** A Python [date]: year 1..9999, month 1..12, a day of that month. *)
Definition valid_date (d : date) : bool :=
  (1 <=? year d) && (year d <=? 9999) && (1 <=? month d) && (month d <=? 12) &&
  (1 <=? day d) && (day d <=? days_in_month (year d) (month d)).

(** Lexicographic order of code point sequences: SQLite's BINARY
    collation on UTF-8 text and Python's [str] order. *)
Fixpoint text_compare (a b : text) : comparison :=
  match a, b with
  | [], [] => Eq
  | [], _ :: _ => Lt
  | _ :: _, [] => Gt
  | x :: a', y :: b' => match Z.compare x y with Eq => text_compare a' b' | c => c end
  end.

Definition text_max (a b : text) : text :=
  match text_compare a b with Lt => b | _ => a end.

(** [SELECT MAX(posted) FROM plurks]: NULLs are skipped; no value gives
    NULL. *)
Definition sql_max_posted (m : gmap Z Plurks.row) : option text :=
  foldr (fun kr acc =>
           match Plurks.posted kr.2, acc with
           | None, _ => acc
           | Some p, None => Some p
           | Some p, Some a => Some (text_max p a)
           end) None (map_to_list m).

(** [dateutil.parser.parse(...).date()] on the two timestamp shapes of
    the archive: ISO dates [YYYY-MM-DD] (optionally followed by a time
    after a space or a [T]) and RFC 1123 dates
    [Www, DD Mon YYYY HH:MM:SS GMT] as in the code's comment.  The
    weekday name is not checked against the date (dateutil does not
    either); an impossible date raises.  Other shapes are refused here. *)
Definition digit (c : Z) : option Z :=
  if (48 <=? c) && (c <=? 57) then Some (c - 48) else None.

Fixpoint read_digits (n : nat) (acc : Z) (s : text) : option (Z * text) :=
  match n with
  | O => Some (acc, s)
  | S n' =>
      match s with
      | c :: s' => match digit c with
                   | Some v => read_digits n' (acc * 10 + v) s'
                   | None => None
                   end
      | [] => None
      end
  end.

Definition month_names : list text :=
  map cps ["Jan"; "Feb"; "Mar"; "Apr"; "May"; "Jun"; "Jul"; "Aug"; "Sep"; "Oct"; "Nov"; "Dec"]%string.

Definition weekday_names : list text :=
  map cps ["Mon"; "Tue"; "Wed"; "Thu"; "Fri"; "Sat"; "Sun"]%string.

Fixpoint index_of (x : text) (l : list text) (i : Z) : option Z :=
  match l with
  | [] => None
  | y :: l' => if decide (x = y) then Some i else index_of x l' (i + 1)
  end.

Definition parse_iso (s : text) : option date :=
  match read_digits 4 0 s with
  | Some (y, 45 :: s1) =>
      match read_digits 2 0 s1 with
      | Some (m, 45 :: s2) =>
          match read_digits 2 0 s2 with
          | Some (d, rest) =>
              match rest with
              | [] => Some (mk_date y m d)
              | c :: _ => if decide (c = 32 \/ c = 84) then Some (mk_date y m d) else None
              end
          | None => None
          end
      | _ => None
      end
  | _ => None
  end.

Definition parse_rfc1123 (s : text) : option date :=
  match s with
  | w1 :: w2 :: w3 :: 44 :: 32 :: s1 =>
      match index_of [w1; w2; w3] weekday_names 0, read_digits 2 0 s1 with
      | Some _, Some (d, 32 :: m1 :: m2 :: m3 :: 32 :: s2) =>
          match index_of [m1; m2; m3] month_names 1, read_digits 4 0 s2 with
          | Some m, Some (y, _) => Some (mk_date y m d)
          | _, _ => None
          end
      | _, _ => None
      end
  | _ => None
  end.

Definition parse_date (s : text) : exn + date :=
  let? d := match parse_iso s with
            | Some d => inr d
            | None => match parse_rfc1123 s with
                      | Some d => inr d
                      | None => inl (ValueError "Unknown string format")
                      end
            end in
  if valid_date d then inr d else inl (ValueError "day is out of range for month").

(** [current_date - relativedelta(months=n)]: month arithmetic, the day
    clamped to the length of the target month; year 0 raises. *)
Definition sub_months (d : date) (n : Z) : exn + date :=
  let total := year d * 12 + (month d - 1) - n in
  let y := total / 12 in
  let m := total mod 12 + 1 in
  if y <? 1 then inl (ValueError "year 0 is out of range")
  else inr (mk_date y m (Z.min (day d) (days_in_month y m))).

Fixpoint decimal_digits (fuel : nat) (n : Z) (acc : text) : text :=
  match fuel with
  | O => acc
  | S f => if n <? 10 then (48 + n) :: acc
           else decimal_digits f (n / 10) ((48 + n mod 10) :: acc)
  end.

(** [d.strftime("%Y-%m")] (glibc: the year is not padded). *)
Definition strftime_ym (d : date) : text :=
  decimal_digits 20 (year d) [] ++ [45] ++
  (if month d <? 10 then [48; 48 + month d] else decimal_digits 20 (month d) []).

Definition calculate_scan_range (s : store) (current_date : date)
    : exn + (option text * option text) :=
  match sql_max_posted (rows (plurks s)) with
  | None => inr (None, None)
  | Some latest_in_db =>
      let? latest_date := parse_date latest_in_db in
      let gap_months := (year current_date - year latest_date) * 12
                        + (month current_date - month latest_date) in
      let? scan_start := (if 6 <? gap_months then inr (strftime_ym latest_date)
                          else let? six_months_ago := sub_months current_date 6 in
                               inr (strftime_ym six_months_ago)) in
      inr (Some scan_start, Some (strftime_ym current_date))
  end.

(** What C2 prescribes, read from its words: the bounds computed from
    the chronologically latest stored posting date. *)
Definition latest_posted_date (m : gmap Z Plurks.row) : option date :=
  foldr (fun kr acc =>
           match Plurks.posted kr.2 with
           | None => acc
           | Some p =>
               match parse_date p, acc with
               | inl _, _ => acc
               | inr d, None => Some d
               | inr d, Some a =>
                   if (year a * 10000 + month a * 100 + day a <?
                       year d * 10000 + month d * 100 + day d) then Some d else Some a
               end
           end) None (map_to_list m).

Definition claimed_scan_range (latest current_date : date) : option text * option text :=
  let gap_months := (year current_date - year latest) * 12 + (month current_date - month latest) in
  (Some (if 6 <? gap_months then strftime_ym latest
         else match sub_months current_date 6 with inr d => strftime_ym d | inl _ => [] end),
   Some (strftime_ym current_date)).

Definition plurk_posted (p : string) : Plurks.row :=
  Plurks.mk_row None None (Some (cps p)) None None.

Definition store_with_plurks (ps : list (Z * Plurks.row)) : store :=
  mk_store (mk_ctable (list_to_map ps) (mk_fts (cps "unicode61") []))
           (mk_ctable ∅ (mk_fts (cps "unicode61") [])) None.

(** ** [extract_urls] (links_cmd.py).

    [URL_PATTERN = https?://[^X]*[^X.,;:!?]] where [X] is [\s], the
    ranges U+4E00-U+9FFF and U+3000-U+303F, the ASCII characters listed
    in [url_delims] and four full-width closing brackets;
    [extract_urls] returns [URL_PATTERN.findall(content)] ([] for an
    empty content). *)

Definition in_range (lo hi c : Z) : bool := (lo <=? c) && (c <=? hi).

(** Python's [\s] on [str]: the code points whose [str.isspace()] holds. *)
Definition is_py_space (c : Z) : bool :=
  in_range 9 13 c || in_range 28 32 c || Z.eqb c 133 || Z.eqb c 160 || Z.eqb c 5760 ||
  in_range 8192 8202 c || Z.eqb c 8232 || Z.eqb c 8233 || Z.eqb c 8239 ||
  Z.eqb c 8287 || Z.eqb c 12288.

(** Less-than, greater-than, double quote, single quote, closing square
    bracket, closing parenthesis, and U+FF09 U+300D U+300F U+3011. *)
Definition url_delims : list Z := [60; 62; 34; 39; 93; 41; 65289; 12301; 12303; 12305].

(** [.] [,] [;] [:] [!] [?] *)
Definition sentence_punct : list Z := [46; 44; 59; 58; 33; 63].

(** The first character class of the pattern (the starred one). *)
Definition url_char (c : Z) : bool :=
  negb (is_py_space c || in_range 19968 40959 c || in_range 12288 12351 c ||
        existsb (Z.eqb c) url_delims).

(** The last character class: the first one without sentence
    punctuation. *)
Definition url_last_char (c : Z) : bool :=
  url_char c && negb (existsb (Z.eqb c) sentence_punct).

(** [https?://]: the greedy [s?] first tries to take the [s].  Each
    alternative gives the prefix length and the rest of the input. *)
Definition scheme_alternatives (s : text) : list (nat * text) :=
  match s with
  | 104 :: 116 :: 116 :: 112 :: s1 =>
      (match s1 with 115 :: 58 :: 47 :: 47 :: u => [(8%nat, u)] | _ => [] end) ++
      (match s1 with 58 :: 47 :: 47 :: u => [(7%nat, u)] | _ => [] end)
  | _ => []
  end.

Fixpoint first_some {A B} (f : A -> option B) (l : list A) : option B :=
  match l with
  | [] => None
  | x :: l' => match f x with Some y => Some y | None => first_some f l' end
  end.

(** The greedy star takes the longest run of [url_char]s; the engine
    then backtracks one character at a time until the next character is
    a [url_last_char]. *)
Fixpoint run_length (u : text) : nat :=
  match u with
  | c :: u' => if url_char c then S (run_length u') else O
  | [] => O
  end.

Definition last_ok (u : text) (j : nat) : bool :=
  match u !! j with Some c => url_last_char c | None => false end.

Fixpoint backtrack (u : text) (j : nat) : option nat :=
  if last_ok u j then Some (S j)
  else match j with O => None | S j' => backtrack u j' end.

(** Length of the match of [URL_PATTERN] starting at the head of [s]. *)
Definition regex_match_at (s : text) : option nat :=
  first_some (fun pu => match backtrack pu.2 (run_length pu.2) with
                        | Some k => Some (pu.1 + k)%nat
                        | None => None
                        end) (scheme_alternatives s).

(** [findall]: try every start position from the left; after a match,
    go on at its end (matches are never empty).  [fuel] bounds the number
    of steps, one per consumed character. *)
Fixpoint scan_matches (match_at : text -> option nat) (fuel : nat) (s : text) : list text :=
  match fuel with
  | O => []
  | S f =>
      match s with
      | [] => []
      | _ :: s' =>
          match match_at s with
          | Some n => take n s :: scan_matches match_at f (drop n s)
          | None => scan_matches match_at f s'
          end
      end
  end.

Definition extract_urls (content : text) : list text :=
  match content with
  | [] => []
  | _ => scan_matches regex_match_at (length content) content
  end.

(** The extraction rule in the words of the spec: after an [http://] or
    [https://] prefix take the maximal run of allowed characters, strip
    the trailing sentence punctuation, and keep the result when something
    remains. *)
Fixpoint take_while (p : Z -> bool) (u : text) : text :=
  match u with
  | c :: u' => if p c then c :: take_while p u' else []
  | [] => []
  end.

Fixpoint drop_while (p : Z -> bool) (u : text) : text :=
  match u with
  | c :: u' => if p c then drop_while p u' else u
  | [] => []
  end.

Definition is_sentence_punct (c : Z) : bool := existsb (Z.eqb c) sentence_punct.

Definition strip_trailing_punct (r : text) : text :=
  rev (drop_while is_sentence_punct (rev r)).

Definition spec_match_at (s : text) : option nat :=
  first_some (fun pu => match strip_trailing_punct (take_while url_char pu.2) with
                        | [] => None
                        | m => Some (pu.1 + length m)%nat
                        end) (scheme_alternatives s).

Definition spec_extract_urls (content : text) : list text :=
  scan_matches spec_match_at (length content) content.

(** ** [urllib.parse.urlparse] (Python 3.11) on [str].

    [urlsplit] lstrips C0 controls and spaces, removes tab, CR and LF,
    takes the scheme before the first colon when it is made of
    [scheme_chars] and starts with an ASCII letter, takes the netloc
    after [//] up to the first [/], [?] or [#], rejects a netloc with
    unbalanced square brackets, then splits off the fragment and the
    query.  Two netloc checks are not expanded here: the IP-address check
    of a bracketed host ([_check_bracketed_netloc], run only when both
    brackets are present) and the NFKC check of a non-ASCII netloc
    ([_checknetloc]); they are parameters of the section. *)

Fixpoint find_char (c : Z) (l : text) : option nat :=
  match l with
  | [] => None
  | x :: l' => if Z.eqb x c then Some O else option_map S (find_char c l')
  end.

(** [l.find(c, start)] *)
Definition find_char_from (c : Z) (start : nat) (l : text) : option nat :=
  option_map (Nat.add start) (find_char c (drop start l)).

(** [l.rfind(c)] *)
Fixpoint rfind_char (c : Z) (l : text) : option nat :=
  match l with
  | [] => None
  | x :: l' =>
      match rfind_char c l' with
      | Some j => Some (S j)
      | None => if Z.eqb x c then Some O else None
      end
  end.

Definition contains (c : Z) (l : text) : bool := existsb (Z.eqb c) l.

(** [l.split(c, 1)] when [c in l]. *)
Definition split_once (c : Z) (l : text) : text * text :=
  match find_char c l with
  | Some i => (take i l, drop (S i) l)
  | None => (l, [])
  end.

Definition is_ascii_alpha (c : Z) : bool := in_range 65 90 c || in_range 97 122 c.

(** [str.lower] as far as it matters here: on ASCII letters.  No other
    code point lowercases to a string ending in [.] or in one of the
    letters of [IMAGE_EXTENSIONS] (the Kelvin sign gives [k], U+0130 ends
    in U+0307), so [path.lower().endswith(ext)] is decided the same way. *)
Definition ascii_lower (c : Z) : Z := if in_range 65 90 c then c + 32 else c.

Definition is_scheme_char (c : Z) : bool :=
  is_ascii_alpha c || in_range 48 57 c || existsb (Z.eqb c) [43; 45; 46].

(** [_WHATWG_C0_CONTROL_OR_SPACE] and [_UNSAFE_URL_BYTES_TO_REMOVE] *)
Definition is_c0_or_space (c : Z) : bool := in_range 0 32 c.
Definition is_unsafe_url_byte (c : Z) : bool := existsb (Z.eqb c) [9; 13; 10].

Record split_result := mk_split {
  s_scheme : text; s_netloc : text; s_path : text; s_query : text; s_fragment : text
}.

Record parse_result := mk_parse {
  p_scheme : text; p_netloc : text; p_path : text; p_params : text;
  p_query : text; p_fragment : text
}.

Definition uses_params : list text :=
  [[]; cps "ftp"; cps "hdl"; cps "prospero"; cps "http"; cps "imap"; cps "https";
   cps "shttp"; cps "rtsp"; cps "rtspu"; cps "sip"; cps "sips"; cps "mms";
   cps "sftp"; cps "tel"].

Definition split_scheme (url : text) : text * text :=
  match find_char 58 url with
  | Some i =>
      match url with
      | c0 :: _ =>
          if (0 <? i)%nat && is_ascii_alpha c0 && forallb is_scheme_char (take i url)
          then (map ascii_lower (take i url), drop (S i) url)
          else ([], url)
      | [] => ([], url)
      end
  | None => ([], url)
  end.

(** [_splitnetloc(url, 2)] *)
Definition split_netloc (url : text) : text * text :=
  let rest := drop 2 url in
  let j := length (take_while (fun c => negb (existsb (Z.eqb c) [47; 63; 35])) rest) in
  (take j rest, drop j rest).

Definition invalid_ipv6 : exn := ValueError "Invalid IPv6 URL".

Section Urlparse.

Variable check_bracketed_netloc : text -> exn + unit.
Variable check_nfkc_netloc : text -> exn + unit.

Definition urlsplit (url0 : text) : exn + split_result :=
  let url1 := filter (fun c => negb (is_unsafe_url_byte c)) (drop_while is_c0_or_space url0) in
  let '(scheme, url2) := split_scheme url1 in
  let? nu := (if bool_decide (take 2 url2 = [47; 47]) then
               let '(netloc, url3) := split_netloc url2 in
               if xorb (contains 91 netloc) (contains 93 netloc) then inl invalid_ipv6
               else if contains 91 netloc && contains 93 netloc then
                 let? _u := check_bracketed_netloc netloc in inr (netloc, url3)
               else inr (netloc, url3)
             else inr ([], url2)) in
  let '(netloc, url3) := nu in
  let '(url4, fragment) := if contains 35 url3 then split_once 35 url3 else (url3, []) in
  let '(url5, query) := if contains 63 url4 then split_once 63 url4 else (url4, []) in
  let? _u := (if bool_decide (netloc = []) || forallb (fun c => c <? 128) netloc
              then inr tt else check_nfkc_netloc netloc) in
  inr (mk_split scheme netloc url5 query fragment).

(** [_splitparams], called when [;] occurs in the path. *)
Definition splitparams (url : text) : text * text :=
  if contains 47 url then
    match rfind_char 47 url with
    | Some r =>
        match find_char_from 59 r url with
        | Some i => (take i url, drop (S i) url)
        | None => (url, [])
        end
    | None => (url, [])
    end
  else
    match find_char 59 url with
    | Some i => (take i url, drop (S i) url)
    | None => (url, [])
    end.

Definition urlparse (url : text) : exn + parse_result :=
  let? sr := urlsplit url in
  let '(path, params) :=
    if bool_decide (s_scheme sr ∈ uses_params) && contains 59 (s_path sr)
    then splitparams (s_path sr) else (s_path sr, []) in
  inr (mk_parse (s_scheme sr) (s_netloc sr) path params (s_query sr) (s_fragment sr)).

(** [IMAGE_EXTENSIONS] (a set; only membership matters). *)
Definition IMAGE_EXTENSIONS : list text :=
  [cps ".jpg"; cps ".jpeg"; cps ".png"; cps ".gif"; cps ".webp"; cps ".bmp"; cps ".svg"].

(** [s.endswith(ext)] *)
Definition ends_with (ext s : text) : bool :=
  (length ext <=? length s)%nat && bool_decide (drop (length s - length ext) s = ext).

(** [is_image_url] (links_cmd.py): [urlparse] may raise [ValueError]. *)
Definition is_image_url (url : text) : exn + bool :=
  let? parsed := urlparse url in
  let path := map ascii_lower (p_path parsed) in
  inr (existsb (fun ext => ends_with ext path) IMAGE_EXTENSIONS).

(** ** [upsert_link] (links_cmd.py). *)

Definition lift {A} (x : exn + A) : M A := fun s => (s, x).

Definition find_url (m : gmap Z link_row) (u : text) : option (Z * link_row) :=
  List.find (fun kr => bool_decide (url kr.2 = u)) (map_to_list m).

(** [SELECT sources FROM link_metadata WHERE url = ?] *)
Definition select_link_by_url (u : text) : M (option (Z * link_row)) :=
  fun s => match link_metadata s with
           | None => (s, inl (OperationalError "no such table: link_metadata"))
           | Some t => (s, inr (find_url (lrows t) u))
           end.

(** [json.loads(existing[0])]: a NULL [sources] column raises
    [TypeError]; every writer of the column stores a JSON object with the
    two id lists. *)
Definition json_loads_sources (v : option sources) : exn + sources :=
  match v with
  | Some src => inr src
  | None => inl (TypeError "the JSON object must be str, bytes or bytearray, not NoneType")
  end.

(** [sorted(list(set(xs)))] *)
Definition sorted_set (xs : list Z) : list Z := merge_sort (≤) (remove_dups xs).

Definition set_l_sources (r : link_row) (v : option sources) : link_row :=
  mk_link_row (url r) (og_title r) (og_description r) (og_site_name r) v (status r) (fetched_at r).

Definition upsert_link (u : text) (new_sources : sources) : M bool :=
  existing <- select_link_by_url u ;;
  match existing with
  | None =>
      image <- lift (is_image_url u) ;;
      let st := if image then cps "image" else cps "pending" in
      _u <- exec_stmt (OnLinks (LInsert None
              (mk_link_row u None None None (Some new_sources) (Some st) None))) ;;
      ret true
  | Some (rid, r) =>
      old_sources <- lift (json_loads_sources (l_sources r)) ;;
      let merged :=
        mk_sources (sorted_set (plurk_ids old_sources ++ plurk_ids new_sources))
                   (sorted_set (response_ids old_sources ++ response_ids new_sources)) in
      _u <- exec_stmt (OnLinks (LUpdate rid rid (set_l_sources r (Some merged)))) ;;
      ret false
  end.

End Urlparse.

(** ** [merge_url_sources] (links_cmd.py) on in-memory dicts, as
    association lists in insertion order.  The inner dicts always carry
    both keys here ([collect_*] builds them so), so [sources.get(key, [])]
    and [base[url][key]] read the record fields. *)

Definition url_dict := list (text * sources).

Fixpoint dict_get (d : url_dict) (u : text) : option sources :=
  match d with
  | [] => None
  | (k, v) :: d' => if decide (k = u) then Some v else dict_get d' u
  end.

(** [d[u] = v]: an existing key keeps its position, a new one goes last. *)
Fixpoint dict_set (d : url_dict) (u : text) (v : sources) : url_dict :=
  match d with
  | [] => [(u, v)]
  | (k, w) :: d' => if decide (k = u) then (k, v) :: d' else (k, w) :: dict_set d' u v
  end.

(** [for pid in ys: if pid not in xs: xs.append(pid)] *)
Fixpoint append_missing (xs ys : list Z) : list Z :=
  match ys with
  | [] => xs
  | y :: ys' => append_missing (if bool_decide (y ∈ xs) then xs else xs ++ [y]) ys'
  end.

Definition empty_sources : sources := mk_sources [] [].

Definition merge_url_sources (base new : url_dict) : url_dict :=
  fold_left (fun b '(u, src) =>
               let cur := default empty_sources (dict_get b u) in
               dict_set b u (mk_sources (append_missing (plurk_ids cur) (plurk_ids src))
                                        (append_missing (response_ids cur) (response_ids src))))
            new base.

(** What [merge_url_sources] leaves under one URL. *)
Definition merged_entry (b n : option sources) : option sources :=
  match b, n with
  | None, None => None
  | _, _ =>
      let cur := default empty_sources b in
      let src := default empty_sources n in
      Some (mk_sources (append_missing (plurk_ids cur) (plurk_ids src))
                       (append_missing (response_ids cur) (response_ids src)))
  end.

(** The [url TEXT PRIMARY KEY] constraint on a [link_metadata] table. *)
Definition urls_unique (m : gmap Z link_row) : Prop :=
  NoDup (List.map (fun kr => url kr.2) (map_to_list m)).

(** The row [upsert_link] inserts for a new URL. *)
Definition first_sight_row (u : text) (new_sources : sources) (image : bool) : link_row :=
  mk_link_row u None None None (Some new_sources)
              (Some (if image then cps "image" else cps "pending")) None.

(** ** [rebuild_fts] (reindex_cmd.py).

    The FTS tables of the three entity tables, each present or dropped;
    the triggers of a table exist exactly when its FTS table does. *)

Record fts_tables := mk_fts_tables {
  ft_plurks : option fts_index;
  ft_responses : option fts_index;
  ft_links : option fts_index
}.

(** [DROP TRIGGER IF EXISTS ...; DROP TABLE IF EXISTS ..._fts] for all
    three tables. *)
Definition drop_fts_tables : fts_tables := mk_fts_tables None None None.

(** [CREATE VIRTUAL TABLE IF NOT EXISTS ... tokenize='<tokenizer>'] with
    its triggers; an external-content FTS table starts with no entries. *)
Definition create_fts_if_not_exists (tokenizer : text) (ix : option fts_index)
    : option fts_index :=
  match ix with Some i => Some i | None => Some (mk_fts tokenizer []) end.

(** Modelled from the spec: [create_schema(conn, tokenizer)] creates, if
    they do not exist, the entity tables (always present in [store]),
    [plurks_fts] and [responses_fts] with the given tokenizer over
    [content_raw], and their insert, delete and update triggers; it does
    not touch [link_metadata_fts]. *)
Definition create_schema_tok (tokenizer : text) (ft : fts_tables) : fts_tables :=
  mk_fts_tables (create_fts_if_not_exists tokenizer (ft_plurks ft))
                (create_fts_if_not_exists tokenizer (ft_responses ft))
                (ft_links ft).

Definition rowid_le {R} (a b : Z * R) : Prop := a.1 <= b.1.

#[global] Instance rowid_le_dec {R} : RelDecision (@rowid_le R) :=
  fun a b => decide (a.1 <= b.1).

(** [SELECT id, cols FROM t]: a full scan of a rowid table, in rowid
    order. *)
Definition fts_rows {R} `{Indexed R} (m : gmap Z R) : list fts_entry :=
  List.map (fun kr => (kr.1, indexed_cols kr.2)) (merge_sort rowid_le (map_to_list m)).

(** [INSERT INTO t_fts(rowid, cols) SELECT ...] and its [rowcount]. *)
Definition insert_select (es : list fts_entry) (ix : option fts_index) : option fts_index * Z :=
  match ix with
  | Some i => (Some (mk_fts (fts_tokenizer i) (fts_entries i ++ es)), Z.of_nat (length es))
  | None => (None, 0)
  end.

Definition rebuild_fts (tokenizer : text) : M (Z * Z * Z) :=
  fun s =>
    let ft1 := create_schema_tok tokenizer drop_fts_tables in
    let has_links := bool_decide (is_Some (link_metadata s)) in
    let ft2 := if has_links
               then mk_fts_tables (ft_plurks ft1) (ft_responses ft1)
                                  (create_fts_if_not_exists tokenizer (ft_links ft1))
               else ft1 in
    let '(pix, plurk_count) := insert_select (fts_rows (rows (plurks s))) (ft_plurks ft2) in
    let '(rix, response_count) :=
      insert_select (fts_rows (rows (responses s))) (ft_responses ft2) in
    let '(lix, link_count) :=
      match link_metadata s with
      | Some t => insert_select (fts_rows (lrows t)) (ft_links ft2)
      | None => (ft_links ft2, 0)
      end in
    (mk_store (mk_ctable (rows (plurks s)) (default (mk_fts tokenizer []) pix))
              (mk_ctable (rows (responses s)) (default (mk_fts tokenizer []) rix))
              (option_map (fun t => mk_ltable (lrows t) lix) (link_metadata s)),
     inr (plurk_count, response_count, link_count)).

(** ** [SearchDB.search] (search_api.py).

    Searching only reads the database.  FTS5 matching depends on the
    tokenizer and is a parameter of the section: [fts5_match q cols] says
    whether the entry with indexed columns [cols] matches the MATCH
    string [q].  [_build_fts_query] always produces a string of quoted
    prefix phrases, which FTS5 accepts unless it is empty or holds a NUL
    (FTS5 reads it as a C string: the NUL ends it inside a quoted
    phrase).  Texts are bound as UTF-8, so a lone surrogate raises before
    any query runs, and LIKE refuses a pattern of more than 50000 bytes
    as soon as it is evaluated on a row. *)

Definition RESULTS_PER_PAGE : Z := 50.

(** [s.strip()] and [s.split()]: Python whitespace is [is_py_space]. *)
Definition py_strip (s : text) : text :=
  rev (drop_while is_py_space (rev (drop_while is_py_space s))).

Fixpoint py_split_aux (s : text) (cur : text) : list text :=
  match s with
  | [] => match cur with [] => [] | _ => [rev cur] end
  | c :: s' =>
      if is_py_space c
      then match cur with [] => py_split_aux s' [] | _ => rev cur :: py_split_aux s' [] end
      else py_split_aux s' (c :: cur)
  end.

Definition py_split (s : text) : list text := py_split_aux s [].

(** [s.replace(old, new)] for a one-character [old]. *)
Definition replace_char (old : Z) (new : text) (s : text) : text :=
  List.flat_map (fun c => if Z.eqb c old then new else [c]) s.

Fixpoint py_join (sep : text) (parts : list text) : text :=
  match parts with
  | [] => []
  | [p] => p
  | p :: ps => p ++ sep ++ py_join sep ps
  end.

(** [_build_fts_query]: each term becomes [\"term\"*] with inner double
    quotes doubled; the parts are joined by spaces. *)
Definition build_fts_query (query : text) : text :=
  let terms := py_split (py_strip query) in
  py_join [32] (List.map (fun term => [34] ++ replace_char 34 [34; 34] term ++ [34; 42]) terms).

(** [_build_like_pattern] *)
Definition build_like_pattern (query : text) : text :=
  let escaped := replace_char 95 [92; 95] (replace_char 37 [92; 37]
                   (replace_char 92 [92; 92] (py_strip query))) in
  [37] ++ escaped ++ [37].

(** SQLite's [patternCompare] for [LIKE ... ESCAPE '\\']: [%] any
    sequence, [_] one character, [\\] takes the next character
    literally; letters compare case-insensitively on ASCII only. *)
Fixpoint pattern_compare (p s : text) {struct p} : bool :=
  match p with
  | [] => match s with [] => true | _ :: _ => false end
  | c :: p' =>
      if Z.eqb c 37 then
        (fix star (s : text) : bool :=
           pattern_compare p' s || match s with [] => false | _ :: s' => star s' end) s
      else if Z.eqb c 95 then
        match s with [] => false | _ :: s' => pattern_compare p' s' end
      else if Z.eqb c 92 then
        match p' with
        | [] => false
        | e :: p'' =>
            match s with
            | [] => false
            | x :: s' => Z.eqb (ascii_lower e) (ascii_lower x) && pattern_compare p'' s'
            end
        end
      else
        match s with
        | [] => false
        | x :: s' => Z.eqb (ascii_lower c) (ascii_lower x) && pattern_compare p' s'
        end
  end.

(** What a C function sees of a text: the characters before the first
    NUL. *)
Definition c_str (s : text) : text := take_while (fun c => negb (Z.eqb c 0)) s.

(** [likeFunc] reads the pattern and the value with
    [sqlite3_value_text], as NUL-terminated strings. *)
Definition like_match (p s : text) : bool := pattern_compare (c_str p) (c_str s).

(** [col LIKE pat]: NULL never matches. *)
Definition sql_like (col : option text) (pat : text) : bool :=
  match col with Some v => like_match pat v | None => false end.

(** A Python [int] bound as a statement parameter must fit in a signed
    64-bit SQLite INTEGER. *)
Definition bind_int (v : Z) : exn + Z :=
  if (- 2 ^ 63 <=? v) && (v <=? 2 ^ 63 - 1) then inr v
  else inl (OverflowError "Python int too large to convert to SQLite INTEGER").

Definition is_surrogate (c : Z) : bool := in_range 55296 57343 c.

(** A Python [str] bound as a statement parameter is encoded to UTF-8,
    which refuses a lone surrogate ([UnicodeEncodeError] at its
    position). *)
Definition bind_text (t : text) : exn + text :=
  match list_find (fun c => is_surrogate c = true) t with
  | Some (pos, _) => inl (UnicodeEncodeError pos)
  | None => inr t
  end.

(** The length of a text in UTF-8 bytes ([sqlite3_value_bytes]). *)
Definition utf8_len (c : Z) : Z :=
  if c <? 128 then 1 else if c <? 2048 then 2 else if c <? 65536 then 3 else 4.

Definition utf8_length (t : text) : Z := fold_right (fun c n => utf8_len c + n) 0 t.

(** [SQLITE_MAX_LIKE_PATTERN_LENGTH]: [likeFunc] fails on a longer
    pattern, for every row it is evaluated on. *)
Definition like_pattern_limit : Z := 50000.

Definition like_too_complex : exn := OperationalError "LIKE or GLOB pattern too complex".

(** [LIMIT lim OFFSET off]; a negative offset counts as 0. *)
Definition limit_offset {A} (lim off : Z) (l : list A) : list A :=
  take (Z.to_nat lim) (drop (Z.to_nat off) l).

(** SQLite's order on nullable TEXT: NULL first, then BINARY. *)
Definition sql_text_le (a b : option text) : bool :=
  match a, b with
  | None, _ => true
  | Some _, None => false
  | Some x, Some y => match text_compare x y with Gt => false | _ => true end
  end.

Definition desc_by {A} (key : A -> option text) (a b : A) : Prop :=
  sql_text_le (key b) (key a) = true.

#[global] Instance desc_by_dec {A} (key : A -> option text) : RelDecision (desc_by key) :=
  fun a b => decide (sql_text_le (key b) (key a) = true).

(** [ORDER BY posted DESC]; rows of equal [posted] stay in scan order. *)
Definition order_by_desc {A} (key : A -> option text) (l : list A) : list A :=
  merge_sort (desc_by key) l.

Definition rows_by_rowid {R} (m : gmap Z R) : list (Z * R) := merge_sort rowid_le (map_to_list m).

(** The dicts of [_rows_to_content_dicts] and of [_search_links]. *)
Inductive search_item :=
| PlurkItem (id : Z) (r : Plurks.row)
| ResponseItem (id : Z) (r : Responses.row)
| LinkItem (r : link_row).

Definition item_posted (it : search_item) : option text :=
  match it with
  | PlurkItem _ r => Plurks.posted r
  | ResponseItem _ r => Responses.posted r
  | LinkItem _ => None
  end.

Record search_result := mk_search_result {
  results : list search_item;
  total : Z;
  page : Z;
  pages : Z;
  error : option string
}.

(** [max(1, math.ceil(total / RESULTS_PER_PAGE))]; the float quotient
    rounds to the integer ceiling for every total below 2^46. *)
Definition total_pages (total_count : Z) : Z :=
  Z.max 1 ((total_count + RESULTS_PER_PAGE - 1) / RESULTS_PER_PAGE).

(** Whether FTS5's tokenizer of query expressions, reading [s] up to its
    first NUL ([inside]: within a double-quoted string, where [\"\"] is
    one quote), ends inside a string. *)
Fixpoint fts5_open_string (s : text) (inside : bool) : bool :=
  match s with
  | [] => inside
  | c :: s' =>
      if Z.eqb c 0 then inside
      else if Z.eqb c 34 then
        if inside then
          match s' with
          | d :: s'' => if Z.eqb d 34 then fts5_open_string s'' true else fts5_open_string s' false
          | [] => false
          end
        else fts5_open_string s' true
      else fts5_open_string s' inside
  end.

Definition fts5_syntax_error : exn :=
  OperationalError ("fts5: syntax error near " ++ String (ascii_of_nat 34) (String (ascii_of_nat 34) EmptyString)).

(** [results.sort(key=lambda r: r.get("posted") or "", reverse=True)] *)
Definition py_sort_posted_desc (l : list search_item) : list search_item :=
  merge_sort (desc_by (fun it => Some (default [] (item_posted it)))) l.

Section Search.

Variable fts5_match : text -> list (option text) -> bool.

(** [... WHERE t_fts MATCH q]: the matching rowids of the index.  FTS5
    parses the NUL-terminated query before it reads any row: an empty
    expression is a syntax error, and a NUL inside a quoted string
    leaves that string unterminated. *)
Definition fts_query_ids (q : text) (ix : fts_index) : exn + list Z :=
  if bool_decide (c_str q = []) then inl fts5_syntax_error
  else if fts5_open_string q false then inl (OperationalError "unterminated string")
  else inr (remove_dups (List.map fst (List.filter (fun e => fts5_match q e.2) (fts_entries ix)))).

(** The page query ([JOIN t_fts ... WHERE MATCH ORDER BY posted DESC
    LIMIT 50 OFFSET offset]) and the count query of one content table. *)
Definition fts_page {R} `{Indexed R} (item : Z -> R -> search_item) (q : text) (offset : Z)
    (t : content_table R) : exn + (list search_item * Z) :=
  let? q := bind_text q in
  let? off := bind_int offset in
  let? ids := fts_query_ids q (index t) in
  let hits := omap (fun k => item k <$> rows t !! k) ids in
  let page_rows := limit_offset RESULTS_PER_PAGE off (order_by_desc item_posted hits) in
  inr (page_rows, Z.of_nat (length ids)).

Definition like_page {R} (item : Z -> R -> search_item) (content : R -> option text)
    (pat : text) (offset : Z) (t : gmap Z R) : exn + (list search_item * Z) :=
  let? pat := bind_text pat in
  let? off := bind_int offset in
  if bool_decide (t <> ∅) && (like_pattern_limit <? utf8_length pat) then inl like_too_complex else
  let hits := List.filter (fun kr => sql_like (content kr.2) pat) (rows_by_rowid t) in
  let page_rows := limit_offset RESULTS_PER_PAGE off
                     (order_by_desc item_posted (List.map (fun kr => item kr.1 kr.2) hits)) in
  inr (page_rows, Z.of_nat (length hits)).

Definition search_content (query search_type mode : text) (pg : Z) (s : store)
    : exn + search_result :=
  let offset := pg * RESULTS_PER_PAGE in
  let want_plurks := bool_decide (search_type ∈ [cps "all"; cps "plurks"]) in
  let want_responses := bool_decide (search_type ∈ [cps "all"; cps "responses"]) in
  let? pr :=
    (if bool_decide (mode = cps "fts") then
       let q := build_fts_query query in
       let? p := (if want_plurks then fts_page PlurkItem q offset (plurks s) else inr ([], 0)) in
       let? r := (if want_responses then fts_page ResponseItem q offset (responses s)
                  else inr ([], 0)) in
       inr (p, r)
     else
       let pat := build_like_pattern query in
       let? p := (if want_plurks
                  then like_page PlurkItem Plurks.content_raw pat offset (rows (plurks s))
                  else inr ([], 0)) in
       let? r := (if want_responses
                  then like_page ResponseItem Responses.content_raw pat offset (rows (responses s))
                  else inr ([], 0)) in
       inr (p, r)) in
  let '((res_p, count_p), (res_r, count_r)) := pr in
  let total_count := count_p + count_r in
  inr (mk_search_result (py_sort_posted_desc (res_p ++ res_r)) total_count pg
                        (total_pages total_count) None).

Definition link_like (pat : text) (r : link_row) : bool :=
  sql_like (Some (url r)) pat || sql_like (og_title r) pat ||
  sql_like (og_description r) pat || sql_like (og_site_name r) pat.

Definition search_links (query mode : text) (pg : Z) (s : store) : exn + search_result :=
  let offset := pg * RESULTS_PER_PAGE in
  match link_metadata s with
  | None => inr (mk_search_result [] 0 pg 1
                   (Some "Link search not available. Run plurk-tools links extract first."%string))
  | Some t =>
      (* [None]: [link_metadata_fts] is missing *)
      let? rc :=
        (if bool_decide (mode = cps "fts") then
           match lindex t with
           | None => inr None
           | Some ix =>
               let? q := bind_text (build_fts_query query) in
               let? off := bind_int offset in
               let? ids := fts_query_ids q ix in
               let hits := omap (fun k => pair k <$> lrows t !! k) (rev (merge_sort (≤) ids)) in
               inr (Some (limit_offset RESULTS_PER_PAGE off hits, Z.of_nat (length ids)))
           end
         else
           let? pat := bind_text (build_like_pattern query) in
           let? off := bind_int offset in
           if bool_decide (lrows t <> ∅) && (like_pattern_limit <? utf8_length pat)
           then inl like_too_complex else
           let hits := List.filter (fun kr => link_like pat kr.2) (rev (rows_by_rowid (lrows t))) in
           inr (Some (limit_offset RESULTS_PER_PAGE off hits, Z.of_nat (length hits)))) in
      match rc with
      | None => inr (mk_search_result [] 0 pg 1 (Some "FTS index not available for links."%string))
      | Some (rws, total_count) =>
          inr (mk_search_result (List.map (fun kr => LinkItem kr.2) rws) total_count pg
                                (total_pages total_count) None)
      end
  end.

(** [search]: it only reads the connection. *)
Definition search (query search_type mode : text) (pg : Z) : M search_result :=
  fun s => (s, if bool_decide (search_type = cps "links") then search_links query mode pg s
               else search_content query search_type mode pg s).

End Search.

(** ** Predicates and sample databases of the proofs *)

Definition rows_kept {R} (t t' : content_table R) : Prop :=
  forall k v, rows t !! k = Some v -> rows t' !! k = Some v.

Definition scan_failing_store : store :=
  store_with_plurks [(1, plurk_posted "Wed, 01 Jan 2020 08:00:00 GMT");
                     (2, plurk_posted "Mon, 26 Jan 2026 08:00:00 GMT")].

Definition resight_row : link_row :=
  mk_link_row (cps "https://example.com") (Some (cps "Example")) None None
              (Some (mk_sources [5; 9] [])) (Some (cps "success")) None.

Definition resight_table : link_table :=
  mk_ltable {[1 := resight_row]}
            (Some (mk_fts (cps "unicode61") [(1, indexed_cols resight_row)])).

(** What one page query returns: its rows and the match count; past the
    last match the page is empty. *)
Definition page_ok (off : Z) (r : exn + (list search_item * Z)) : Prop :=
  match r with
  | inr (l, n) => 0 <= n /\ (n <= off -> l = [])
  | inl _ => False
  end.

Definition cat_store : store :=
  store_with_plurks [(1, Plurks.mk_row None (Some (cps "a cat")) (Some (cps "2024-01-02")) None None);
                     (2, Plurks.mk_row None (Some (cps "Cats")) (Some (cps "2024-01-01")) None None)].

(** The page query and count query of [_search_content] on [plurks] and
    on [responses], in the branch chosen by [mode]. *)
Definition plurk_page fts5_match (query mode : text) (offset : Z) (s : store)
    : exn + (list search_item * Z) :=
  if bool_decide (mode = cps "fts")
  then fts_page fts5_match PlurkItem (build_fts_query query) offset (plurks s)
  else like_page PlurkItem Plurks.content_raw (build_like_pattern query) offset (rows (plurks s)).

Definition response_page fts5_match (query mode : text) (offset : Z) (s : store)
    : exn + (list search_item * Z) :=
  if bool_decide (mode = cps "fts")
  then fts_page fts5_match ResponseItem (build_fts_query query) offset (responses s)
  else like_page ResponseItem Responses.content_raw (build_like_pattern query) offset
                 (rows (responses s)).

(** 60 posts and 60 replies whose content is [a]. *)
Definition sixty_each_store : store :=
  mk_store (mk_ctable (list_to_map (List.map (fun k => (k, Plurks.mk_row None (Some (cps "a"))
                                       (Some (cps "2024-01-01")) None None)) (seqZ 1 60)))
                      (mk_fts (cps "unicode61") []))
           (mk_ctable (list_to_map (List.map (fun k => (k, Responses.mk_row None (Some (cps "a"))
                                       (Some (cps "2024-01-02")) None None None)) (seqZ 1 60)))
                      (mk_fts (cps "unicode61") []))
           None.

(** ** [parse_plurk_file] and [parse_response_file] (utils.py).

    The decoded JSON values of [json.loads].  Floats are kept as the
    lexeme handed to [float()]; [NaN], [Infinity] and [-Infinity] as the
    name handed to [parse_constant]; an object is the dict built by
    [PyDict_SetItem] in scan order. *)
#[local] Set Warnings "-register-all".
Inductive json :=
| JNone
| JBool (b : bool)
| JInt (z : Z)
| JFloat (lexeme : text)
| JConstant (name : text)
| JStr (s : text)
| JList (items : list json)
| JDict (items : list (text * json)).

(** [d[key] = value]: a new key goes last, an existing key keeps its
    place and takes the new value. *)
Fixpoint dict_setitem (d : list (text * json)) (key : text) (v : json) : list (text * json) :=
  match d with
  | [] => [(key, v)]
  | (k, w) :: d' => if bool_decide (k = key) then (k, v) :: d' else (k, w) :: dict_setitem d' key v
  end.

(** [PyUnicode_READ(kind, str, i)] at an index the scanner has checked. *)
Definition char_at (s : text) (i : nat) : Z := default (-1) (s !! i).

(** [IS_WHITESPACE] of _json.c, the class of [json.decoder.WHITESPACE]. *)
Definition is_json_ws (c : Z) : bool := (c =? 32) || (c =? 9) || (c =? 10) || (c =? 13).

Definition is_digit (c : Z) : bool := in_range 48 57 c.

(** [while (idx <= end_idx && IS_WHITESPACE(str[idx])) idx++;] *)
Definition skip_ws (s : text) (idx : nat) : nat :=
  (idx + length (take_while is_json_ws (drop idx s)))%nat.

(** [while (idx <= end_idx && '0' <= str[idx] <= '9') idx++;] *)
Definition skip_digits (s : text) (idx : nat) : nat :=
  (idx + length (take_while is_digit (drop idx s)))%nat.

(** [s[start:stop]] for [start <= len(s)]. *)
Definition slice (s : text) (start stop : nat) : text := take (stop - start) (drop start s).

(** The word [w] is at index [idx] of [s]. *)
Definition word_at (s : text) (idx : nat) (w : text) : bool :=
  bool_decide (take (length w) (drop idx s) = w).

Definition hex_value (c : Z) : option Z :=
  if in_range 48 57 c then Some (c - 48)
  else if in_range 97 102 c then Some (c - 97 + 10)
  else if in_range 65 70 c then Some (c - 65 + 10)
  else None.

(** The four hex digits at [s[i:i+4]]. *)
Definition decode_hex4 (s : text) (i : nat) : option Z :=
  foldl (fun acc c => match acc, hex_value c with
                      | Some a, Some h => Some (a * 16 + h)
                      | _, _ => None
                      end) (Some 0) (slice s i (i + 4)).

(** [sys.get_int_max_str_digits()] at its default. *)
Definition int_max_str_digits : nat := 4300.

Definition digits_value (ds : text) : Z := foldl (fun acc c => acc * 10 + (c - 48)) 0 ds.

(** [PyLong_FromString(numstr, NULL, 10)] on a lexeme of
    [_match_number_unicode]; the message is cut before its digit count. *)
Definition py_long_from_string (numstr : text) : exn + Z :=
  let '(sign, ds) := match numstr with 45 :: ds => (-1, ds) | _ => (1, numstr) end in
  if (int_max_str_digits <? length ds)%nat
  then inl (ValueError "Exceeds the limit (4300 digits) for integer string conversion")
  else inr (sign * digits_value ds).

(** [_match_number_unicode] (_json.c); [end_idx = len - 1], so
    [idx <= end_idx] reads [idx < len] and [idx < end_idx] reads
    [idx + 1 < len]. *)
Definition match_number (s : text) (start : nat) : exn + (json * nat) :=
  let len := length s in
  let? idx :=
    (if char_at s start =? 45 then
       if (len <=? start + 1)%nat then inl (StopIteration start) else inr (start + 1)%nat
     else inr start) in
  let? idx :=
    (if in_range 49 57 (char_at s idx) then inr (skip_digits s (idx + 1))
     else if char_at s idx =? 48 then inr (idx + 1)%nat
     else inl (StopIteration start)) in
  let '(idx, is_float) :=
    (if (idx + 1 <? len)%nat && (char_at s idx =? 46) && is_digit (char_at s (idx + 1))
     then (skip_digits s (idx + 2), true)
     else (idx, false)) in
  let '(idx, is_float) :=
    (if (idx + 1 <? len)%nat && ((char_at s idx =? 101) || (char_at s idx =? 69)) then
       let e_start := idx in
       let idx := (idx + 1)%nat in
       let idx := if (idx + 1 <? len)%nat && ((char_at s idx =? 45) || (char_at s idx =? 43))
                  then (idx + 1)%nat else idx in
       let idx := skip_digits s idx in
       if is_digit (char_at s (idx - 1)) then (idx, true) else (e_start, is_float)
     else (idx, is_float)) in
  let numstr := slice s start idx in
  if is_float then inr (JFloat numstr, idx)
  else let? z := py_long_from_string numstr in inr (JInt z, idx).

(** The escapes of [scanstring_unicode] other than [\u]. *)
Definition simple_escape (c : Z) : option Z :=
  if c =? 34 then Some 34 else if c =? 92 then Some 92 else if c =? 47 then Some 47
  else if c =? 98 then Some 8 else if c =? 102 then Some 12 else if c =? 110 then Some 10
  else if c =? 114 then Some 13 else if c =? 116 then Some 9 else None.

Definition is_string_plain (c : Z) : bool := negb ((c =? 34) || (c =? 92) || (c <=? 31)).

(** The loop of [scanstring_unicode] (_json.c, [strict=True]) from index
    [end_] of [s], with [begin] the index of the opening quote; each
    round moves [end_] forward, so [length s + 1] rounds suffice. *)
Fixpoint scanstring_loop (fuel : nat) (s : text) (begin end_ : nat) (chunks : text)
    : exn + (text * nat) :=
  match fuel with
  | O => inl (RecursionError "maximum recursion depth exceeded")
  | S fuel' =>
      let len := length s in
      let next := (end_ + length (take_while is_string_plain (drop end_ s)))%nat in
      if (len <=? next)%nat then inl (JSONDecodeError "Unterminated string starting at" begin)
      else
        let c := char_at s next in
        if c <=? 31 then inl (JSONDecodeError "Invalid control character at" next)
        else
          let chunks := chunks ++ slice s end_ next in
          let next := (next + 1)%nat in
          if c =? 34 then inr (chunks, next)
          else if (next =? len)%nat then inl (JSONDecodeError "Unterminated string starting at" begin)
          else
            let c := char_at s next in
            if negb (c =? 117) then
              let end_ := (next + 1)%nat in
              match simple_escape c with
              | None => inl (JSONDecodeError "Invalid \escape" (end_ - 2))
              | Some c => scanstring_loop fuel' s begin end_ (chunks ++ [c])
              end
            else
              let next := (next + 1)%nat in
              let end_ := (next + 4)%nat in
              if (len <=? end_)%nat then inl (JSONDecodeError "Invalid \uXXXX escape" (next - 1))
              else
                match decode_hex4 s next with
                | None => inl (JSONDecodeError "Invalid \uXXXX escape" (end_ - 5))
                | Some c =>
                    if in_range 55296 56319 c && (end_ + 6 <? len)%nat &&
                       (char_at s end_ =? 92) && (char_at s (end_ + 1) =? 117) then
                      match decode_hex4 s (end_ + 2) with
                      | None => inl (JSONDecodeError "Invalid \uXXXX escape" (end_ + 6 - 5))
                      | Some c2 =>
                          if in_range 56320 57343 c2 then
                            scanstring_loop fuel' s begin (end_ + 6)
                              (chunks ++ [65536 + (c - 55296) * 1024 + (c2 - 56320)])
                          else scanstring_loop fuel' s begin end_ (chunks ++ [c])
                      end
                    else scanstring_loop fuel' s begin end_ (chunks ++ [c])
                end
      end.

(** [scanstring_unicode(pystr, end, strict)]: [end] is the index after
    the opening quote. *)
Definition scanstring (s : text) (end_ : nat) : exn + (text * nat) :=
  scanstring_loop (S (length s)) s (end_ - 1) end_ [].

(** [scan_once_unicode], [_parse_array_unicode] and
    [_parse_object_unicode] (_json.c).  [depth] is what is left of the
    interpreter's recursion limit: each array or object is entered with
    [_Py_EnterRecursiveCall], which raises [RecursionError] when nothing
    is left.  [fuel] bounds the nesting of the calls of this model. *)
Fixpoint scan_once (fuel depth : nat) (s : text) (idx : nat) {struct fuel} : exn + (json * nat) :=
  match fuel with
  | O => inl (RecursionError "maximum recursion depth exceeded")
  | S fuel' =>
      let len := length s in
      if (len <=? idx)%nat then inl (StopIteration idx)
      else
        let c := char_at s idx in
        if c =? 34 then
          let? r := scanstring s (idx + 1) in inr (JStr r.1, r.2)
        else if c =? 123 then
          match depth with
          | O => inl (RecursionError
                        "maximum recursion depth exceeded while decoding a JSON object from a unicode string")
          | S depth' =>
              let idx := skip_ws s (idx + 1) in
              if (idx <? len)%nat && (char_at s idx =? 125) then inr (JDict [], (idx + 1)%nat)
              else parse_object_items fuel' depth' s idx []
          end
        else if c =? 91 then
          match depth with
          | O => inl (RecursionError
                        "maximum recursion depth exceeded while decoding a JSON array from a unicode string")
          | S depth' =>
              let idx := skip_ws s (idx + 1) in
              if (idx <? len)%nat && (char_at s idx =? 93) then inr (JList [], (idx + 1)%nat)
              else parse_array_items fuel' depth' s idx []
          end
        else if (c =? 110) && word_at s idx (cps "null") then inr (JNone, (idx + 4)%nat)
        else if (c =? 116) && word_at s idx (cps "true") then inr (JBool true, (idx + 4)%nat)
        else if (c =? 102) && word_at s idx (cps "false") then inr (JBool false, (idx + 5)%nat)
        else if (c =? 78) && word_at s idx (cps "NaN") then inr (JConstant (cps "NaN"), (idx + 3)%nat)
        else if (c =? 73) && word_at s idx (cps "Infinity") then
          inr (JConstant (cps "Infinity"), (idx + 8)%nat)
        else if (c =? 45) && word_at s idx (cps "-Infinity") then
          inr (JConstant (cps "-Infinity"), (idx + 9)%nat)
        else match_number s idx
  end
(** The loop of [_parse_array_unicode] from a value's index. *)
with parse_array_items (fuel depth : nat) (s : text) (idx : nat) (acc : list json)
    {struct fuel} : exn + (json * nat) :=
  match fuel with
  | O => inl (RecursionError "maximum recursion depth exceeded")
  | S fuel' =>
      let len := length s in
      let? r := scan_once fuel' depth s idx in
      let acc := acc ++ [r.1] in
      let idx := skip_ws s r.2 in
      if (idx <? len)%nat && (char_at s idx =? 93) then inr (JList acc, (idx + 1)%nat)
      else if (len <=? idx)%nat || negb (char_at s idx =? 44)
      then inl (JSONDecodeError "Expecting ',' delimiter" idx)
      else parse_array_items fuel' depth s (skip_ws s (idx + 1)) acc
  end
(** The loop of [_parse_object_unicode] from a key's index. *)
with parse_object_items (fuel depth : nat) (s : text) (idx : nat) (acc : list (text * json))
    {struct fuel} : exn + (json * nat) :=
  match fuel with
  | O => inl (RecursionError "maximum recursion depth exceeded")
  | S fuel' =>
      let len := length s in
      if (len <=? idx)%nat || negb (char_at s idx =? 34)
      then inl (JSONDecodeError "Expecting property name enclosed in double quotes" idx)
      else
        let? k := scanstring s (idx + 1) in
        let key := k.1 in
        let idx := skip_ws s k.2 in
        if (len <=? idx)%nat || negb (char_at s idx =? 58)
        then inl (JSONDecodeError "Expecting ':' delimiter" idx)
        else
          let idx := skip_ws s (idx + 1) in
          let? r := scan_once fuel' depth s idx in
          let acc := dict_setitem acc key r.1 in
          let idx := skip_ws s r.2 in
          if (idx <? len)%nat && (char_at s idx =? 125) then inr (JDict acc, (idx + 1)%nat)
          else if (len <=? idx)%nat || negb (char_at s idx =? 44)
          then inl (JSONDecodeError "Expecting ',' delimiter" idx)
          else parse_object_items fuel' depth s (skip_ws s (idx + 1)) acc
  end.

(** Every call of [scan_once] and of the two loops starts at a greater
    index than the call two levels up, so the nesting of the calls
    stays below [2 * length s + 3]. *)
Definition json_fuel (s : text) : nat := (3 * (length s + 1))%nat.

(** [json.loads(s)]: [json.loads] refuses a leading BOM, then
    [JSONDecoder.decode] skips whitespace, runs the scanner
    ([raw_decode] turns its [StopIteration] into [Expecting value]),
    skips whitespace again and refuses anything left. *)
Definition json_loads (depth : nat) (s : text) : exn + json :=
  if word_at s 0 [65279] then inl (JSONDecodeError "Unexpected UTF-8 BOM (decode using utf-8-sig)" 0)
  else
    match scan_once (json_fuel s) depth s (skip_ws s 0) with
    | inl (StopIteration p) => inl (JSONDecodeError "Expecting value" p)
    | inl e => inl e
    | inr (obj, end_) =>
        let end_ := skip_ws s end_ in
        if (end_ =? length s)%nat then inr obj else inl (JSONDecodeError "Extra data" end_)
    end.

(** [s.index(sub)] *)
Fixpoint find_sub (sub s : text) : option nat :=
  if word_at s 0 sub then Some O
  else match s with
       | [] => None
       | _ :: s' => S <$> find_sub sub s'
       end.

(** [re.match(LABEL, content).group(1)] with the pattern LABEL of the
    source: [BackupData.KIND], a bracket, a quote, a group of one or more
    non-quotes, a quote and a closing bracket.  [label_prefix] is the
    text up to the first quote; the group takes the whole run of
    non-quotes that follows, which must be followed by the quote and the
    bracket (a shorter run would be followed by a non-quote). *)
Definition match_label (label_prefix content : text) : option text :=
  if word_at content 0 label_prefix then
    let rest := drop (length label_prefix) content in
    let key := take_while (fun c => negb (c =? 34)) rest in
    if bool_decide (key <> []) && word_at rest (length key) [34; 93] then Some key else None
  else None.

(** The body shared by [parse_plurk_file] and [parse_response_file],
    on the text [path.read_text()] returns; [rec_budget] is the
    recursion left to [json.loads]. *)
Definition parse_backup_js (label_prefix : text) (format_error : string) (rec_budget : nat)
    (content : text) : exn + (text * json) :=
  match match_label label_prefix content with
  | None => inl (ValueError format_error)
  | Some key =>
      match find_sub (cps "]=") content with
      | None => inl (ValueError "substring not found")
      | Some eq_pos =>
          let json_start := (eq_pos + 2)%nat in
          match rfind_char 93 content with
          | None => inl (ValueError "substring not found")
          | Some r =>
              let json_end := (r + 1)%nat in
              let json_str := slice content json_start json_end in
              let? records := json_loads rec_budget json_str in
              inr (key, records)
          end
      end
  end.

Definition plurk_label_prefix : text := cps "BackupData.plurks[" ++ [34].
Definition response_label_prefix : text := cps "BackupData.responses[" ++ [34].

(** The messages leave out the path. *)
Definition parse_plurk_file : nat -> text -> exn + (text * json) :=
  parse_backup_js plurk_label_prefix "Invalid plurk file format".
Definition parse_response_file : nat -> text -> exn + (text * json) :=
  parse_backup_js response_label_prefix "Invalid response file format".

(** The parts a backup file is made of, as the spec names them, for the
    comparison with [parse_backup_js]: the label with a key [k] (one or
    more non-quotes between double quotes, then a closing bracket); the
    first [\]=] of the text; after it a text [j] that ends at the last
    [']'] of the text; and [json.loads] reading [j] as [v]. *)
Definition archive_parts (label_prefix : text) (d : nat) (content k : text) (v : json) : Prop :=
  k <> [] /\ (34 ∉ k) /\ (exists rest, content = label_prefix ++ k ++ 34 :: 93 :: rest) /\
  exists pre j tail,
    content = pre ++ cps "]=" ++ j ++ tail /\
    (forall a b, pre <> a ++ cps "]=" ++ b) /\
    last j = Some 93 /\ (93 ∉ tail) /\
    json_loads d j = inr v.

(** The exceptions of [parse_plurk_file] and [parse_response_file] on a
    text: [ValueError] (of which [json.JSONDecodeError] is a subclass)
    and [RecursionError]. *)
Definition archive_parse_error (e : exn) : bool :=
  match e with
  | ValueError _ | JSONDecodeError _ _ | RecursionError _ => true
  | _ => false
  end.

(** The exceptions that leave the JSON scanner: those above and the
    [StopIteration] that [raw_decode] turns into [Expecting value]. *)
Definition scan_error (e : exn) : bool :=
  archive_parse_error e || match e with StopIteration _ => true | _ => false end.

(** ** What the LIKE and MATCH strings of [SearchDB] stand for *)

(** The escaping of [_build_like_pattern], one character at a time. *)
Definition like_esc1 (c : Z) : text :=
  if Z.eqb c 92 then [92; 92]
  else if Z.eqb c 37 then [92; 37]
  else if Z.eqb c 95 then [92; 95]
  else [c].

(** [v] contains [q] as a substring, ASCII letters compared without case. *)
Definition contains_ci (v q : text) : Prop :=
  exists a m b, v = a ++ m ++ b /\ map ascii_lower m = map ascii_lower q.

(** The same for a nullable column: NULL contains nothing. *)
Definition opt_contains_ci (v : option text) (q : text) : Prop :=
  match v with Some v => contains_ci v q | None => False end.

(** FTS5's string syntax: after an opening double quote, the characters
    up to the closing one, [\"\"] standing for one double quote; the
    phrase text and the rest of the input.  The query is read as a
    NUL-terminated string: reaching its end or a NUL leaves the string
    unterminated. *)
Fixpoint fts5_string (s : text) : option (text * text) :=
  match s with
  | [] => None
  | c :: s' =>
      if Z.eqb c 0 then None
      else if Z.eqb c 34 then
        match s' with
        | d :: s'' =>
            if Z.eqb d 34 then (fun tr => (34 :: tr.1, tr.2)) <$> fts5_string s''
            else Some ([], s')
        | [] => Some ([], [])
        end
      else (fun tr => (c :: tr.1, tr.2)) <$> fts5_string s'
  end.

(** A sequence of quoted phrases, each optionally marked as a prefix
    phrase by a following [*], separated by single spaces (FTS5's
    implicit AND): the phrases with their prefix mark.  This reads the
    part of the FTS5 query syntax that [_build_fts_query] writes; any
    other input (bare words, operators, parentheses) gives [None].  A
    NUL ends the input. *)
Fixpoint fts5_phrases_fuel (fuel : nat) (s : text) : option (list (text * bool)) :=
  match s with
  | [] => Some []
  | c :: s' =>
      if Z.eqb c 0 then Some [] else
      match fuel with
      | O => None
      | S f =>
          if Z.eqb c 34 then
            match fts5_string s' with
            | None => None
            | Some (t, r) =>
                let '(pre, r1) := match r with
                                  | x :: r' => if Z.eqb x 42 then (true, r') else (false, r)
                                  | [] => (false, r)
                                  end in
                match r1 with
                | [] => Some [(t, pre)]
                | y :: r2 =>
                    if Z.eqb y 0 then Some [(t, pre)]
                    else if Z.eqb y 32 then cons (t, pre) <$> fts5_phrases_fuel f r2 else None
                end
            end
          else None
      end
  end.

Definition fts5_phrases (s : text) : option (list (text * bool)) :=
  fts5_phrases_fuel (length s) s.

(** One part of [_build_fts_query]: [f'"{escaped}"*']. *)
Definition fts_term (term : text) : text := [34] ++ replace_char 34 [34; 34] term ++ [34; 42].

(** ** [SearchDB.get_stats] (search_api.py): the row counts of [plurks]
    and [responses], and, when [link_metadata] exists, its row count and
    the number of its rows with status 'success' (0 and 0 otherwise). *)
Definition get_stats (s : store) : Z * Z * Z * Z :=
  let plurk_count := Z.of_nat (size (rows (plurks s))) in
  let response_count := Z.of_nat (size (rows (responses s))) in
  match link_metadata s with
  | Some t =>
      (plurk_count, response_count, Z.of_nat (size (lrows t)),
       Z.of_nat (size (filter (fun kr : Z * link_row => status kr.2 = Some (cps "success"))
                              (lrows t))))
  | None => (plurk_count, response_count, 0, 0)
  end.

(** Every id of [a] is also in [b], under both keys. *)
Definition sources_incl (a b : sources) : Prop :=
  (forall x, x ∈ plurk_ids a -> x ∈ plurk_ids b) /\
  (forall x, x ∈ response_ids a -> x ∈ response_ids b).

(** ** [filter_plurk_files] (utils.py).

    A directory is given by the names of its entries.  [glob(\"*.js\")]
    keeps the names ending in [.js] (the star matches any run of
    characters, a leading dot included); [sorted] on paths of one
    directory orders them by name, code point by code point. *)

Definition text_leb (a b : text) : bool :=
  match text_compare a b with Gt => false | _ => true end.

Definition text_le (a b : text) : Prop := text_leb a b = true.

#[global] Instance text_le_dec : RelDecision text_le := fun a b => decide (text_leb a b = true).

Definition sort_names (names : list text) : list text := merge_sort text_le names.

Definition glob_js (names : list text) : list text := List.filter (ends_with (cps ".js")) names.

(** [Path.stem]: the name without its last suffix, where a suffix starts
    at the last dot provided that dot is neither the first nor the last
    character of the name. *)
Definition py_stem (name : text) : text :=
  match rfind_char 46 name with
  | Some i => if (0 <? i)%nat && (i <? length name - 1)%nat then take i name else name
  | None => name
  end.

(** [file.stem.replace(\"_\", \"-\")] *)
Definition month_key (name : text) : text := replace_char 95 [45] (py_stem name).

(** The loop [if scan_start <= month_key <= scan_end]: a chained
    comparison, whose second half runs only when the first holds, and
    compares a [str] with [None] (a [TypeError]) when [scan_end] is
    [None]. *)
Fixpoint select_in_range (scan_start : text) (scan_end : option text) (files : list text)
    : exn + list text :=
  match files with
  | [] => inr []
  | f :: fs =>
      if text_leb scan_start (month_key f) then
        match scan_end with
        | None => inl (TypeError "'<=' not supported between instances of 'str' and 'NoneType'")
        | Some e =>
            let? rest := select_in_range scan_start scan_end fs in
            inr (if text_leb (month_key f) e then f :: rest else rest)
        end
      else select_in_range scan_start scan_end fs
  end.

Definition filter_plurk_files (names : list text) (scan_start scan_end : option text)
    : exn + list text :=
  let all_files := sort_names (glob_js names) in
  match scan_start with
  | None => inr all_files
  | Some a =>
      let? files := select_in_range a scan_end all_files in
      inr (sort_names files)
  end.

(** The name of the plurk file of a month in a backup: [YYYY_MM.js]. *)
Definition two_digits (m : Z) : text := [48 + m / 10; 48 + m mod 10].

Definition plurk_file_name (y m : Z) : text :=
  decimal_digits 20 y [] ++ [95] ++ two_digits m ++ cps ".js".

(** Months counted from year 0: the order of (year, month) pairs. *)
Definition month_index (y m : Z) : Z := y * 12 + (m - 1).

(** [cmd_extract] (links_cmd.py): [--month YYYYMM] becomes the range
    [f\"{month[:4]}-{month[4:]}\"] to [f\"{month[:4]}-{month[4:]}\"]. *)
Definition extract_month_key (month : text) : text := take 4 month ++ [45] ++ drop 4 month.

(** ** [get_base_ids_from_plurks] and [filter_response_files] (utils.py).

    The errors Python raises on the decoded JSON: those of the parser,
    and an [AttributeError] for a method the value's type lacks. *)
Inductive py_error :=
| PyExn (e : exn)
| AttributeError (msg : string).

Definition py_type_name (v : json) : string :=
  match v with
  | JNone => "NoneType"
  | JBool _ => "bool"
  | JInt _ => "int"
  | JFloat _ | JConstant _ => "float"
  | JStr _ => "str"
  | JList _ => "list"
  | JDict _ => "dict"
  end.

(** [for p in v]: a list yields its items, a dict its keys, a string its
    characters; other values are not iterable. *)
Definition py_iter (v : json) : py_error + list json :=
  match v with
  | JList items => inr items
  | JDict items => inr (List.map (fun kv => JStr kv.1) items)
  | JStr s => inr (List.map (fun c => JStr [c]) s)
  | _ => inl (PyExn (TypeError ("'" ++ py_type_name v ++ "' object is not iterable")%string))
  end.

Definition dict_lookup (items : list (text * json)) (key : text) : option json :=
  snd <$> List.find (fun kv => bool_decide (kv.1 = key)) items.

(** [p.get(key)]: only a dict has the method. *)
Definition py_get (p : json) (key : text) : py_error + json :=
  match p with
  | JDict items => inr (default JNone (dict_lookup items key))
  | _ => inl (AttributeError ("'" ++ py_type_name p ++ "' object has no attribute 'get'")%string)
  end.

(** [set.add(v)]: lists and dicts are unhashable. *)
Definition py_hash_check (v : json) : py_error + unit :=
  match v with
  | JList _ => inl (PyExn (TypeError "unhashable type: 'list'"))
  | JDict _ => inl (PyExn (TypeError "unhashable type: 'dict'"))
  | _ => inr tt
  end.

(** [str in base_ids]: a string is equal to no value of another type. *)
Definition json_is_str (t : text) (v : json) : bool :=
  match v with JStr s => bool_decide (s = t) | _ => false end.

Section BaseIds.

(** [bool(float(lexeme))]: whether a float literal denotes a nonzero
    value after rounding; left open. *)
Variable float_truthy : text -> bool.

(** [bool(v)] *)
Definition py_truthy (v : json) : bool :=
  match v with
  | JNone => false
  | JBool b => b
  | JInt z => negb (Z.eqb z 0)
  | JFloat lexeme => float_truthy lexeme
  | JConstant _ => true
  | JStr s => negb (bool_decide (s = []))
  | JList l => negb (bool_decide (l = []))
  | JDict d => negb (bool_decide (d = []))
  end.

(** The inner loop: [if p.get(\"base_id\"): base_ids.add(p[\"base_id\"])].
    The set is a list of its elements in insertion order; only
    membership is ever read from it. *)
Fixpoint collect_base_ids (ps : list json) (acc : list json) : py_error + list json :=
  match ps with
  | [] => inr acc
  | p :: ps' =>
      let? v := py_get p (cps "base_id") in
      if py_truthy v then
        let? _u := py_hash_check v in
        collect_base_ids ps' (acc ++ [v])
      else collect_base_ids ps' acc
  end.

(** A plurk file is given by the text [read_text()] returns. *)
Fixpoint get_base_ids_loop (rec_budget : nat) (contents : list text) (acc : list json)
    : py_error + list json :=
  match contents with
  | [] => inr acc
  | c :: cs =>
      match parse_plurk_file rec_budget c with
      | inl e => inl (PyExn e)
      | inr (_, plurks) =>
          let? items := py_iter plurks in
          let? acc' := collect_base_ids items acc in
          get_base_ids_loop rec_budget cs acc'
      end
  end.

Definition get_base_ids_from_plurks (rec_budget : nat) (contents : list text)
    : py_error + list json :=
  get_base_ids_loop rec_budget contents [].

End BaseIds.

(** [filter_response_files]: the directory is given by its entry names. *)
Definition filter_response_files (names : list text) (base_ids : list json) : list text :=
  match base_ids with
  | [] => []
  | _ => sort_names (List.filter (fun n => existsb (json_is_str (py_stem n)) base_ids) (glob_js names))
  end.

(** ** The records of [import_plurks] / [import_responses] (database.py).

    [for p in plurks] runs over what the archive's JSON value yields
    when iterated; each record then gives the statement's parameters,
    which [conn.execute] binds one by one before the statement runs. *)

Definition py_exn (e : py_error) : exn :=
  match e with
  | PyExn e => e
  | AttributeError msg => PyAttributeError msg
  end.

Definition records_of (v : json) : exn + list json :=
  match py_iter v with
  | inl e => inl (py_exn e)
  | inr items => inr items
  end.

(** A fragment file: its label and the records it holds. *)
Definition plurk_archive (rec_budget : nat) (content : text) : exn + (text * list json) :=
  match parse_plurk_file rec_budget content with
  | inl e => inl e
  | inr (key, v) => let? ps := records_of v in inr (key, ps)
  end.

Definition response_archive (rec_budget : nat) (content : text) : exn + (text * list json) :=
  match parse_response_file rec_budget content with
  | inl e => inl e
  | inr (key, v) => let? ps := records_of v in inr (key, ps)
  end.

(** A bound parameter as SQLite receives it. *)
Inductive sql_param :=
| PNull
| PInt (z : Z)
| PFloat (lexeme : text)
| PText (t : text).

Definition digit_string (i : nat) : string := String (ascii_of_nat (48 + i)) EmptyString.

(** The binding of parameter [i] (from 1) by the [sqlite3] module: [None]
    is NULL; [bool] and [int] go through [sqlite3_bind_int64], which
    refuses an [int] outside 64 bits; a [float] goes through
    [sqlite3_bind_double], where NaN becomes NULL; a [str] is encoded to
    UTF-8, which refuses a lone surrogate; a [list] or [dict] is not
    supported. *)
Definition bind_param (i : nat) (v : json) : exn + sql_param :=
  match v with
  | JNone => inr PNull
  | JBool b => inr (PInt (if b then 1 else 0))
  | JInt z =>
      if bool_decide (- 2 ^ 63 <= z <= 2 ^ 63 - 1) then inr (PInt z)
      else inl (OverflowError "Python int too large to convert to SQLite INTEGER")
  | JFloat lexeme => inr (PFloat lexeme)
  | JConstant name => if bool_decide (name = cps "NaN") then inr PNull else inr (PFloat name)
  | JStr s => let? t := bind_text s in inr (PText t)
  | JList _ | JDict _ =>
      inl (ProgrammingError ("Error binding parameter " ++ digit_string i ++ ": type '"
                             ++ py_type_name v ++ "' is not supported"))
  end.

Fixpoint bind_params (i : nat) (vs : list json) : exn + list sql_param :=
  match vs with
  | [] => inr []
  | v :: vs' =>
      let? p := bind_param i v in
      let? ps := bind_params (S i) vs' in
      inr (p :: ps)
  end.

(** [p[\"id\"]] on a value that is not a dict. *)
Definition py_subscript_error (p : json) : exn :=
  match p with
  | JStr _ => TypeError "string indices must be integers, not 'str'"
  | JList _ => TypeError "list indices must be integers or slices, not str"
  | _ => TypeError ("'" ++ py_type_name p ++ "' object is not subscriptable")
  end.

(** [d.get(key)] on a dict. *)
Definition json_get (items : list (text * json)) (key : string) : json :=
  default JNone (dict_lookup items (cps key)).

Section ImportRecords.

(** What SQLite makes of a REAL given as a float literal, and of a TEXT,
    in an [INTEGER PRIMARY KEY]: the integer it converts the value to
    without loss, if any; left open. *)
Variable real_rowid : text -> option Z.
Variable text_rowid : text -> option Z.

(** The row stored from the bound values of the other columns, after
    their column affinity; left open. *)
Variable plurk_row : list sql_param -> Plurks.row.
Variable response_row : list sql_param -> Responses.row.

(** The value of an [INTEGER PRIMARY KEY]: NULL lets SQLite choose the
    rowid; a value with no integer equivalent fails the statement with
    [sqlite3.IntegrityError: datatype mismatch] (OR IGNORE does not
    cover it). *)
Definition rowid_of (p : sql_param) : exn + option Z :=
  match p with
  | PNull => inr None
  | PInt z => inr (Some z)
  | PFloat x =>
      match real_rowid x with
      | Some z => inr (Some z)
      | None => inl (IntegrityError "datatype mismatch")
      end
  | PText t =>
      match text_rowid t with
      | Some z => inr (Some z)
      | None => inl (IntegrityError "datatype mismatch")
      end
  end.

(** The statement of [import_plurks] for a record [p]. *)
Definition plurk_record (_ : text) (p : json) : exn + (option Z * Plurks.row) :=
  match p with
  | JDict items =>
      match dict_lookup items (cps "id") with
      | None => inl (KeyError "'id'")
      | Some id =>
          let? idp := bind_param 1 id in
          let? cols := bind_params 2 [json_get items "base_id"; json_get items "content_raw";
                                      json_get items "posted"; json_get items "response_count";
                                      json_get items "qualifier"] in
          let? k := rowid_of idp in
          inr (k, plurk_row cols)
      end
  | _ => inl (py_subscript_error p)
  end.

(** The statement of [import_responses] for a record [r] of the file
    labelled [base_id]: [user = r.get(\"user\", {})] comes first, then
    the parameters in order. *)
Definition response_record (base_id : text) (r : json) : exn + (option Z * Responses.row) :=
  match r with
  | JDict items =>
      let user := default (JDict []) (dict_lookup items (cps "user")) in
      match dict_lookup items (cps "id") with
      | None => inl (KeyError "'id'")
      | Some id =>
          match user with
          | JDict uitems =>
              let? idp := bind_param 1 id in
              let? cols := bind_params 2 [JStr base_id; json_get items "content_raw";
                                          json_get items "posted"; json_get uitems "id";
                                          json_get uitems "nick_name";
                                          json_get uitems "display_name"] in
              let? k := rowid_of idp in
              inr (k, response_row cols)
          | _ => inl (PyAttributeError ("'" ++ py_type_name user ++ "' object has no attribute 'get'"))
          end
      end
  | _ => inl (PyAttributeError ("'" ++ py_type_name r ++ "' object has no attribute 'get'"))
  end.

(** A fragment file is given by the text [read_text()] returns. *)
Definition import_plurks (rec_budget : nat) (plurk_files : list text) : M (nat * nat) :=
  import_files plurks set_plurks plurk_record (plurk_archive rec_budget) plurk_files (0, 0)%nat.

Definition import_responses (rec_budget : nat) (response_files : list text) : M (nat * nat) :=
  import_files responses set_responses response_record (response_archive rec_budget)
    response_files (0, 0)%nat.

End ImportRecords.

(** A record whose [id] SQLite receives as NULL: JSON [null] or [NaN]. *)
Definition null_id (p : json) : bool :=
  match p with
  | JDict items =>
      match dict_lookup items (cps "id") with
      | Some JNone => true
      | Some (JConstant name) => bool_decide (name = cps "NaN")
      | _ => false
      end
  | _ => false
  end.

Definition no_null_ids (archive : text -> exn + (text * list json)) (contents : list text) : Prop :=
  forall c key ps p, c ∈ contents -> archive c = inr (key, ps) -> p ∈ ps -> null_id p = false.

(** ** [SearchDB.get_response_plurk] (search_api.py).

    [SELECT r.base_id, p.posted FROM responses r JOIN plurks p
    ON r.base_id = p.base_id WHERE r.id = ?] with [fetchone()]: the
    response is looked up by its rowid, the plurks are scanned in rowid
    order, NULL equals nothing, and the first joined row is returned. *)
Definition get_response_plurk (response_id : Z) : M (option (option text * option text)) :=
  fun s => (s,
    let? rid := bind_int response_id in
    inr (match rows (responses s) !! rid with
         | None => None
         | Some r =>
             match Responses.base_id r with
             | None => None
             | Some b =>
                 (fun kp => (Some b, Plurks.posted kp.2)) <$>
                   head (List.filter (fun kp => bool_decide (Plurks.base_id kp.2 = Some b))
                                     (rows_by_rowid (rows (plurks s))))
             end
         end)).

(** ** Paths (pathlib, serve_cmd.py, init_cmd.py).

    An absolute [Path] is the list of its parts after the root. *)

(** [s.split(c)] *)
Fixpoint split_on (c : Z) (s : text) : list text :=
  match s with
  | [] => [[]]
  | x :: s' =>
      if Z.eqb x c then [] :: split_on c s'
      else match split_on c s' with
           | [] => [[x]]
           | w :: ws => (x :: w) :: ws
           end
  end.

(** The parts pathlib takes from a relative path string: empty parts
    and [.] are dropped, [..] is kept. *)
Definition path_parts (rel : text) : list text :=
  List.filter (fun x => negb (bool_decide (x = [])) && negb (bool_decide (x = [46])))
              (split_on 47 rel).

(** [base / rel] for a relative [rel]. *)
Definition path_join (base : list text) (rel : text) : list text := base ++ path_parts rel.

(** [s.startswith(pre)] *)
Definition starts_with (pre s : text) : bool := bool_decide (take (length pre) s = pre).

Section ServePaths.

(** [urllib.parse.unquote] on a string holding a [%]; without one it
    returns the string unchanged. *)
Variable unquote_pct : text -> text.

Definition py_unquote (s : text) : text :=
  if existsb (Z.eqb 37) s then unquote_pct s else s.

(** [VIEWER_DIR] *)
Variable viewer_dir : list text.

(** [DualDirectoryHandler.translate_path]; the handler opens the path it
    returns. *)
Definition translate_path (backup_path : list text) (path : text) : list text :=
  let path := py_unquote path in
  let path := take_while (fun c => negb (Z.eqb c 63)) path in
  let path := take_while (fun c => negb (Z.eqb c 35)) path in
  let clean_path := drop_while (fun c => Z.eqb c 47) path in
  if starts_with (cps "data/") clean_path then path_join backup_path clean_path
  else if bool_decide (clean_path = cps "index.html") then path_join backup_path clean_path
  else if starts_with (cps "static/") clean_path then
    let filename := drop 7 clean_path in
    if starts_with (cps "backup.") filename || starts_with (cps "jquery") filename ||
       bool_decide (filename = cps "icons.png")
    then path_join backup_path clean_path
    else path_join viewer_dir clean_path
  else path_join viewer_dir clean_path.

End ServePaths.

(** The file the operating system opens for a path without symbolic
    links: [..] goes to the parent ([..] of the root is the root). *)
Fixpoint resolve_parts (acc : list text) (parts : list text) : list text :=
  match parts with
  | [] => acc
  | p :: ps => if bool_decide (p = [46; 46]) then resolve_parts (removelast acc) ps
               else resolve_parts (acc ++ [p]) ps
  end.

(** [get_default_viewer_path] (init_cmd.py): [Path.name] is the last
    part ([\"\"] for the root), [Path.parent] drops it. *)
Definition get_default_viewer_path (backup_path : list text) : list text :=
  let name := default [] (last backup_path) in
  let viewer_name := if ends_with (cps "-backup") name
                     then take (length name - 7) name ++ cps "-viewer"
                     else name ++ cps "-viewer" in
  path_join (removelast backup_path) viewer_name.

(** The four decimal digits of a year from 1000 to 9999. *)
Definition year_digits (y : Z) : list Z := [y / 1000; y / 100 mod 10; y / 10 mod 10; y mod 10].

(** A plurk file whose records have the [base_id]s [\"abc\"] and [7]. *)
Definition base_id_demo_file : text :=
  cps "BackupData.plurks[" ++ [34] ++ cps "2018_10" ++ [34] ++ cps "]=[{" ++ [34] ++ cps "base_id" ++
  [34] ++ cps ":" ++ [34] ++ cps "abc" ++ [34] ++ cps "},{" ++ [34] ++ cps "base_id" ++ [34] ++
  cps ":7}];".

(** Page 0 of a LIKE search for [cat] among the posts of
    [cat_store]. *)
Definition cat_plurks_result : search_result :=
  match snd (search (fun _ _ => true) (cps "cat") (cps "plurks") (cps "like") 0 cat_store) with
  | inr r => r
  | inl _ => mk_search_result [] 0 0 1 None
  end.

(** A post with [base_id] [abc] and three replies: one to it, one to a
    post not stored, one with a NULL [base_id]. *)
Definition reply_store : store :=
  mk_store
    (mk_ctable (list_to_map [(1, Plurks.mk_row (Some (cps "abc")) (Some (cps "hi"))
                                               (Some (cps "2024-01-02")) None None)])
               (mk_fts (cps "unicode61") []))
    (mk_ctable (list_to_map
                  [(5, Responses.mk_row (Some (cps "abc")) (Some (cps "yes")) None None None None);
                   (6, Responses.mk_row (Some (cps "zzz")) (Some (cps "no")) None None None None);
                   (7, Responses.mk_row None (Some (cps "none")) None None None None)])
               (mk_fts (cps "unicode61") []))
    None.

(** The request path [/data] followed by [/..] [k] times and by
    [/t] for each part [t]. *)
Definition climbing_request (k : nat) (target : list text) : text :=
  concat (List.map (fun t => 47 :: t) (cps "data" :: repeat (cps "..") k ++ target)).

(* ================================================================== *)
(** * Proofs *)
(* ================================================================== *)

(** ** Import engine *)

Lemma rows_kept_refl {R} (t : content_table R) : rows_kept t t.
Proof. intros k v Hk. exact Hk. Qed.

Lemma rows_kept_trans {R} (t1 t2 t3 : content_table R) :
  rows_kept t1 t2 -> rows_kept t2 t3 -> rows_kept t1 t3.
Proof. intros H12 H23 k v Hk. apply H23, H12, Hk. Qed.

Section ImportProofs.
Context {R : Type} `{Indexed R} {Rec File : Type}.
Variable tbl : store -> content_table R.
Variable set_tbl : content_table R -> store -> store.
Variable to_row : text -> Rec -> exn + (option Z * R).
Variable parse_file : File -> exn + (text * list Rec).
Hypothesis tbl_set : forall t s, tbl (set_tbl t s) = t.
Hypothesis set_tbl_id : forall s, set_tbl (tbl s) s = s.

Lemma insert_or_ignore_kept k r (t : content_table R) :
  rows_kept t (insert_or_ignore k r t).1.
Proof.
  unfold insert_or_ignore. intros k' v Hk'.
  destruct (rows t !! k) eqn:E; simpl; [exact Hk' |].
  rewrite lookup_insert_ne; [exact Hk' | congruence].
Qed.

Lemma insert_or_ignore_stored k r (t : content_table R) :
  is_Some (rows (insert_or_ignore k r t).1 !! k).
Proof.
  unfold insert_or_ignore. destruct (rows t !! k) eqn:E; simpl.
  - rewrite E. eauto.
  - rewrite lookup_insert_eq. eauto.
Qed.

Lemma insert_or_ignore_present k r (t : content_table R) :
  is_Some (rows t !! k) -> insert_or_ignore k r t = (t, 0).
Proof. intros [v Hv]. unfold insert_or_ignore. now rewrite Hv. Qed.

Lemma import_records_run key ps c s :
  (forall p r, p ∈ ps -> to_row key p <> inr (None, r)) ->
  exists s' res,
    import_records tbl set_tbl to_row key ps c s = (s', res) /\
    rows_kept (tbl s) (tbl s') /\
    match records_ok to_row key ps with
    | inl e => res = inl e
    | inr n => exists c', res = inr c' /\ (c'.1 + c'.2 = c.1 + c.2 + n)%nat
    end /\
    (forall c2 s2, rows_kept (tbl s') (tbl s2) ->
       import_records tbl set_tbl to_row key ps c2 s2 =
         (s2, match records_ok to_row key ps with
              | inl e => inl e
              | inr n => inr (c2.1, c2.2 + n)%nat
              end)).
Proof.
  revert c s. induction ps as [| p ps IH]; intros c s Hnn; simpl.
  - exists s, (inr c). split; [reflexivity |]. split; [apply rows_kept_refl |].
    split; [exists c; split; [reflexivity | lia] |].
    intros [a b] s2 _. simpl. now rewrite Nat.add_0_r.
  - destruct (to_row key p) as [e | [[k |] r]] eqn:Ep.
    + exists s, (inl e). split; [reflexivity |]. split; [apply rows_kept_refl |].
      split; [reflexivity | intros; reflexivity].
    + unfold bind, sql_insert_or_ignore.
      destruct (insert_or_ignore k r (tbl s)) as [t n] eqn:Eins.
      set (c1 := if decide (n = 1) then (S c.1, c.2) else (c.1, S c.2)).
      destruct (IH c1 (set_tbl t s)) as (s' & res & Erun & Hk & Hc & Ha).
      { intros q r' Hq. apply Hnn. now right. }
      rewrite tbl_set in Hk.
      assert (Hkt : rows_kept (tbl s) t).
      { pose proof (insert_or_ignore_kept k r (tbl s)) as H0. now rewrite Eins in H0. }
      assert (Hst : is_Some (rows t !! k)).
      { pose proof (insert_or_ignore_stored k r (tbl s)) as H0. now rewrite Eins in H0. }
      exists s', res. split; [exact Erun |]. split; [eapply rows_kept_trans; eauto |]. split.
      * destruct (records_ok to_row key ps) as [e | m]; [exact Hc |].
        destruct Hc as (c' & -> & Hc'). exists c'. split; [reflexivity |].
        subst c1. destruct (decide (n = 1)); simpl in *; lia.
      * intros c2 s2 Hk2.
        rewrite insert_or_ignore_present.
        2: { destruct Hst as [v Hv]. exists v. apply Hk2, Hk, Hv. }
        rewrite set_tbl_id. simpl. rewrite (Ha _ s2 Hk2).
        destruct (records_ok to_row key ps); [reflexivity |].
        simpl. do 3 f_equal. lia.
    + exfalso. eapply Hnn; [left | exact Ep].
Qed.

(** Every record of the files reaches the table with an id of its own. *)
Definition ids_given (files : list File) : Prop :=
  forall f key ps p r, f ∈ files -> parse_file f = inr (key, ps) -> p ∈ ps ->
                       to_row key p <> inr (None, r).

Lemma import_files_run files c s :
  ids_given files ->
  exists s' res,
    import_files tbl set_tbl to_row parse_file files c s = (s', res) /\
    rows_kept (tbl s) (tbl s') /\
    match records_in to_row parse_file files with
    | inl e => res = inl e
    | inr n => exists c', res = inr c' /\ (c'.1 + c'.2 = c.1 + c.2 + n)%nat
    end /\
    (forall c2 s2, rows_kept (tbl s') (tbl s2) ->
       import_files tbl set_tbl to_row parse_file files c2 s2 =
         (s2, match records_in to_row parse_file files with
              | inl e => inl e
              | inr n => inr (c2.1, c2.2 + n)%nat
              end)).
Proof.
  revert c s. induction files as [| f fs IH]; intros c s Hids; simpl.
  - exists s, (inr c). split; [reflexivity |]. split; [apply rows_kept_refl |].
    split; [exists c; split; [reflexivity | lia] |].
    intros [a b] s2 _. simpl. now rewrite Nat.add_0_r.
  - destruct (parse_file f) as [e | [key ps]] eqn:Ef.
    + exists s, (inl e). split; [reflexivity |]. split; [apply rows_kept_refl |].
      split; [reflexivity | intros; reflexivity].
    + destruct (import_records_run key ps c s) as (s1 & res1 & Erun & Hk1 & Hc1 & Ha1).
      { intros p r Hp. eapply Hids; [left | exact Ef | exact Hp]. }
      unfold bind. rewrite Erun.
      destruct (records_ok to_row key ps) as [e | m] eqn:Eok.
      * subst res1. exists s1, (inl e). split; [reflexivity |]. split; [exact Hk1 |].
        split; [reflexivity |]. intros c2 s2 Hk2. now rewrite (Ha1 c2 s2 Hk2).
      * destruct Hc1 as (c' & -> & Hc').
        destruct (IH c' s1) as (s' & res & Erun' & Hk' & Hc & Ha).
        { intros f' key' ps' p r Hf'. apply Hids. now right. }
        exists s', res. split; [exact Erun' |]. split; [eapply rows_kept_trans; eauto |]. split.
        -- destruct (records_in to_row parse_file fs) as [e | n]; [exact Hc |].
           destruct Hc as (c'' & -> & Hc''). exists c''. split; [reflexivity | lia].
        -- intros c2 s2 Hk2.
           rewrite (Ha1 c2 s2) by (eapply rows_kept_trans; eauto).
           rewrite (Ha _ s2 Hk2).
           destruct (records_in to_row parse_file fs); [reflexivity |].
           simpl. do 3 f_equal. lia.
Qed.

Lemma import_files_spec files :
  ids_given files ->
  import_spec tbl (records_in to_row parse_file)
    (fun fs => import_files tbl set_tbl to_row parse_file fs (0, 0)%nat) files.
Proof.
  intros Hids s.
  destruct (import_files_run files (0, 0)%nat s Hids) as (s1 & r1 & E & Hk & Hc & Ha).
  rewrite E. split; [exact Hk |]. split; [| split; [| split]].
  - intros n Hn. rewrite Hn in Hc. destruct Hc as ([a b] & -> & Hab).
    exists a, b. split; [reflexivity | simpl in Hab; lia].
  - intros e He. rewrite He in Hc. exact Hc.
  - rewrite (Ha (0, 0)%nat s1 (rows_kept_refl _)).
    destruct (records_in to_row parse_file files); reflexivity.
  - intros N HN. destruct N as [| N]; [lia |]. clear HN.
    induction N as [| N IHN].
    + unfold import_n_times. simpl. now rewrite E.
    + unfold import_n_times in *. simpl in *. rewrite IHN.
      now rewrite (Ha (0, 0)%nat s1 (rows_kept_refl _)).
Qed.
End ImportProofs.

Lemma rowid_null_id real_rowid text_rowid i id idp :
  bind_param i id = inr idp -> rowid_of real_rowid text_rowid idp = inr None ->
  match id with
  | JNone => true
  | JConstant name => bool_decide (name = cps "NaN")
  | _ => false
  end = true.
Proof.
  destruct id as [| b | z | x | name | t | items | items]; simpl; try discriminate.
  - reflexivity.
  - intros [= <-]. discriminate.
  - case_bool_decide; [intros [= <-]; discriminate | discriminate].
  - intros [= <-]. simpl. destruct (real_rowid x); discriminate.
  - case_bool_decide; [reflexivity |]. intros [= <-]. simpl.
    destruct (real_rowid name); discriminate.
  - destruct (bind_text t) as [| t']; [discriminate |]. intros [= <-]. simpl.
    destruct (text_rowid t'); discriminate.
Qed.

Lemma plurk_record_null real_rowid text_rowid plurk_row key p r :
  plurk_record real_rowid text_rowid plurk_row key p = inr (None, r) -> null_id p = true.
Proof.
  unfold plurk_record, null_id. destruct p as [| | | | | | | items]; try discriminate.
  destruct (dict_lookup items (cps "id")) as [id |]; [| discriminate].
  destruct (bind_param 1 id) as [| idp] eqn:Eb; [discriminate |].
  destruct (bind_params 2 _) as [| cols]; [discriminate |].
  destruct (rowid_of real_rowid text_rowid idp) as [| k] eqn:Ek; [discriminate |].
  intros [= -> _]. exact (rowid_null_id _ _ _ _ _ Eb Ek).
Qed.

Lemma response_record_null real_rowid text_rowid response_row key p r :
  response_record real_rowid text_rowid response_row key p = inr (None, r) -> null_id p = true.
Proof.
  unfold response_record, null_id. destruct p as [| | | | | | | items]; try discriminate.
  destruct (dict_lookup items (cps "id")) as [id |]; [| discriminate].
  destruct (default (JDict []) _) as [| | | | | | | uitems]; try discriminate.
  destruct (bind_param 1 id) as [| idp] eqn:Eb; [discriminate |].
  destruct (bind_params 2 _) as [| cols]; [discriminate |].
  destruct (rowid_of real_rowid text_rowid idp) as [| k] eqn:Ek; [discriminate |].
  intros [= -> _]. exact (rowid_null_id _ _ _ _ _ Eb Ek).
Qed.

(** ** C1 *)




(** ** FTS synchronisation by triggers *)

Lemma filter_remove_first (k : Z) (e : fts_entry) (l : list fts_entry) :
  filter (fun e' : fts_entry => e'.1 = k) (remove_first e l) =
  if decide (e.1 = k) then remove_first e (filter (fun e' : fts_entry => e'.1 = k) l)
  else filter (fun e' : fts_entry => e'.1 = k) l.
Proof.
  induction l as [| e' l IH]; cbn [remove_first].
  - rewrite filter_nil. destruct (decide (e.1 = k)); reflexivity.
  - destruct (decide (e' = e)) as [-> | Hne].
    + rewrite filter_cons. destruct (decide (e.1 = k)); [| reflexivity].
      cbn [remove_first]. now rewrite decide_True.
    + rewrite !filter_cons, IH.
      destruct (decide (e'.1 = k)), (decide (e.1 = k)); try reflexivity.
      cbn [remove_first]. now rewrite decide_False.
Qed.

Section Sync.
Context {R : Type} `{Indexed R}.

Lemma synced_empty tok : index_synced (∅ : gmap Z R) (mk_fts tok []).
Proof. intros k. rewrite lookup_empty. reflexivity. Qed.

Lemma synced_insert (m : gmap Z R) ix k r :
  index_synced m ix -> m !! k = None ->
  index_synced (row_insert k r m ix).1 (row_insert k r m ix).2.
Proof.
  intros Hs Hk k'. simpl. rewrite filter_app, Hs, filter_cons, filter_nil.
  destruct (decide ((k, indexed_cols r).1 = k')) as [Heq | Hne]; simpl in *.
  - subst k'. rewrite Hk, lookup_insert_eq. reflexivity.
  - rewrite lookup_insert_ne by exact Hne. apply app_nil_r.
Qed.

Lemma synced_delete (m : gmap Z R) ix k :
  index_synced m ix ->
  index_synced (row_delete k m ix).1 (row_delete k m ix).2.
Proof.
  intros Hs. unfold row_delete. destruct (m !! k) as [old |] eqn:E; [| exact Hs].
  intros k'. simpl. rewrite filter_remove_first. simpl.
  destruct (decide (k = k')) as [<- | Hne].
  - rewrite Hs, E, lookup_delete_eq. cbn [remove_first]. now rewrite decide_True.
  - rewrite Hs, lookup_delete_ne by exact Hne. reflexivity.
Qed.

Lemma synced_update (m : gmap Z R) ix k k' r' :
  index_synced m ix ->
  ~ (k <> k' /\ is_Some (m !! k') /\ is_Some (m !! k)) ->
  index_synced (row_update k k' r' m ix).1 (row_update k k' r' m ix).2.
Proof.
  intros Hs Hpre. unfold row_update. destruct (m !! k) as [old |] eqn:E; [| exact Hs].
  pose proof (synced_delete m ix k Hs) as Hd. unfold row_delete in Hd. rewrite E in Hd.
  eapply synced_insert in Hd; [exact Hd |]. cbn [fst snd].
  destruct (decide (k = k')) as [<- | Hne]; [apply lookup_delete_eq |].
  rewrite lookup_delete_ne by exact Hne.
  destruct (m !! k') eqn:E'; [| reflexivity].
  exfalso. apply Hpre. repeat split; eauto.
Qed.

Lemma synced_exec_content (st : content_stmt R) t t' :
  index_synced (rows t) (index t) -> exec_content st t = inr t' ->
  index_synced (rows t') (index t').
Proof.
  intros Hs Hex. destruct st as [k r | k r | k k' r' | k]; simpl in Hex.
  - destruct (rows t !! k) eqn:E; inversion Hex; subst; simpl.
    now apply synced_insert.
  - inversion Hex; subst. unfold insert_or_ignore.
    destruct (rows t !! k) eqn:E; [exact Hs |]. simpl.
    apply (synced_insert (rows t) (index t) k r Hs E).
  - destruct (decide _) as [_ | Hpre]; inversion Hex; subst; simpl.
    now apply synced_update.
  - inversion Hex; subst; simpl. now apply synced_delete.
Qed.
End Sync.

Lemma foldr_max_ge (ks : list Z) k :
  k ∈ ks ->
  exists a, foldr (fun k acc => match acc with None => Some k | Some a => Some (Z.max k a) end)
                  None ks = Some a /\ k <= a.
Proof.
  induction ks as [| x ks IH]; intros Hk; [inversion Hk |].
  simpl. apply elem_of_cons in Hk as [-> | Hk].
  - destruct (foldr _ None ks) as [a |].
    + exists (Z.max x a). split; [reflexivity | lia].
    + exists x. split; [reflexivity | lia].
  - destruct (IH Hk) as (a & -> & Ha). exists (Z.max x a). split; [reflexivity | lia].
Qed.

Lemma new_rowid_fresh {R} (m : gmap Z R) : m !! new_rowid m = None.
Proof.
  destruct (m !! new_rowid m) as [v |] eqn:E; [exfalso | reflexivity].
  assert (Hin : new_rowid m ∈ map fst (map_to_list m)).
  { apply list_elem_of_In, in_map_iff. exists (new_rowid m, v). split; [reflexivity |].
    apply list_elem_of_In. now apply elem_of_map_to_list. }
  destruct (foldr_max_ge _ _ Hin) as (a & Ha & Hle).
  unfold new_rowid, max_rowid in Hle. rewrite Ha in Hle. lia.
Qed.

Lemma synced_exec_link st t t' ix :
  lindex t = Some ix -> index_synced (lrows t) ix -> exec_link st t = inr t' ->
  exists ix', lindex t' = Some ix' /\ index_synced (lrows t') ix'.
Proof.
  intros Hix Hs Hex.
  destruct st as [rowid r | rowid r | rid rid' r' | rid]; simpl in Hex;
    unfold link_apply in Hex; rewrite ?Hix in Hex.
  - destruct (link_insert_conflict rowid r t) eqn:Ec; inversion Hex; subst; clear Hex.
    eexists; split; [reflexivity |]. apply synced_insert; [exact Hs |].
    unfold link_insert_conflict in Ec. apply orb_false_iff in Ec as [_ Ec].
    apply bool_decide_eq_false in Ec. destruct (lrows t !! _); [exfalso; eauto | reflexivity].
  - destruct (link_insert_conflict rowid r t) eqn:Ec; inversion Hex; subst; clear Hex.
    + eauto.
    + eexists; split; [reflexivity |]. apply synced_insert; [exact Hs |].
      unfold link_insert_conflict in Ec. apply orb_false_iff in Ec as [_ Ec].
      apply bool_decide_eq_false in Ec. destruct (lrows t !! _); [exfalso; eauto | reflexivity].
  - destruct (lrows t !! rid) eqn:E; [| inversion Hex; subst; eauto].
    destruct (_ || _) eqn:Ec; inversion Hex; subst; clear Hex.
    eexists; split; [reflexivity |]. apply synced_update; [exact Hs |].
    apply orb_false_iff in Ec as [_ Ec]. apply bool_decide_eq_false in Ec.
    intros (Hne & Hsome & _). apply Ec. split; assumption.
  - inversion Hex; subst. eexists; split; [reflexivity |]. now apply synced_delete.
Qed.

Lemma store_synced_step st s : store_synced s -> store_synced (exec_stmt st s).1.
Proof.
  intros Hall. pose proof Hall as (Hp & Hr & Hl). destruct st as [c | c | c |]; simpl.
  - destruct (exec_content c (plurks s)) eqn:E; simpl; [exact Hall |].
    split; [| split; assumption]. eapply synced_exec_content; eauto.
  - destruct (exec_content c (responses s)) eqn:E; simpl; [exact Hall |].
    split; [assumption | split; [| assumption]]. eapply synced_exec_content; eauto.
  - destruct (link_metadata s) as [t |] eqn:Et; simpl; [| exact Hall].
    destruct (exec_link c t) eqn:E; simpl; [exact Hall |].
    split; [assumption | split; [assumption |]].
    destruct Hl as (ix & Hix & Hs). eapply synced_exec_link; eauto.
  - unfold create_link_metadata_table.
    destruct (link_metadata s) as [t |] eqn:Et.
    + destruct Hl as (ix & Hix & Hs). rewrite Hix. exact Hall.
    + split; [assumption | split; [assumption |]]. simpl. eexists; split; [reflexivity |].
      apply synced_empty.
Qed.

Lemma store_synced_steps sts s : store_synced s -> store_synced (exec_stmts sts s).
Proof.
  revert s. induction sts as [| st sts IH]; intros s Hs; simpl; [exact Hs |].
  apply IH, store_synced_step, Hs.
Qed.

(** ** C3 *)

(** C3. Index synchronisation: starting from the schema [create_schema]
    makes, after any sequence of inserts (plain or [OR IGNORE]), updates
    and deletes on [plurks], [responses] and [link_metadata] (created by
    [create_link_metadata_table]), each firing the triggers of its table,
    every existing row has exactly one entry in its table's FTS index,
    holding the row's current indexed column values, and no rowid without
    a row has any entry. *)
Theorem fts_index_synced (sts : list stmt) :
  store_synced (exec_stmts sts create_schema_fresh).
Proof.
  apply store_synced_steps. split; [apply synced_empty | split; [apply synced_empty | exact I]].
Qed.

(** ** Scan planning *)

Example scan_range_long_gap :
  calculate_scan_range (store_with_plurks [(1, plurk_posted "2025-06-15")]) (mk_date 2026 2 2)
  = inr (Some (cps "2025-06"), Some (cps "2026-02")).
Proof. vm_compute. reflexivity. Qed.

Example scan_range_short_gap :
  calculate_scan_range (store_with_plurks [(1, plurk_posted "2025-12-31")]) (mk_date 2026 2 2)
  = inr (Some (cps "2025-08"), Some (cps "2026-02")).
Proof. vm_compute. reflexivity. Qed.

Lemma scan_range_empty (s : store) cur :
  rows (plurks s) = ∅ -> calculate_scan_range s cur = inr (None, None).
Proof.
  intros He. unfold calculate_scan_range, sql_max_posted. rewrite He, map_to_list_empty.
  reflexivity.
Qed.

(** Once [MAX(posted)] is fixed, the branch on the month gap is the one
    the spec describes. *)
Lemma scan_range_from_max (s : store) cur p d :
  sql_max_posted (rows (plurks s)) = Some p -> parse_date p = inr d ->
  1 <= year cur -> (2 <= year cur \/ 7 <= month cur) -> 1 <= month cur <= 12 ->
  calculate_scan_range s cur = inr (claimed_scan_range d cur).
Proof.
  intros Hmax Hp Hy1 Hy Hm. unfold calculate_scan_range, claimed_scan_range.
  rewrite Hmax, Hp.
  destruct (6 <? _); [reflexivity |].
  unfold sub_months.
  destruct (_ <? 1) eqn:E; [| reflexivity].
  exfalso. apply Z.ltb_lt in E.
  assert (Hdiv : 1 <= (year cur * 12 + (month cur - 1) - 6) / 12).
  { apply Z.div_le_lower_bound; lia. }
  lia.
Qed.

(** C2 (code bug). [calculate_scan_range] takes [MAX(posted)], the
    greatest stored string, as the latest timestamp.  With the archive's
    RFC 1123 timestamps (the shape its own comment names) the greatest
    string is decided by the weekday name: for posts of 2020-01-01 (a
    Wednesday) and 2026-01-26 (a Monday) and current date 2026-02-02 it
    scans from 2020-01, while the latest posting date 2026-01-26 leaves a
    gap of one month and the spec's range ("2025-08", "2026-02"). *)
Theorem scan_range_takes_string_max :
  calculate_scan_range scan_failing_store (mk_date 2026 2 2)
    = inr (Some (cps "2020-01"), Some (cps "2026-02")) /\
  latest_posted_date (rows (plurks scan_failing_store)) = Some (mk_date 2026 1 26) /\
  claimed_scan_range (mk_date 2026 1 26) (mk_date 2026 2 2)
    = (Some (cps "2025-08"), Some (cps "2026-02")).
Proof. vm_compute. repeat split. Qed.

(** ** URL extraction *)

Lemma first_some_ext {A B} (f g : A -> option B) (l : list A) :
  (forall x, f x = g x) -> first_some f l = first_some g l.
Proof. intros Hfg. induction l as [|x l IH]; simpl; [done|]. by rewrite Hfg, IH. Qed.

Lemma scan_matches_ext (f g : text -> option nat) :
  (forall s, f s = g s) -> forall fuel s, scan_matches f fuel s = scan_matches g fuel s.
Proof.
  intros Hfg fuel. induction fuel as [|fuel IH]; intros s; simpl; [done|].
  destruct s as [|c s']; [done|]. rewrite Hfg. destruct (g (c :: s')); by rewrite IH.
Qed.

Lemma strip_trailing_punct_snoc (r : text) (c : Z) :
  strip_trailing_punct (r ++ [c]) =
  if is_sentence_punct c then strip_trailing_punct r else r ++ [c].
Proof.
  unfold strip_trailing_punct. rewrite rev_app_distr. simpl.
  destruct (is_sentence_punct c); [done|]. simpl. by rewrite rev_involutive.
Qed.

Lemma last_ok_middle (r t : text) (c : Z) :
  last_ok (r ++ c :: t) (length r) = url_last_char c.
Proof. unfold last_ok. by rewrite list_lookup_middle. Qed.

Lemma backtrack_eq (u : text) (j : nat) :
  backtrack u j = if last_ok u j then Some (S j)
                  else match j with O => None | S j' => backtrack u j' end.
Proof. by destruct j. Qed.

(** Backtracking from the end of a run of [url_char]s stops at its last
    character that is not sentence punctuation. *)
Lemma backtrack_run (r : text) : forall t,
  Forall (fun c => url_char c = true) r ->
  last_ok (r ++ t) (length r) = false ->
  backtrack (r ++ t) (length r) =
  match strip_trailing_punct r with [] => None | m => Some (length m) end.
Proof.
  induction r as [|c r' IH] using rev_ind; intros t Hall Hend.
  - simpl in *. by rewrite Hend.
  - apply Forall_app in Hall as [Hall Hc]. apply Forall_cons in Hc as [Hc _].
    rewrite <- app_assoc in *. simpl in *. rewrite length_app in *. simpl in *.
    rewrite Nat.add_1_r in *. simpl. rewrite Hend.
    rewrite strip_trailing_punct_snoc.
    destruct (is_sentence_punct c) eqn:Hp.
    + apply IH; [done|]. rewrite last_ok_middle. unfold url_last_char.
      unfold is_sentence_punct in Hp. by rewrite Hp, andb_false_r.
    + rewrite backtrack_eq, last_ok_middle. unfold url_last_char.
      unfold is_sentence_punct in Hp. rewrite Hp, Hc. simpl.
      destruct (r' ++ [c]) as [|x l] eqn:E; [by destruct r'|].
      apply (f_equal length) in E. rewrite length_app in E. simpl in E.
      f_equal. lia.
Qed.

Lemma run_length_take_while (u : text) : run_length u = length (take_while url_char u).
Proof. induction u as [|c u IH]; simpl; [done|]. destruct (url_char c); simpl; auto. Qed.

Lemma take_drop_while (p : Z -> bool) (u : text) : u = take_while p u ++ drop_while p u.
Proof. induction u as [|c u IH]; simpl; [done|]. destruct (p c); simpl; [by f_equal|done]. Qed.

Lemma take_while_all (u : text) : Forall (fun c => url_char c = true) (take_while url_char u).
Proof.
  induction u as [|c u IH]; simpl; [constructor|].
  destruct (url_char c) eqn:Hc; [by constructor|constructor].
Qed.

Lemma last_ok_run_end (u : text) : last_ok u (length (take_while url_char u)) = false.
Proof.
  induction u as [|c u IH]; [done|]. simpl.
  destruct (url_char c) eqn:Hc; [exact IH|].
  unfold last_ok. simpl. unfold url_last_char. by rewrite Hc.
Qed.

Lemma regex_match_at_spec (s : text) : regex_match_at s = spec_match_at s.
Proof.
  apply first_some_ext. intros [p u]. simpl.
  rewrite run_length_take_while.
  assert (Hb : backtrack u (length (take_while url_char u)) =
               match strip_trailing_punct (take_while url_char u) with
               | [] => None | m => Some (length m) end).
  { transitivity (backtrack (take_while url_char u ++ drop_while url_char u)
                            (length (take_while url_char u))).
    { by rewrite <- take_drop_while. }
    apply backtrack_run; [apply take_while_all|].
    rewrite <- take_drop_while. apply last_ok_run_end. }
  rewrite Hb. by destruct (strip_trailing_punct (take_while url_char u)).
Qed.

(** C4 (corrected). [extract_urls] returns, in order, for each
    [http://] or [https://] prefix found scanning from the left, the
    prefix followed by the maximal run of [url_char]s with its trailing
    sentence punctuation (. , ; : ! ?) stripped, when something remains;
    the excluded characters are exactly Python's whitespace, U+4E00-U+9FFF,
    U+3000-U+303F, the ASCII delimiters of [url_delims] and
    U+FF09 U+300D U+300F U+3011.  In particular the Chinese sentence
    example yields the URL alone, a query string and a trailing [#] are
    kept, and a trailing period or comma is stripped. *)
Theorem extract_urls_spec :
  (forall s, extract_urls s = spec_extract_urls s) /\
  extract_urls ([30475; 36889; 20491; 32] ++ cps "https://example.com" ++
                [32; 24456; 26377; 36259]) = [cps "https://example.com"] /\
  extract_urls (cps "https://youtube.com/watch?v=dQw4w9WgXcQ") =
    [cps "https://youtube.com/watch?v=dQw4w9WgXcQ"] /\
  extract_urls (cps "see https://example.com/page#") = [cps "https://example.com/page#"] /\
  extract_urls (cps "https://example.com. https://example.org, ok") =
    [cps "https://example.com"; cps "https://example.org"].
Proof.
  split; [|vm_compute; repeat split].
  intros s. unfold extract_urls, spec_extract_urls.
  destruct s as [|c s']; [done|].
  apply scan_matches_ext, regex_match_at_spec.
Qed.

(** C4 counterexample.  Characters the claim counts as CJK, bracket or
    quote characters are absorbed into the match: Japanese kana
    (U+306E U+30DA U+30FC U+30B8), an opening square bracket, and a
    closing curly quote (U+201D). *)
Lemma extract_urls_absorbs_kana_brackets_quotes :
  extract_urls (cps "https://example.com" ++ [12398; 12506; 12540; 12472]) =
    [cps "https://example.com" ++ [12398; 12506; 12540; 12472]] /\
  extract_urls (cps "see https://example.com[1] here") = [cps "https://example.com[1"] /\
  extract_urls ([8220] ++ cps "https://example.org" ++ [8221]) =
    [cps "https://example.org" ++ [8221]].
Proof. vm_compute. repeat split. Qed.

(** ** Link upsert and source merging *)

Lemma NoDup_map_eq {A B} (f : A -> B) (l : list A) (x y : A) :
  NoDup (List.map f l) -> In x l -> In y l -> f x = f y -> x = y.
Proof.
  induction l as [|a l IH]; simpl; [tauto|]. intros Hnd Hx Hy Hf.
  inversion Hnd as [|? ? Hnin Hnd']; subst.
  destruct Hx as [<-|Hx], Hy as [<-|Hy]; auto.
  - exfalso. apply Hnin. rewrite Hf. apply list_elem_of_In. by apply in_map.
  - exfalso. apply Hnin. rewrite <- Hf. apply list_elem_of_In. by apply in_map.
Qed.

Lemma urls_unique_eq (m : gmap Z link_row) k1 k2 r1 r2 :
  urls_unique m -> m !! k1 = Some r1 -> m !! k2 = Some r2 -> url r1 = url r2 -> k1 = k2.
Proof.
  intros Hu H1 H2 Hurl.
  apply elem_of_map_to_list, list_elem_of_In in H1, H2.
  assert (E : (k1, r1) = (k2, r2)) by (eapply (NoDup_map_eq (fun kr => url kr.2)); eauto).
  congruence.
Qed.

Lemma find_url_none_not_taken (m : gmap Z link_row) (u : text) :
  find_url m u = None -> url_taken m u None = false.
Proof.
  intros Hf. unfold url_taken.
  destruct (existsb _ _) eqn:E; [|done].
  apply existsb_exists in E as ([k r] & Hin & Hx). simpl in Hx.
  apply andb_true_iff in Hx as [Hx _].
  eapply find_none in Hf; [|exact Hin]. simpl in Hf. by rewrite Hx in Hf.
Qed.

Lemma find_url_unique (m : gmap Z link_row) (rid : Z) (r : link_row) :
  urls_unique m -> m !! rid = Some r -> find_url m (url r) = Some (rid, r).
Proof.
  intros Hu Hr. unfold find_url.
  destruct (List.find _ _) as [[k r2] |] eqn:E.
  - apply find_some in E as [Hin Hx]. simpl in Hx. apply bool_decide_eq_true in Hx.
    apply list_elem_of_In, elem_of_map_to_list in Hin.
    assert (k = rid) by (eapply urls_unique_eq; eauto). subst k. congruence.
  - assert (Hin : In (rid, r) (map_to_list m)).
    { apply list_elem_of_In, elem_of_map_to_list. exact Hr. }
    pose proof (find_none _ _ E (rid, r) Hin) as Hx. simpl in Hx.
    revert Hx. case_bool_decide; [discriminate|congruence].
Qed.

Lemma url_taken_unique (m : gmap Z link_row) (rid : Z) (r r' : link_row) :
  urls_unique m -> m !! rid = Some r -> url r' = url r -> url_taken m (url r') (Some rid) = false.
Proof.
  intros Hu Hr Hurl. unfold url_taken.
  destruct (existsb _ _) eqn:E; [|done].
  apply existsb_exists in E as ([k r2] & Hin & Hx). simpl in Hx.
  apply andb_true_iff in Hx as [Hx Hne].
  apply bool_decide_eq_true in Hx, Hne.
  apply list_elem_of_In, elem_of_map_to_list in Hin.
  exfalso. apply Hne. f_equal. eapply urls_unique_eq; eauto. congruence.
Qed.

Lemma link_apply_update_rows (t : link_table) (rid : Z) (r r' : link_row) :
  lrows t !! rid = Some r ->
  lrows (link_apply (row_update rid rid r') t) = <[rid := r']> (lrows t).
Proof.
  intros Hr. unfold link_apply, row_update.
  destruct (lindex t); simpl; rewrite Hr; simpl; apply insert_delete_eq.
Qed.

Lemma sorted_set_spec (xs : list Z) :
  Sorted (≤) (sorted_set xs) /\ NoDup (sorted_set xs) /\
  (forall x, x ∈ sorted_set xs <-> x ∈ xs).
Proof.
  unfold sorted_set. split; [apply Sorted_merge_sort; intros x y; lia|split].
  - rewrite merge_sort_Permutation. apply NoDup_remove_dups.
  - intros x. rewrite merge_sort_Permutation. apply elem_of_remove_dups.
Qed.

Lemma append_missing_spec (ys xs : list Z) :
  NoDup xs ->
  NoDup (append_missing xs ys) /\
  (forall x, x ∈ append_missing xs ys <-> x ∈ xs \/ x ∈ ys) /\
  xs `prefix_of` append_missing xs ys.
Proof.
  revert xs. induction ys as [|y ys IH]; intros xs Hnd; simpl.
  - split; [done|split; [set_solver|done]].
  - case_bool_decide as Hy.
    + destruct (IH xs Hnd) as (H1 & H2 & H3).
      split; [done|split; [|done]]. intros x. rewrite H2. set_solver.
    + assert (Hnd' : NoDup (xs ++ [y])).
      { apply NoDup_app. split; [done|split; [set_solver|apply NoDup_singleton]]. }
      destruct (IH _ Hnd') as (H1 & H2 & H3).
      split; [done|split].
      * intros x. rewrite H2. set_solver.
      * transitivity (xs ++ [y]); [by apply prefix_app_r|done].
Qed.

Lemma dict_get_set (d : url_dict) (k u : text) (v : sources) :
  dict_get (dict_set d k v) u = if decide (k = u) then Some v else dict_get d u.
Proof.
  induction d as [|[k' w] d IH]; simpl.
  - done.
  - destruct (decide (k' = k)) as [->|Hne]; simpl.
    + by destruct (decide (k = u)).
    + rewrite IH. destruct (decide (k' = u)), (decide (k = u)); congruence.
Qed.

Lemma dict_get_not_in (d : url_dict) (u : text) : u ∉ d.*1 -> dict_get d u = None.
Proof.
  induction d as [|[k v] d IH]; simpl; [done|]. intros Hn.
  destruct (decide (k = u)); [subst; set_solver|]. apply IH. set_solver.
Qed.

Lemma merge_url_sources_get (nw base : url_dict) (u : text) :
  NoDup nw.*1 ->
  dict_get (merge_url_sources base nw) u = merged_entry (dict_get base u) (dict_get nw u).
Proof.
  unfold merge_url_sources. revert base.
  induction nw as [|[k src] nw IH]; intros base Hnd.
  - simpl. destruct (dict_get base u) as [[p r] |]; reflexivity.
  - rewrite fmap_cons in Hnd. apply NoDup_cons in Hnd as [Hk Hnd]. simpl in Hk.
    cbn [fold_left]. rewrite IH by done. rewrite dict_get_set. cbn [dict_get].
    destruct (decide (k = u)) as [<-|Hne].
    + rewrite (dict_get_not_in nw k Hk). by destruct (dict_get base k).
    + reflexivity.
Qed.







(** C7.  [rebuild_fts] leaves the rows of [plurks], [responses] and
    [link_metadata] as they were, and a second run with the same
    tokenizer gives the same database (full-text indexes included) and
    the same counts as the first. *)
Theorem rebuild_fts_idempotent (tokenizer : text) (s : store) :
  rows (plurks (rebuild_fts tokenizer s).1) = rows (plurks s) /\
  rows (responses (rebuild_fts tokenizer s).1) = rows (responses s) /\
  option_map lrows (link_metadata (rebuild_fts tokenizer s).1) = option_map lrows (link_metadata s) /\
  rebuild_fts tokenizer (rebuild_fts tokenizer s).1 = rebuild_fts tokenizer s.
Proof.
  destruct s as [[pr pix] [rr rix] [[lr lix] |]]; repeat split; reflexivity.
Qed.

(** ** Search pagination *)

Lemma limit_offset_past_end {A} (lim off : Z) (l : list A) :
  Z.of_nat (length l) <= off -> limit_offset lim off l = [].
Proof. intros H. unfold limit_offset. rewrite drop_ge by lia. apply take_nil. Qed.

Lemma length_omap_le {A B} (f : A -> option B) (l : list A) : (length (omap f l) <= length l)%nat.
Proof. induction l as [|x l IH]; simpl; [lia|]. destruct (f x); simpl; unfold omap in IH; lia. Qed.

Lemma length_order_by_desc {A} (key : A -> option text) (l : list A) :
  length (order_by_desc key l) = length l.
Proof. unfold order_by_desc. apply Permutation_length, merge_sort_Permutation. Qed.

Lemma bind_int_ok (v : Z) : - 2 ^ 63 <= v <= 2 ^ 63 - 1 -> bind_int v = inr v.
Proof. intros H. unfold bind_int. by rewrite (proj2 (Z.leb_le _ _)), (proj2 (Z.leb_le _ _)) by lia. Qed.

Lemma bind_text_ok (t : text) : (forall c, c ∈ t -> is_surrogate c = false) -> bind_text t = inr t.
Proof.
  intros Ht. unfold bind_text. destruct (list_find _ t) as [[i c] |] eqn:E; [| reflexivity].
  apply list_find_Some in E as (Hi & Hc & _). rewrite (Ht c) in Hc; [discriminate |].
  eapply list_elem_of_lookup_2; eauto.
Qed.

Lemma bind_text_inr (t t' : text) : bind_text t = inr t' -> t' = t.
Proof. unfold bind_text. destruct (list_find _ t) as [[i c] |]; [discriminate | by intros [=]]. Qed.

Lemma fts_query_ids_ok fts5_match (q : text) (ix : fts_index) :
  c_str q <> [] -> fts5_open_string q false = false ->
  exists ids, fts_query_ids fts5_match q ix = inr ids.
Proof. intros Hq Ho. unfold fts_query_ids. rewrite bool_decide_false by done. rewrite Ho. eauto. Qed.

Lemma fts_page_ok {R} `{Indexed R} fts5_match (item : Z -> R -> search_item) q off
    (t : content_table R) :
  (forall c, c ∈ q -> is_surrogate c = false) ->
  c_str q <> [] -> fts5_open_string q false = false ->
  - 2 ^ 63 <= off <= 2 ^ 63 - 1 ->
  page_ok off (fts_page fts5_match item q off t).
Proof.
  intros Hs Hq Ho Hoff. unfold fts_page. rewrite bind_text_ok by done. rewrite bind_int_ok by done.
  destruct (fts_query_ids_ok fts5_match q (index t) Hq Ho) as [ids ->]. simpl.
  split; [lia|]. intros Hn. apply limit_offset_past_end.
  rewrite length_order_by_desc. pose proof (length_omap_le (fun k => item k <$> rows t !! k) ids). lia.
Qed.

Lemma like_page_ok {R} (item : Z -> R -> search_item) content pat off (t : gmap Z R) :
  (forall c, c ∈ pat -> is_surrogate c = false) ->
  utf8_length pat <= like_pattern_limit ->
  - 2 ^ 63 <= off <= 2 ^ 63 - 1 ->
  page_ok off (like_page item content pat off t).
Proof.
  intros Hs Hlen Hoff. unfold like_page. rewrite bind_text_ok by done. rewrite bind_int_ok by done.
  cbv beta iota. rewrite (proj2 (Z.ltb_ge _ _) Hlen), andb_false_r. simpl.
  split; [lia|]. intros Hn. apply limit_offset_past_end.
  rewrite length_order_by_desc, length_map. lia.
Qed.

(** Where the characters of the strings built from a query come from. *)

Lemma drop_while_incl p (s : text) c : c ∈ drop_while p s -> c ∈ s.
Proof.
  induction s as [| x s IH]; simpl; [done |].
  destruct (p x); [intros H; right; auto | done].
Qed.

Lemma py_strip_incl (s : text) c : c ∈ py_strip s -> c ∈ s.
Proof.
  unfold py_strip. rewrite !list_elem_of_In. intros H.
  apply in_rev in H. apply list_elem_of_In in H. apply drop_while_incl in H.
  apply list_elem_of_In, in_rev in H. apply list_elem_of_In in H. apply drop_while_incl in H.
  by apply list_elem_of_In.
Qed.

Lemma py_split_aux_incl (s cur t : text) c :
  t ∈ py_split_aux s cur -> c ∈ t -> c ∈ s \/ c ∈ cur.
Proof.
  revert cur. induction s as [| x s IH]; intros cur; simpl.
  - destruct cur as [| y cur]; [intros Ht; inversion Ht |].
    intros Ht Hc. apply list_elem_of_singleton in Ht. subst t. right.
    apply list_elem_of_In, in_rev, list_elem_of_In in Hc. exact Hc.
  - destruct (is_py_space x).
    + destruct cur as [| y cur].
      * intros Ht Hc. destruct (IH [] Ht Hc) as [H | H]; [left; by right | inversion H].
      * intros Ht Hc. apply elem_of_cons in Ht as [-> | Ht].
        -- right. apply list_elem_of_In, in_rev, list_elem_of_In in Hc. exact Hc.
        -- destruct (IH [] Ht Hc) as [H | H]; [left; by right | inversion H].
    + intros Ht Hc. destruct (IH (x :: cur) Ht Hc) as [H | H]; [left; by right |].
      apply elem_of_cons in H as [-> | H]; [left; left | right; exact H].
Qed.

Lemma py_split_strip_incl (q t : text) c : t ∈ py_split (py_strip q) -> c ∈ t -> c ∈ q.
Proof.
  intros Ht Hc. destruct (py_split_aux_incl _ _ _ c Ht Hc) as [H | H];
    [by apply py_strip_incl | inversion H].
Qed.

Lemma replace_char_incl old (new s : text) c : c ∈ replace_char old new s -> c ∈ new \/ c ∈ s.
Proof.
  unfold replace_char. rewrite list_elem_of_In, in_flat_map. intros (x & Hx & Hc).
  destruct (Z.eqb x old); [left; by apply list_elem_of_In |].
  destruct Hc as [<- | []]. right. by apply list_elem_of_In.
Qed.

Lemma py_join_incl (sep : text) (parts : list text) c :
  c ∈ py_join sep parts -> c ∈ sep \/ exists p, p ∈ parts /\ c ∈ p.
Proof.
  induction parts as [| p ps IH]; simpl; [intros H; inversion H |].
  destruct ps as [| p' ps].
  - intros H. right. exists p. split; [left | exact H].
  - rewrite !elem_of_app. intros [H | [H | H]].
    + right. exists p. split; [left | exact H].
    + left. exact H.
    + destruct (IH H) as [H' | (p0 & Hp0 & Hc)]; [left; exact H' |].
      right. exists p0. split; [right; exact Hp0 | exact Hc].
Qed.

Lemma build_fts_query_incl (q : text) c : c ∈ build_fts_query q -> c ∈ [34; 42; 32] \/ c ∈ q.
Proof.
  unfold build_fts_query. intros H. apply py_join_incl in H as [H | (p & Hp & Hc)].
  - left. apply list_elem_of_singleton in H. subst c. right; right; left.
  - apply list_elem_of_fmap in Hp as (t & -> & Ht).
    rewrite !elem_of_app in Hc. destruct Hc as [Hc | [Hc | Hc]].
    + left. apply list_elem_of_singleton in Hc. subst c. left.
    + apply replace_char_incl in Hc as [Hc | Hc].
      * left. apply elem_of_cons in Hc as [-> | Hc]; [left |].
        apply list_elem_of_singleton in Hc. subst c. left.
      * right. eapply py_split_strip_incl; eauto.
    + left. apply elem_of_cons in Hc as [-> | Hc]; [left |].
      apply list_elem_of_singleton in Hc. subst c. right; left.
Qed.

Lemma build_like_pattern_incl (q : text) c :
  c ∈ build_like_pattern q -> c ∈ [37; 92; 95] \/ c ∈ q.
Proof.
  unfold build_like_pattern. rewrite !elem_of_app. intros [H | [H | H]].
  - left. apply list_elem_of_singleton in H. subst c. left.
  - apply replace_char_incl in H as [H | H].
    { left. apply elem_of_cons in H as [-> | H]; [right; left |].
      apply list_elem_of_singleton in H. subst c. right; right; left. }
    apply replace_char_incl in H as [H | H].
    { left. apply elem_of_cons in H as [-> | H]; [right; left |].
      apply list_elem_of_singleton in H. subst c. left. }
    apply replace_char_incl in H as [H | H].
    { left. apply elem_of_cons in H as [-> | H]; [right; left |].
      apply list_elem_of_singleton in H. subst c. right; left. }
    right. by apply py_strip_incl.
  - left. apply list_elem_of_singleton in H. subst c. left.
Qed.

Lemma build_fts_query_no_surrogate (q : text) :
  (forall c, c ∈ q -> is_surrogate c = false) ->
  forall c, c ∈ build_fts_query q -> is_surrogate c = false.
Proof.
  intros Hq c Hc. apply build_fts_query_incl in Hc as [Hc | Hc]; [| by apply Hq].
  repeat (apply elem_of_cons in Hc as [-> | Hc]; [reflexivity |]). inversion Hc.
Qed.

Lemma build_like_pattern_no_surrogate (q : text) :
  (forall c, c ∈ q -> is_surrogate c = false) ->
  forall c, c ∈ build_like_pattern q -> is_surrogate c = false.
Proof.
  intros Hq c Hc. apply build_like_pattern_incl in Hc as [Hc | Hc]; [| by apply Hq].
  repeat (apply elem_of_cons in Hc as [-> | Hc]; [reflexivity |]). inversion Hc.
Qed.

(** FTS5 reads the MATCH string of a NUL-free query as its terms. *)

Lemma replace_char_app (o : Z) (n a b : text) :
  replace_char o n (a ++ b) = replace_char o n a ++ replace_char o n b.
Proof. unfold replace_char. apply flat_map_app. Qed.

Lemma fts5_string_esc (t rest : text) :
  0 ∉ t ->
  fts5_string (replace_char 34 [34; 34] t ++ 34 :: 42 :: rest) = Some (t, 42 :: rest).
Proof.
  induction t as [|c t IH]; intros H0; [reflexivity|].
  assert (Hc0 : c <> 0) by (intros ->; apply H0; left).
  assert (Ht0 : 0 ∉ t) by (intros Hin; apply H0; right; exact Hin).
  change (c :: t) with ([c] ++ t). rewrite replace_char_app, <- app_assoc.
  unfold replace_char at 1. simpl. destruct (Z.eqb_spec c 34) as [->|Hc].
  - simpl. rewrite IH by exact Ht0. reflexivity.
  - simpl. rewrite (proj2 (Z.eqb_neq c 0) Hc0), (proj2 (Z.eqb_neq c 34) Hc), IH by exact Ht0.
    reflexivity.
Qed.

Lemma length_py_join_terms (ts : list text) :
  Nat.le (length ts) (length (py_join [32] (List.map fts_term ts))).
Proof.
  induction ts as [|t ts IH]; [simpl; lia|].
  destruct ts as [|t' ts]; simpl.
  - lia.
  - rewrite length_app. simpl in IH |- *. lia.
Qed.

Lemma fts5_phrases_join (ts : list text) (fuel : nat) :
  (forall t, t ∈ ts -> 0 ∉ t) ->
  (length ts <= fuel)%nat ->
  fts5_phrases_fuel fuel (py_join [32] (List.map fts_term ts)) =
    Some (List.map (fun t => (t, true)) ts).
Proof.
  revert fuel. induction ts as [|t ts IH]; intros fuel H0 Hf;
    (destruct fuel as [|fuel]; [try reflexivity; simpl in Hf; lia|]); [reflexivity|].
  assert (Ht : 0 ∉ t) by (apply H0; left).
  destruct ts as [|t' ts].
  - unfold fts_term. simpl. rewrite fts5_string_esc by exact Ht. reflexivity.
  - change (py_join [32] (List.map fts_term (t :: t' :: ts)))
      with (fts_term t ++ [32] ++ py_join [32] (List.map fts_term (t' :: ts))).
    unfold fts_term at 1. simpl. rewrite <- app_assoc. simpl. rewrite fts5_string_esc by exact Ht.
    simpl. rewrite IH; [reflexivity | | simpl in Hf |- *; lia].
    intros t0 Ht0. apply H0. right. exact Ht0.
Qed.

Lemma fts5_phrases_build (query : text) :
  0 ∉ query ->
  fts5_phrases (build_fts_query query) =
    Some (List.map (fun t => (t, true)) (py_split (py_strip query))).
Proof.
  intros H0. unfold fts5_phrases, build_fts_query.
  change (fun term : text => [34] ++ replace_char 34 [34; 34] term ++ [34; 42]) with fts_term.
  apply fts5_phrases_join; [| apply length_py_join_terms].
  intros t Ht Hin. apply H0. eapply py_split_strip_incl; eauto.
Qed.

Lemma fts5_string_closes (n : nat) (s t r : text) :
  (length s <= n)%nat ->
  fts5_string s = Some (t, r) -> fts5_open_string s true = fts5_open_string r false.
Proof.
  revert s t r. induction n as [| n IH]; intros s t r Hn.
  - destruct s; [discriminate | simpl in Hn; lia].
  - destruct s as [| c s]; [discriminate |]. simpl in Hn |- *.
    destruct (Z.eqb c 0); [discriminate |].
    destruct (Z.eqb c 34).
    + destruct s as [| d s].
      * intros [= <- <-]. reflexivity.
      * destruct (Z.eqb_spec d 34) as [-> | Hd].
        -- destruct (fts5_string s) as [[t' r'] |] eqn:E; [| discriminate].
           simpl. intros [= <- <-]. apply (IH s t'); [simpl in Hn; lia | exact E].
        -- intros [= <- <-]. reflexivity.
    + destruct (fts5_string s) as [[t' r'] |] eqn:E; [| discriminate].
      simpl. intros [= <- <-]. apply (IH s t'); [lia | exact E].
Qed.

Lemma fts5_phrases_closed (fuel : nat) (s : text) l :
  fts5_phrases_fuel fuel s = Some l -> fts5_open_string s false = false.
Proof.
  revert s l. induction fuel as [| f IH]; intros s l.
  - destruct s as [| c s]; [reflexivity |]. simpl.
    destruct (Z.eqb c 0); [reflexivity | discriminate].
  - destruct s as [| c s]; [reflexivity |]. simpl.
    destruct (Z.eqb_spec c 0) as [-> | Hc0]; [reflexivity |].
    destruct (Z.eqb_spec c 34) as [-> | Hc34]; [| discriminate].
    destruct (fts5_string s) as [[t r] |] eqn:E; [| discriminate].
    rewrite (fts5_string_closes (length s) s t r) by (done || lia).
    assert (Htail : forall r1 pre,
      match r1 with
      | [] => Some [(t, pre)]
      | y :: r2 =>
          if Z.eqb y 0 then Some [(t, pre)]
          else if Z.eqb y 32 then cons (t, pre) <$> fts5_phrases_fuel f r2 else None
      end = Some l -> fts5_open_string r1 false = false).
    { intros [| y r2] pre; [reflexivity |]. simpl.
      destruct (Z.eqb_spec y 0) as [-> | Hy0]; [reflexivity |].
      destruct (Z.eqb_spec y 32) as [-> | Hy32]; [| discriminate].
      destruct (fts5_phrases_fuel f r2) eqn:E2; [| discriminate]. intros _. simpl.
      exact (IH _ _ E2). }
    destruct r as [| x r']; [apply (Htail [] false) |].
    destruct (Z.eqb_spec x 42) as [-> | Hx].
    + intros H. simpl. apply (Htail r' true H).
    + apply (Htail (x :: r') false).
Qed.

(** The MATCH string of a query with a term and no NUL is a non-empty
    expression with every string closed. *)
Lemma build_fts_query_parses (query : text) :
  py_split (py_strip query) <> [] -> 0 ∉ query ->
  c_str (build_fts_query query) <> [] /\ fts5_open_string (build_fts_query query) false = false.
Proof.
  intros Hq H0. split.
  - unfold build_fts_query. destruct (py_split (py_strip query)) as [| t ts]; [done |].
    destruct ts; simpl; discriminate.
  - destruct (fts5_phrases (build_fts_query query)) as [l |] eqn:E.
    + exact (fts5_phrases_closed _ _ _ E).
    + rewrite fts5_phrases_build in E by exact H0. discriminate.
Qed.

Ltac page_cases :=
  repeat match goal with
  | |- context [@fts_page ?R ?I ?f ?it ?q ?o ?t] =>
      let H := fresh "Hp" in
      assert (H : page_ok o (@fts_page R I f it q o t)) by (apply fts_page_ok; assumption);
      destruct (@fts_page R I f it q o t) as [?|[??]]; [contradiction H|destruct H]
  | |- context [@like_page ?R ?it ?c ?p ?o ?t] =>
      let H := fresh "Hp" in
      assert (H : page_ok o (@like_page R it c p o t)) by (apply like_page_ok; assumption);
      destruct (@like_page R it c p o t) as [?|[??]]; [contradiction H|destruct H]
  | |- context [if bool_decide ?P then _ else _] => case_bool_decide
  end; simpl.

Ltac finish_page :=
  repeat split; try lia; intros Hn;
  repeat match goal with
  | H : ?z <= _ -> ?l = [] |- _ => assert (l = []) by (apply H; lia); clear H; subst l
  end; reflexivity.

(** C8 (corrected).  Whenever [search] can run its queries, it returns
    without raising and without changing the database, echoes the page,
    reports [pages = max(1, ceil(total / 50))] with a non-negative
    total, and returns no results when [page * 50] is at least the
    total.  It can run them when: the query has no lone surrogate (it is
    bound as UTF-8 text); in fts mode the query has a
    whitespace-separated term and no NUL (FTS5 reads the MATCH string up
    to a NUL, which leaves a quoted term unterminated); in any other
    mode the LIKE pattern is at most 50000 bytes long in UTF-8; and the
    offset [page * 50] fits in a signed 64-bit integer.  Outside these
    conditions it can raise (see [search_beyond_end_raises]). *)
Theorem search_past_last_page fts5_match (query search_type mode : text) (pg : Z) (s : store) :
  (forall c, c ∈ query -> is_surrogate c = false) ->
  mode <> cps "fts" \/ (py_split (py_strip query) <> [] /\ 0 ∉ query) ->
  mode = cps "fts" \/ utf8_length (build_like_pattern query) <= like_pattern_limit ->
  - 2 ^ 63 <= pg * RESULTS_PER_PAGE <= 2 ^ 63 - 1 ->
  match search fts5_match query search_type mode pg s with
  | (s', inr res) =>
      s' = s /\ page res = pg /\ pages res = total_pages (total res) /\ 0 <= total res /\
      (total res <= pg * RESULTS_PER_PAGE -> results res = [])
  | (_, inl _) => False
  end.
Proof.
  intros Hs Hq Hl Hoff.
  pose proof (build_fts_query_no_surrogate query Hs) as Hsf.
  pose proof (build_like_pattern_no_surrogate query Hs) as Hsl.
  unfold search. case_bool_decide as Hlk.
  - unfold search_links. cbv zeta. destruct (link_metadata s) as [t |].
    + case_bool_decide as Hm.
      * destruct Hq as [Hq | [Hq H0]]; [contradiction |].
        destruct (build_fts_query_parses query Hq H0) as [Hq1 Hq2].
        destruct (lindex t) as [ix |].
        -- rewrite bind_text_ok by done. rewrite bind_int_ok by done. cbv beta iota.
           destruct (fts_query_ids_ok fts5_match _ ix Hq1 Hq2) as [ids ->]. simpl.
           repeat split; try lia. intros Hn. rewrite limit_offset_past_end; [done|].
           pose proof (length_omap_le (fun k => pair k <$> lrows t !! k) (rev (merge_sort Z.le ids))).
           rewrite length_rev, (Permutation_length (merge_sort_Permutation _ _)) in H. lia.
        -- simpl. repeat split; lia.
      * destruct Hl as [Hl | Hl]; [contradiction |].
        rewrite bind_text_ok by done. rewrite bind_int_ok by done. cbv beta iota.
        rewrite (proj2 (Z.ltb_ge _ _) Hl), andb_false_r. simpl. repeat split; try lia.
        intros Hn. rewrite limit_offset_past_end; [done|]. lia.
    + simpl. repeat split; lia.
  - unfold search_content. cbv zeta. case_bool_decide as Hm.
    + destruct Hq as [Hq | [Hq H0]]; [contradiction |].
      destruct (build_fts_query_parses query Hq H0) as [Hq1 Hq2].
      page_cases; finish_page.
    + destruct Hl as [Hl | Hl]; [contradiction |].
      page_cases; finish_page.
Qed.

Lemma search_past_last_page_witness :
  (forall c, c ∈ cps "cat" -> is_surrogate c = false) /\
  (cps "like" <> cps "fts" \/ (py_split (py_strip (cps "cat")) <> [] /\ 0 ∉ cps "cat")) /\
  (cps "like" = cps "fts" \/ utf8_length (build_like_pattern (cps "cat")) <= like_pattern_limit) /\
  - 2 ^ 63 <= 1 * RESULTS_PER_PAGE <= 2 ^ 63 - 1 /\
  search (fun _ _ => true) (cps "cat") (cps "all") (cps "like") 1 cat_store =
    (cat_store, inr (mk_search_result [] 2 1 1 None)) /\
  match search (fun _ _ => true) (cps "cat") (cps "all") (cps "like") 1 cat_store with
  | (s', inr res) =>
      s' = cat_store /\ page res = 1 /\ pages res = total_pages (total res) /\ 0 <= total res /\
      (total res <= 1 * RESULTS_PER_PAGE -> results res = [])
  | (_, inl _) => False
  end.
Proof.
  assert (Hs : forall c, c ∈ cps "cat" -> is_surrogate c = false).
  { change (cps "cat") with [99; 97; 116]. intros c Hc.
    repeat (apply elem_of_cons in Hc as [-> | Hc]; [reflexivity |]). inversion Hc. }
  assert (Hq : cps "like" <> cps "fts" \/ (py_split (py_strip (cps "cat")) <> [] /\ 0 ∉ cps "cat")).
  { left; discriminate. }
  assert (Hl : cps "like" = cps "fts" \/
               utf8_length (build_like_pattern (cps "cat")) <= like_pattern_limit).
  { right; vm_compute; discriminate. }
  assert (Hoff : - 2 ^ 63 <= 1 * RESULTS_PER_PAGE <= 2 ^ 63 - 1).
  { unfold RESULTS_PER_PAGE; lia. }
  split; [exact Hs |]. split; [exact Hq |]. split; [exact Hl |]. split; [exact Hoff |].
  split; [vm_compute; reflexivity |].
  exact (search_past_last_page (fun _ _ => true) (cps "cat") (cps "all") (cps "like") 1 cat_store
           Hs Hq Hl Hoff).
Defined.

(** C8 counterexample.  [search] raises in cases where [page * 50] is at
    least the match count: a blank query in fts mode (the empty MATCH
    string is an fts5 syntax error); page 10^18, whose offset does not
    fit in a SQLite INTEGER; a query with a NUL in fts mode, even on an
    empty database ([unterminated string]); a LIKE pattern of more than
    50000 bytes on a non-empty table; and a query with a lone
    surrogate, which cannot be bound. *)
Lemma search_beyond_end_raises :
  search (fun _ _ => true) (cps "  ") (cps "plurks") (cps "fts") 0 create_schema_fresh =
    (create_schema_fresh, inl fts5_syntax_error) /\
  search (fun _ _ => true) (cps "cat") (cps "all") (cps "like") (10 ^ 18) cat_store =
    (cat_store, inl (OverflowError "Python int too large to convert to SQLite INTEGER")) /\
  search (fun _ _ => true) (cps "a" ++ [0]) (cps "plurks") (cps "fts") 0 create_schema_fresh =
    (create_schema_fresh, inl (OperationalError "unterminated string")) /\
  search (fun _ _ => true) (repeat 128512 12500) (cps "plurks") (cps "like") 0 cat_store =
    (cat_store, inl like_too_complex) /\
  search (fun _ _ => true) [55296] (cps "plurks") (cps "like") 0 create_schema_fresh =
    (create_schema_fresh, inl (UnicodeEncodeError 1)).
Proof. repeat (apply conj; [vm_compute; reflexivity |]). vm_compute; reflexivity. Qed.

Lemma length_limit_offset {A} (off : Z) (l : list A) :
  (length (limit_offset RESULTS_PER_PAGE off l) <= 50)%nat.
Proof. unfold limit_offset. rewrite length_take. apply Nat.le_min_l. Qed.

Lemma fts_page_length {R} `{Indexed R} fts5_match (item : Z -> R -> search_item) q off
    (t : content_table R) l n :
  fts_page fts5_match item q off t = inr (l, n) -> (length l <= 50)%nat.
Proof.
  unfold fts_page. destruct (bind_text q) as [|q']; [discriminate|].
  destruct (bind_int off); [discriminate|].
  destruct (fts_query_ids fts5_match q' (index t)); [discriminate|].
  intros [= <- _]. apply length_limit_offset.
Qed.

Lemma like_page_length {R} (item : Z -> R -> search_item) content pat off (t : gmap Z R) l n :
  like_page item content pat off t = inr (l, n) -> (length l <= 50)%nat.
Proof.
  unfold like_page. destruct (bind_text pat) as [|pat']; [discriminate|].
  destruct (bind_int off); [discriminate|].
  destruct (bool_decide _ && _); [discriminate|].
  intros [= <- _]. apply length_limit_offset.
Qed.

Lemma length_py_sort_posted_desc (l : list search_item) :
  length (py_sort_posted_desc l) = length l.
Proof. unfold py_sort_posted_desc. apply Permutation_length, merge_sort_Permutation. Qed.

(** C10.  With scope all, [search] runs the page query (LIMIT 50) of the
    posts and that of the replies separately, then sorts their
    concatenation: a page holds at most 50 posts and at most 50 replies,
    up to 100 results, while [total] is the sum of both counts and
    [pages = max(1, ceil(total / 50))].  On 60 matching posts and 60
    matching replies page 0 has 100 results and pages is 3. *)
Theorem search_all_two_limits fts5_match (query mode : text) (pg : Z) (s : store) :
  (match search fts5_match query (cps "all") mode pg s with
   | (s', inr res) =>
       s' = s /\
       exists lp np lr nr,
         plurk_page fts5_match query mode (pg * RESULTS_PER_PAGE) s = inr (lp, np) /\
         response_page fts5_match query mode (pg * RESULTS_PER_PAGE) s = inr (lr, nr) /\
         (length lp <= 50)%nat /\ (length lr <= 50)%nat /\
         results res = py_sort_posted_desc (lp ++ lr) /\
         (length (results res) <= 100)%nat /\
         total res = np + nr /\ pages res = total_pages (total res)
   | (s', inl e) =>
       s' = s /\
       (plurk_page fts5_match query mode (pg * RESULTS_PER_PAGE) s = inl e \/
        response_page fts5_match query mode (pg * RESULTS_PER_PAGE) s = inl e)
   end) /\
  (let r := (search fts5_match (cps "a") (cps "all") (cps "like") 0 sixty_each_store).2 in
   match r with
   | inr res => length (results res) = 100%nat /\ total res = 120 /\ pages res = 3
   | inl _ => False
   end).
Proof.
  split; [|vm_compute; auto].
  unfold search. rewrite bool_decide_false by discriminate.
  unfold search_content, plurk_page, response_page. cbv zeta.
  rewrite (bool_decide_true (cps "all" ∈ [cps "all"; cps "plurks"])) by constructor.
  rewrite (bool_decide_true (cps "all" ∈ [cps "all"; cps "responses"])) by constructor.
  case_bool_decide as Hm.
  - destruct (fts_page fts5_match PlurkItem (build_fts_query query) (pg * RESULTS_PER_PAGE) (plurks s))
      as [e|[lp np]] eqn:Ep; [auto|].
    destruct (fts_page fts5_match ResponseItem (build_fts_query query) (pg * RESULTS_PER_PAGE)
                (responses s)) as [e|[lr nr]] eqn:Er; [auto|].
    split; [done|]. exists lp, np, lr, nr.
    apply fts_page_length in Ep, Er. simpl.
    rewrite length_py_sort_posted_desc, length_app. repeat split; auto; lia.
  - destruct (like_page PlurkItem Plurks.content_raw (build_like_pattern query) (pg * RESULTS_PER_PAGE)
                (rows (plurks s))) as [e|[lp np]] eqn:Ep; [auto|].
    destruct (like_page ResponseItem Responses.content_raw (build_like_pattern query)
                (pg * RESULTS_PER_PAGE) (rows (responses s))) as [e|[lr nr]] eqn:Er; [auto|].
    split; [done|]. exists lp, np, lr, nr.
    apply like_page_length in Ep, Er. simpl.
    rewrite length_py_sort_posted_desc, length_app. repeat split; auto; lia.
Qed.

(** ** Archive file parsing: the text around the payload *)

Lemma find_sub_cons (sub : text) x s :
  find_sub sub (x :: s) = if word_at (x :: s) 0 sub then Some 0%nat else S <$> find_sub sub s.
Proof. reflexivity. Qed.

Lemma find_sub_nil (sub : text) : find_sub sub [] = if word_at [] 0 sub then Some 0%nat else None.
Proof. reflexivity. Qed.

Lemma find_sub_skip (sub a b : text) :
  (forall k, (k < length a)%nat -> word_at (a ++ b) k sub = false) ->
  find_sub sub (a ++ b) = Nat.add (length a) <$> find_sub sub b.
Proof.
  induction a as [|x a IH]; intros H.
  - simpl. by destruct (find_sub sub b).
  - assert (H0 : word_at (x :: a ++ b) 0 sub = false) by (apply (H 0%nat); simpl; lia).
    rewrite <- app_comm_cons, find_sub_cons, H0.
    rewrite IH; [by destruct (find_sub sub b)|].
    intros k Hk. rewrite <- (H (S k)) by (simpl; lia). reflexivity.
Qed.

Lemma find_sub_none (sub a : text) : find_sub sub a = None -> forall k, word_at a k sub = false.
Proof.
  induction a as [|x a IH]; intros H k.
  - rewrite find_sub_nil in H. destruct (word_at [] 0 sub) eqn:E; [discriminate|].
    unfold word_at in *. by rewrite drop_nil.
  - rewrite find_sub_cons in H. destruct (word_at (x :: a) 0 sub) eqn:E; [discriminate|].
    destruct (find_sub sub a) eqn:E2; [discriminate|].
    destruct k as [|k]; [done|]. apply (IH eq_refl k).
Qed.

Lemma word_at_app_l (sub a b : text) k :
  (k + length sub <= length a)%nat -> word_at (a ++ b) k sub = word_at a k sub.
Proof.
  intros Hk. unfold word_at. rewrite drop_app_le by lia.
  rewrite take_app_le; [done|]. rewrite length_drop. lia.
Qed.

Lemma word_at_snoc_boundary (sub a b : text) x :
  word_at ((a ++ [x]) ++ b) (length a) sub = bool_decide (take (length sub) (x :: b) = sub).
Proof. unfold word_at. by rewrite <- app_assoc, drop_app_length. Qed.

(** A two-letter word found neither in [a ++ [x]] nor across its end. *)
Lemma find_sub_app_none (sub a b : text) x :
  length sub = 2%nat -> find_sub sub (a ++ [x]) = None ->
  take 2 (x :: b) <> sub ->
  forall k, (k < length (a ++ [x]))%nat -> word_at ((a ++ [x]) ++ b) k sub = false.
Proof.
  intros Hl Hn Hb k Hk. rewrite length_app in Hk; simpl in Hk.
  destruct (decide (k = length a)) as [->|Hne].
  - rewrite word_at_snoc_boundary, Hl. by apply bool_decide_eq_false.
  - rewrite word_at_app_l by (rewrite length_app; simpl; lia). by apply find_sub_none.
Qed.

Lemma find_sub_label (p key rest : text) :
  find_sub (cps "]=") (p ++ [34]) = None -> find_sub (cps "]=") key = None ->
  find_sub (cps "]=") ((p ++ [34]) ++ key ++ [34; 93; 61] ++ rest) =
    Some (length (p ++ [34%Z]) + length key + 1)%nat.
Proof.
  intros Hp Hk.
  assert (Hk' : find_sub (cps "]=") (key ++ [34]) = None).
  { destruct key as [|c key'] using rev_ind; [reflexivity|].
    rewrite find_sub_skip; [reflexivity|].
    apply find_sub_app_none; [reflexivity|done|]. intros Heq; vm_compute in Heq; congruence. }
  assert (Ha : find_sub (cps "]=") ((p ++ [34]) ++ key ++ [34]) = None).
  { rewrite find_sub_skip, Hk'; [reflexivity|].
    apply find_sub_app_none; [reflexivity|done|].
    destruct key; intros Heq; vm_compute in Heq; congruence. }
  replace ((p ++ [34]) ++ key ++ [34; 93; 61] ++ rest)
    with (((p ++ [34]) ++ key ++ [34]) ++ [93; 61] ++ rest)
    by (rewrite <- !app_assoc; reflexivity).
  rewrite find_sub_skip.
  - change ([93; 61] ++ rest) with (93 :: 61 :: rest). rewrite find_sub_cons.
    unfold word_at. rewrite drop_0, bool_decide_true by reflexivity. simpl.
    rewrite !length_app. simpl. f_equal. lia.
  - replace ((p ++ [34]) ++ key ++ [34]) with (((p ++ [34]) ++ key) ++ [34])
      by (rewrite <- !app_assoc; reflexivity).
    apply find_sub_app_none; [reflexivity| |intros Heq; vm_compute in Heq; congruence].
    by rewrite <- app_assoc.
Qed.

Lemma rfind_char_app_none c (a b : text) :
  rfind_char c b = None -> rfind_char c (a ++ b) = rfind_char c a.
Proof. intros Hb. induction a as [|x a IH]; simpl; [done|]. by rewrite IH. Qed.

Lemma rfind_char_app_some c (a b : text) r :
  rfind_char c b = Some r -> rfind_char c (a ++ b) = Some (length a + r)%nat.
Proof. intros Hb. induction a as [|x a IH]; simpl; [done|]. by rewrite IH. Qed.

Lemma rfind_char_not_in c (l : text) : c ∉ l -> rfind_char c l = None.
Proof.
  induction l as [|x l IH]; intros Hc; simpl; [done|].
  rewrite IH by (intros Hin; apply Hc; by right).
  destruct (Z.eqb_spec x c) as [->|]; [|done]. exfalso. apply Hc. left.
Qed.

Lemma rfind_char_lookup c (l : text) r : rfind_char c l = Some r -> l !! r = Some c.
Proof.
  revert r. induction l as [|x l IH]; intros r H; simpl in H; [discriminate|].
  destruct (rfind_char c l) as [j|] eqn:E.
  - injection H as <-. simpl. by apply IH.
  - destruct (Z.eqb_spec x c) as [->|]; [|discriminate]. by injection H as <-.
Qed.

Lemma take_while_app (p : Z -> bool) (a b : text) y :
  Forall (fun c => p c = true) a -> p y = false -> take_while p (a ++ y :: b) = a.
Proof.
  intros Ha Hy. induction Ha as [|c a Hc Ha IH]; simpl; [by rewrite Hy|]. by rewrite Hc, IH.
Qed.

Lemma take_while_Forall (p : Z -> bool) (u : text) : Forall (fun c => p c = true) (take_while p u).
Proof.
  induction u as [|c u IH]; simpl; [constructor|].
  destruct (p c) eqn:Hc; [by constructor|constructor].
Qed.

Lemma take_while_prefix (p : Z -> bool) (u : text) : take (length (take_while p u)) u = take_while p u.
Proof. induction u as [|c u IH]; simpl; [done|]. destruct (p c); simpl; [by rewrite IH|done]. Qed.

Lemma match_label_app (prefix key rest : text) :
  key <> [] -> 34 ∉ key -> match_label prefix (prefix ++ key ++ 34 :: 93 :: rest) = Some key.
Proof.
  intros Hne Hq. unfold match_label.
  assert (Hw : word_at (prefix ++ key ++ 34 :: 93 :: rest) 0 prefix = true).
  { unfold word_at. rewrite drop_0, take_app_length. by apply bool_decide_eq_true. }
  rewrite Hw, drop_app_length.
  assert (Ht : take_while (fun c => negb (c =? 34)) (key ++ 34 :: 93 :: rest) = key).
  { apply take_while_app; [|reflexivity].
    apply Forall_forall. intros c Hc. apply negb_true_iff, Z.eqb_neq. intros ->. by apply Hq. }
  rewrite Ht, bool_decide_true by done. unfold word_at. by rewrite drop_app_length.
Qed.

Lemma match_label_some (prefix content key : text) :
  match_label prefix content = Some key ->
  key <> [] /\ (34 ∉ key) /\ exists rest, content = prefix ++ key ++ 34 :: 93 :: rest.
Proof.
  unfold match_label. destruct (word_at content 0 prefix) eqn:Hw; [|discriminate].
  set (rest0 := drop (length prefix) content).
  set (k := take_while (fun c => negb (c =? 34)) rest0).
  destruct (bool_decide (k <> [])) eqn:Hk; [|discriminate].
  destruct (word_at rest0 (length k) [34; 93]) eqn:Hq; [|discriminate]. simpl.
  intros [= <-]. apply bool_decide_eq_true in Hk, Hw, Hq. rewrite drop_0 in Hw.
  split; [done|]. split.
  - intros Hin. pose proof (take_while_Forall (fun c => negb (c =? 34)) rest0) as HF.
    rewrite Forall_forall in HF. specialize (HF 34 Hin). simpl in HF. discriminate.
  - exists (drop 2 (drop (length k) rest0)).
    rewrite <- (take_drop (length prefix) content), Hw. f_equal. fold rest0.
    rewrite <- (take_drop (length k) rest0) at 1.
    replace (take (length k) rest0) with k by (unfold k; by rewrite take_while_prefix). f_equal.
    rewrite <- (take_drop 2 (drop (length k) rest0)) at 1. simpl in Hq. by rewrite Hq.
Qed.

(** ** Archive file parsing: what a successful scan ends with *)

Ltac destruct_conds H :=
  repeat match type of H with
  | context [if ?b then _ else _] => let E := fresh "E" in destruct b eqn:E; simpl in H
  | context [match ?x with inl _ => _ | inr _ => _ end] =>
      let E := fresh "E" in
      first [destruct x as [?|[??]] eqn:E | destruct x as [?|?] eqn:E]; simpl in H
  | context [match ?x with O => _ | S _ => _ end] =>
      let E := fresh "E" in destruct x eqn:E; simpl in H
  | context [match ?x with Some _ => _ | None => _ end] =>
      let E := fresh "E" in destruct x eqn:E; simpl in H
  end; try discriminate H.

Lemma scanstring_loop_end fuel s b e chunks t n :
  scanstring_loop fuel s b e chunks = inr (t, n) -> char_at s (n - 1) = 34.
Proof.
  revert e chunks. induction fuel as [|fuel IH]; intros e chunks H; simpl in H; [discriminate|].
  destruct_conds H; try (eapply IH; exact H).
  injection H as _ <-.
  match goal with Hc : (char_at s ?x =? 34) = true |- _ => apply Z.eqb_eq in Hc; rewrite <- Hc end.
  f_equal. lia.
Qed.

Lemma parse_object_items_end fuel depth s i acc v n :
  parse_object_items fuel depth s i acc = inr (v, n) -> char_at s (n - 1) = 125.
Proof.
  revert i acc. induction fuel as [|fuel IH]; intros i acc H; simpl in H; [discriminate|].
  destruct_conds H; try (eapply IH; exact H).
  injection H as _ <-.
  match goal with Hc : _ && (char_at s ?x =? 125) = true |- _ =>
    apply andb_true_iff in Hc as [_ Hc]; apply Z.eqb_eq in Hc; rewrite <- Hc end.
  f_equal. lia.
Qed.

Lemma parse_array_items_list fuel depth s i acc v n :
  parse_array_items fuel depth s i acc = inr (v, n) -> exists l, v = JList l.
Proof.
  revert i acc. induction fuel as [|fuel IH]; intros i acc H; simpl in H; [discriminate|].
  destruct_conds H; try (eapply IH; exact H).
  injection H as <- _. eauto.
Qed.

Lemma take_while_lookup (p : Z -> bool) (l : text) m c :
  take_while p l !! m = Some c -> l !! m = Some c /\ p c = true.
Proof.
  revert m. induction l as [|x l IH]; intros m H; simpl in H; [discriminate|].
  destruct (p x) eqn:Hx; [|discriminate]. destruct m as [|m]; simpl in H.
  - injection H as <-. done.
  - by apply IH.
Qed.

Lemma skip_digits_last s k :
  (0 < k)%nat -> is_digit (char_at s (k - 1)) = true ->
  is_digit (char_at s (skip_digits s k - 1)) = true.
Proof.
  intros Hk Hd. unfold skip_digits.
  destruct (length (take_while is_digit (drop k s))) as [|m] eqn:L.
  - by rewrite Nat.add_0_r.
  - destruct (lookup_lt_is_Some_2 (take_while is_digit (drop k s)) m) as [c Hc]; [lia|].
    apply take_while_lookup in Hc as [Hc Hdc]. rewrite lookup_drop in Hc.
    unfold char_at. replace (k + S m - 1)%nat with (k + m)%nat by lia. by rewrite Hc.
Qed.

Lemma in_range_digit c : in_range 49 57 c = true -> is_digit c = true.
Proof. unfold is_digit, in_range. rewrite !andb_true_iff, !Z.leb_le. lia. Qed.

Lemma match_number_end s i v n :
  match_number s i = inr (v, n) -> is_digit (char_at s (n - 1)) = true.
Proof.
  intros H. unfold match_number in H. destruct_conds H.
  all: try (injection H as _ <-).
  all: repeat match goal with Hc : _ && _ = true |- _ => apply andb_true_iff in Hc as [??] end.
  all: try assumption.
  all: try (apply skip_digits_last; [lia|]).
  all: try rewrite Nat.add_sub.
  all: try (apply in_range_digit; assumption).
  all: try match goal with |- context [(?x + 2 - 1)%nat] =>
         replace (x + 2 - 1)%nat with (x + 1)%nat by lia end.
  all: try assumption.
  all: match goal with Hc : (char_at ?t ?x =? 48) = true |- is_digit (char_at ?t ?x) = true =>
         apply Z.eqb_eq in Hc; by rewrite Hc end.
Qed.

Lemma word_at_char s idx w k :
  word_at s idx w = true -> (k < length w)%nat -> char_at s (idx + k) = default (-1) (w !! k).
Proof.
  unfold word_at. intros H Hk. apply bool_decide_eq_true in H.
  unfold char_at. rewrite <- H, lookup_take_lt, lookup_drop by lia. done.
Qed.

Lemma scan_once_end fuel depth s i v n :
  scan_once fuel depth s i = inr (v, n) -> char_at s (n - 1) = 93 -> exists l, v = JList l.
Proof.
  intros H Hc. destruct fuel as [|fuel]; simpl in H; [discriminate|].
  destruct_conds H.
  all: repeat match goal with Hb : _ && _ = true |- _ => apply andb_true_iff in Hb as [??] end.
  all: try (by eapply parse_array_items_list).
  all: try (apply parse_object_items_end in H; congruence).
  all: try (apply match_number_end in H; rewrite Hc in H; discriminate).
  all: injection H as <- <-.
  all: try match goal with Hw : word_at ?t ?j ?w = true |- _ =>
         let m := eval vm_compute in (pred (length w)) in
         pose proof (word_at_char t j w m Hw ltac:(vm_compute; lia)) as Hm;
         replace (j + S m - 1)%nat with (j + m)%nat in Hc by lia;
         rewrite Hc in Hm; vm_compute in Hm; discriminate end.
  all: try (eexists; reflexivity).
  - match goal with E : scanstring _ _ = inr _ |- _ =>
      unfold scanstring in E; apply scanstring_loop_end in E end. congruence.
  - rewrite Nat.add_sub in Hc.
    match goal with Hb : (char_at _ _ =? 125) = true |- _ => apply Z.eqb_eq in Hb end. congruence.
Qed.

Lemma skip_ws_all s e :
  skip_ws s e = length s -> (e < length s)%nat -> Forall (fun c => is_json_ws c = true) (drop e s).
Proof.
  unfold skip_ws. intros H Hlt.
  pose proof (take_while_prefix is_json_ws (drop e s)) as Hp.
  pose proof (take_while_Forall is_json_ws (drop e s)) as Hf.
  assert (Hlen : length (take_while is_json_ws (drop e s)) = length (drop e s))
    by (rewrite length_drop; lia).
  rewrite Hlen, take_ge in Hp by lia. by rewrite Hp.
Qed.

Lemma json_loads_list d s v :
  last s = Some 93 -> json_loads d s = inr v -> exists l, v = JList l.
Proof.
  intros Hl H. unfold json_loads in H.
  destruct (word_at s 0 [65279]); [discriminate|].
  destruct (scan_once (json_fuel s) d s (skip_ws s 0)) as [ex|[obj e]] eqn:Hs;
    [destruct ex; discriminate|].
  destruct (Nat.eqb (skip_ws s e) (length s)) eqn:He; [|discriminate].
  injection H as <-. apply Nat.eqb_eq in He.
  rewrite last_lookup in Hl.
  assert (Hpos : (pred (length s) < length s)%nat) by (apply lookup_lt_Some in Hl; lia).
  destruct (decide (e < length s)%nat) as [Hlt|Hge].
  - pose proof (skip_ws_all s e He Hlt) as Hf.
    assert (Hd : drop e s !! (pred (length s) - e)%nat = Some 93).
    { rewrite lookup_drop. by replace (e + (pred (length s) - e))%nat with (pred (length s)) by lia. }
    pose proof (Forall_lookup_1 _ _ _ _ Hf Hd) as Hw. vm_compute in Hw. discriminate.
  - assert (He' : e = length s).
    { unfold skip_ws in He. rewrite drop_ge in He by lia. simpl in He. lia. }
    apply (scan_once_end _ _ _ _ _ _ Hs). unfold char_at.
    replace (e - 1)%nat with (pred (length s)) by lia. by rewrite Hl.
Qed.

Lemma parse_backup_js_frame (p : text) msg d key j tail :
  find_sub (cps "]=") (p ++ [34]) = None -> key <> [] -> 34 ∉ key ->
  find_sub (cps "]=") key = None -> last j = Some 93 -> 93 ∉ tail ->
  parse_backup_js (p ++ [34]) msg d ((p ++ [34]) ++ key ++ [34; 93; 61] ++ j ++ tail) =
    (let? v := json_loads d j in inr (key, v)).
Proof.
  intros Hp Hne Hq Hk Hl Ht. apply last_Some in Hl as [j' ->].
  unfold parse_backup_js.
  assert (Hc0 : (p ++ [34]) ++ key ++ [34; 93; 61] ++ (j' ++ [93]) ++ tail
                = (p ++ [34]) ++ key ++ 34 :: 93 :: (61 :: (j' ++ [93]) ++ tail)) by reflexivity.
  rewrite Hc0, match_label_app by done. rewrite <- Hc0.
  rewrite find_sub_label by done.
  set (A := (p ++ [34]) ++ key ++ [34; 93; 61] ++ j').
  assert (Hc : (p ++ [34]) ++ key ++ [34; 93; 61] ++ (j' ++ [93]) ++ tail = A ++ [93] ++ tail)
    by (unfold A; rewrite <- !app_assoc; reflexivity).
  rewrite Hc.
  rewrite (rfind_char_app_some _ _ _ 0%nat)
    by (simpl; rewrite rfind_char_not_in by done; reflexivity).
  match goal with |- context [slice ?c ?a ?b] => assert (Hs : slice c a b = j' ++ [93]) end.
  { unfold slice, A.
    replace (((p ++ [34]) ++ key ++ [34; 93; 61] ++ j') ++ [93] ++ tail)
      with (((p ++ [34]) ++ key ++ [34; 93; 61]) ++ (j' ++ [93]) ++ tail)
      by (rewrite <- !app_assoc; reflexivity).
    rewrite drop_app_length' by (rewrite !length_app; simpl; lia).
    rewrite take_app_length' by (rewrite !length_app; simpl; lia). done. }
  by rewrite Hs.
Qed.

Lemma parse_backup_js_success prefix msg d content key v :
  parse_backup_js prefix msg d content = inr (key, v) ->
  (exists l, v = JList l) /\ key <> [] /\ (34 ∉ key) /\
  exists rest, content = prefix ++ key ++ 34 :: 93 :: rest.
Proof.
  intros H. unfold parse_backup_js in H.
  destruct (match_label prefix content) as [k|] eqn:Hm; [|discriminate].
  destruct (find_sub (cps "]=") content) as [e|] eqn:He; [|discriminate].
  destruct (rfind_char 93 content) as [r|] eqn:Hr; [|discriminate].
  destruct (json_loads d (slice content (e + 2) (r + 1))) as [ex|w] eqn:Hj; simpl in H;
    [discriminate|].
  injection H as <- <-. apply match_label_some in Hm. split; [|exact Hm].
  apply rfind_char_lookup in Hr. pose proof (lookup_lt_Some _ _ _ Hr) as Hrl.
  destruct (decide (e + 2 <= r)%nat) as [Hle|Hgt].
  - eapply json_loads_list; [|exact Hj]. rewrite last_lookup. unfold slice.
    rewrite length_take, length_drop.
    match goal with |- (take _ _ !! ?i) = _ => replace i with (r - (e + 2))%nat by lia end.
    rewrite lookup_take_lt, lookup_drop by lia.
    by replace (e + 2 + (r - (e + 2)))%nat with r by lia.
  - unfold slice in Hj. replace (r + 1 - (e + 2))%nat with 0%nat in Hj by lia.
    rewrite take_0 in Hj. unfold json_loads in Hj. simpl in Hj. discriminate.
Qed.

Lemma scanstring_loop_err fuel s b e chunks ex :
  scanstring_loop fuel s b e chunks = inl ex -> archive_parse_error ex = true.
Proof.
  revert e chunks. induction fuel as [|fuel IH]; intros e chunks H; simpl in H;
    [by injection H as <-|].
  destruct_conds H; try (by injection H as <-); eapply IH; exact H.
Qed.

Lemma py_long_from_string_err t ex :
  py_long_from_string t = inl ex -> archive_parse_error ex = true.
Proof.
  unfold py_long_from_string.
  match goal with |- context [match ?x with (_, _) => _ end] => destruct x as [sign ds] end.
  destruct (int_max_str_digits <? length ds)%nat; intros H; [by injection H as <-|discriminate].
Qed.

Lemma match_number_err s i ex : match_number s i = inl ex -> scan_error ex = true.
Proof.
  intros H. unfold match_number in H.
  destruct_conds H; try (by injection H as <-).
  all: injection H as <-.
  all: match goal with E : py_long_from_string _ = inl _ |- _ =>
         unfold scan_error; by rewrite (py_long_from_string_err _ _ E) end.
Qed.

Lemma scan_errors fuel :
  (forall d s i ex, scan_once fuel d s i = inl ex -> scan_error ex = true) /\
  (forall d s i acc ex, parse_array_items fuel d s i acc = inl ex -> scan_error ex = true) /\
  (forall d s i acc ex, parse_object_items fuel d s i acc = inl ex -> scan_error ex = true).
Proof.
  induction fuel as [|fuel (IH1 & IH2 & IH3)].
  { split; [|split]; intros *; simpl; intros H; by injection H as <-. }
  split; [|split]; intros *; simpl; intros H.
  all: destruct_conds H; try (by injection H as <-).
  all: try (by eapply IH2). all: try (by eapply IH3).
  all: try (by eapply match_number_err).
  all: injection H as <-.
  all: try (by eapply IH1).
  all: match goal with E : scanstring _ _ = inl _ |- _ =>
         unfold scanstring in E; unfold scan_error; by rewrite (scanstring_loop_err _ _ _ _ _ _ E) end.
Qed.

Lemma json_loads_err d s ex : json_loads d s = inl ex -> archive_parse_error ex = true.
Proof.
  unfold json_loads. intros H.
  destruct (word_at s 0 [65279]); [by injection H as <-|].
  destruct (scan_once (json_fuel s) d s (skip_ws s 0)) as [e|[obj n]] eqn:Hs.
  - pose proof (proj1 (scan_errors _) _ _ _ _ Hs) as He.
    destruct e; try (by injection H as <-); injection H as <-; exact He.
  - destruct (Nat.eqb (skip_ws s n) (length s)); [discriminate|by injection H as <-].
Qed.

Lemma parse_backup_js_err prefix msg d content ex :
  parse_backup_js prefix msg d content = inl ex -> archive_parse_error ex = true.
Proof.
  unfold parse_backup_js. intros H. destruct_conds H; try (by injection H as <-).
  injection H as <-. by eapply json_loads_err.
Qed.

Lemma word_at_split (s sub : text) k :
  word_at s k sub = true -> s = take k s ++ sub ++ drop (k + length sub) s.
Proof.
  unfold word_at. intros H%bool_decide_eq_true.
  rewrite <- (take_drop k s) at 1. f_equal.
  rewrite <- (take_drop (length sub) (drop k s)) at 1. by rewrite H, drop_drop.
Qed.

Lemma word_at_here (a sub b : text) : word_at (a ++ sub ++ b) (length a) sub = true.
Proof.
  unfold word_at. rewrite drop_app_length, take_app_length. by apply bool_decide_eq_true.
Qed.

Lemma find_sub_some (sub s : text) e :
  find_sub sub s = Some e ->
  word_at s e sub = true /\ forall k, (k < e)%nat -> word_at s k sub = false.
Proof.
  revert e. induction s as [|x s IH]; intros e H.
  - rewrite find_sub_nil in H. destruct (word_at [] 0 sub) eqn:E; [|discriminate].
    injection H as <-. split; [done|lia].
  - rewrite find_sub_cons in H. destruct (word_at (x :: s) 0 sub) eqn:E.
    + injection H as <-. split; [done|lia].
    + destruct (find_sub sub s) as [e'|] eqn:E2; [|discriminate]. simpl in H.
      injection H as <-. destruct (IH e' eq_refl) as [H1 H2]. split; [exact H1|].
      intros [|k] Hk; [done|]. exact (H2 k ltac:(lia)).
Qed.

Lemma find_sub_first (sub pre post : text) :
  (forall k, (k < length pre)%nat -> word_at (pre ++ sub ++ post) k sub = false) ->
  find_sub sub (pre ++ sub ++ post) = Some (length pre).
Proof.
  intros H. rewrite find_sub_skip by done.
  assert (Hw : word_at (sub ++ post) 0 sub = true) by exact (word_at_here [] sub post).
  destruct (sub ++ post) as [|y l];
    [rewrite find_sub_nil, Hw|rewrite find_sub_cons, Hw]; simpl; f_equal; lia.
Qed.

(** The first [\]=] of [pre ++ \]= ++ post] is the one after [pre]
    when [pre] holds none. *)
Lemma first_sep (pre post : text) :
  (forall a b, pre <> a ++ cps "]=" ++ b) ->
  find_sub (cps "]=") (pre ++ cps "]=" ++ post) = Some (length pre).
Proof.
  intros Hpre. apply find_sub_first. intros k Hk.
  destruct (decide (k + 2 <= length pre)%nat) as [Hle|Hgt].
  - rewrite word_at_app_l by (simpl; lia).
    destruct (word_at pre k (cps "]=")) eqn:E; [|done]. exfalso.
    apply word_at_split in E. exact (Hpre _ _ E).
  - assert (Hne : pre <> []) by (intros ->; simpl in Hk; lia).
    destruct (exists_last Hne) as (pre' & x & ->).
    rewrite length_app in Hk, Hgt; simpl in Hk, Hgt.
    replace k with (length pre') by lia.
    rewrite word_at_snoc_boundary. apply bool_decide_eq_false. simpl.
    intros Heq. inversion Heq.
Qed.

Lemma rfind_char_none c (l : text) : rfind_char c l = None -> c ∉ l.
Proof.
  induction l as [|x l IH]; simpl; [intros _; apply not_elem_of_nil|].
  destruct (rfind_char c l); [discriminate|].
  destruct (Z.eqb_spec x c); [discriminate|].
  intros _. rewrite elem_of_cons. intros [Hc|Hc]; [congruence|by apply IH].
Qed.

Lemma rfind_char_split c (l : text) r :
  rfind_char c l = Some r -> exists a b, l = a ++ c :: b /\ (c ∉ b) /\ r = length a.
Proof.
  revert r. induction l as [|x l IH]; intros r H; simpl in H; [discriminate|].
  destruct (rfind_char c l) as [j|] eqn:E.
  - injection H as <-. destruct (IH j eq_refl) as (a & b & -> & Hb & ->).
    exists (x :: a), b. done.
  - destruct (Z.eqb_spec x c) as [->|]; [|discriminate]. injection H as <-.
    exists [], l. split; [done|]. split; [by apply rfind_char_none|done].
Qed.

Lemma parse_backup_js_iff (p : text) msg d content k v :
  parse_backup_js p msg d content = inr (k, v) <-> archive_parts p d content k v.
Proof.
  split.
  - intros H. pose proof (parse_backup_js_success _ _ _ _ _ _ H) as (_ & Hne & Hq & Hl).
    split; [done|]. split; [done|]. split; [done|].
    unfold parse_backup_js in H.
    destruct (match_label p content) as [k'|] eqn:Hm; [|discriminate].
    destruct (find_sub (cps "]=") content) as [e|] eqn:He; [|discriminate].
    destruct (rfind_char 93 content) as [r|] eqn:Hr; [|discriminate].
    destruct (json_loads d (slice content (e + 2) (r + 1))) as [ex|w] eqn:Hj; simpl in H;
      [discriminate|].
    injection H as <- <-.
    apply find_sub_some in He as [He1 He2]. apply word_at_split in He1.
    change (length (cps "]=")) with 2%nat in He1.
    apply rfind_char_split in Hr as (a & b & Hab & Hb & ->).
    destruct (decide (e + 2 <= length a)%nat) as [Hle|Hgt].
    + assert (Hs : slice content (e + 2) (length a + 1) = drop (e + 2) a ++ [93]).
      { unfold slice. rewrite Hab, drop_app_le by lia. rewrite take_app, length_drop.
        rewrite take_ge by (rewrite length_drop; lia).
        by replace (length a + 1 - (e + 2) - (length a - (e + 2)))%nat with 1%nat by lia. }
      assert (Hd : drop (e + 2) content = drop (e + 2) a ++ 93 :: b)
        by (rewrite Hab, drop_app_le by lia; reflexivity).
      assert (Hlen : length (take e content) = e)
        by (rewrite length_take, Hab, length_app; simpl; lia).
      exists (take e content), (slice content (e + 2) (length a + 1)), b.
      split; [|split; [|split; [|split]]].
      * rewrite Hs. transitivity (take e content ++ cps "]=" ++ drop (e + 2) content); [exact He1|].
        rewrite Hd, <- app_assoc. reflexivity.
      * intros a' b' Heq.
        assert (Hlt : (length a' < e)%nat).
        { pose proof (f_equal length Heq) as HL. rewrite Hlen, !length_app in HL.
          simpl in HL. lia. }
        assert (Hw : word_at content (length a') (cps "]=") = true).
        { rewrite <- (take_drop e content), Heq, <- !app_assoc. apply word_at_here. }
        rewrite He2 in Hw by exact Hlt. discriminate.
      * rewrite Hs. apply last_snoc.
      * done.
      * done.
    + unfold slice in Hj. replace (length a + 1 - (e + 2))%nat with 0%nat in Hj by lia.
      rewrite take_0 in Hj. unfold json_loads in Hj. simpl in Hj. discriminate.
  - intros (Hne & Hq & [rest Hrest] & pre & j & tail & Hc & Hpre & Hl & Ht & Hj).
    unfold parse_backup_js.
    rewrite Hrest, match_label_app by done. rewrite <- Hrest. cbv beta iota zeta.
    rewrite Hc, first_sep by done. cbv beta iota zeta.
    apply last_Some in Hl as [j' ->].
    replace (pre ++ cps "]=" ++ (j' ++ [93]) ++ tail)
      with ((pre ++ cps "]=" ++ j') ++ [93] ++ tail) by (rewrite <- !app_assoc; reflexivity).
    rewrite (rfind_char_app_some _ _ _ 0%nat)
      by (simpl; rewrite rfind_char_not_in by done; reflexivity).
    cbv beta iota zeta.
    assert (Hs : slice ((pre ++ cps "]=" ++ j') ++ [93] ++ tail) (length pre + 2)
                   (length (pre ++ cps "]=" ++ j') + 0 + 1) = j' ++ [93]).
    { unfold slice.
      replace ((pre ++ cps "]=" ++ j') ++ [93] ++ tail)
        with ((pre ++ cps "]=") ++ (j' ++ [93]) ++ tail) by (rewrite <- !app_assoc; reflexivity).
      rewrite drop_app_length' by (rewrite length_app; simpl; lia).
      rewrite take_app_length' by (rewrite !length_app; simpl; lia). done. }
    rewrite Hs, Hj. reflexivity.
Qed.

(** C9 (corrected): [parse_plurk_file] and [parse_response_file] on the
    text of a file.  They return [(k, v)] exactly when the text is made
    of the parts the spec names: the label with the key [k] (non-empty,
    without double quote), the first [\]=] of the text, then a text [j]
    running to the last [']'] of the text, which [json.loads] reads as
    [v] ([archive_parts]).  The value returned is always a list.  Every
    other text raises a [ValueError] (a [json.JSONDecodeError] among
    them) or a [RecursionError]. *)
Theorem parse_archive_files d content k v :
  (parse_plurk_file d content = inr (k, v) <-> archive_parts plurk_label_prefix d content k v) /\
  (parse_response_file d content = inr (k, v) <->
     archive_parts response_label_prefix d content k v) /\
  (parse_plurk_file d content = inr (k, v) \/ parse_response_file d content = inr (k, v) ->
     exists l, v = JList l) /\
  (forall ex, parse_plurk_file d content = inl ex -> archive_parse_error ex = true) /\
  (forall ex, parse_response_file d content = inl ex -> archive_parse_error ex = true).
Proof.
  unfold parse_plurk_file, parse_response_file.
  split; [apply parse_backup_js_iff|]. split; [apply parse_backup_js_iff|]. split.
  - intros [H|H]; exact (proj1 (parse_backup_js_success _ _ _ _ _ _ H)).
  - split; intros ex H; exact (parse_backup_js_err _ _ _ _ _ H).
Qed.

(** C9, counterexample: files with the label, the [=] assignment and an
    array between them that the parser does not return as that array, and
    texts outside standard JSON that it accepts.  With 997 levels of
    recursion left: a key holding []=] and a [']'] after the array make
    well-formed files fail, [NaN] is accepted, an integer of 4301 digits
    raises [ValueError] and an array nested 998 deep [RecursionError]. *)
Lemma parse_archive_files_mismatch :
  json_loads 997 (cps "[1]") = inr (JList [JInt 1]) /\
  parse_plurk_file 997 (plurk_label_prefix ++ cps "a]=b" ++ [34; 93; 61] ++ cps "[1]") =
    inl (JSONDecodeError "Expecting value" 0) /\
  parse_plurk_file 997 (plurk_label_prefix ++ cps "x" ++ [34; 93; 61] ++ cps "[1]; // [c]") =
    inl (JSONDecodeError "Extra data" 3) /\
  parse_plurk_file 997 (plurk_label_prefix ++ cps "x" ++ [34; 93; 61] ++ cps "[NaN]") =
    inr (cps "x", JList [JConstant (cps "NaN")]) /\
  parse_response_file 997
    (response_label_prefix ++ cps "x" ++ [34; 93; 61] ++ [91] ++ repeat 49 4301 ++ [93]) =
    inl (ValueError "Exceeds the limit (4300 digits) for integer string conversion") /\
  parse_plurk_file 997
    (plurk_label_prefix ++ cps "x" ++ [34; 93; 61] ++ repeat 91 998 ++ repeat 93 998) =
    inl (RecursionError
           "maximum recursion depth exceeded while decoding a JSON array from a unicode string").
Proof. vm_compute. repeat split. Qed.

(** ** The LIKE pattern of a query *)

Lemma like_escape_flat (s : text) :
  replace_char 95 [92; 95] (replace_char 37 [92; 37] (replace_char 92 [92; 92] s)) =
  flat_map like_esc1 s.
Proof.
  induction s as [|c s IH]; [reflexivity|].
  change (c :: s) with ([c] ++ s). rewrite !replace_char_app, IH.
  simpl flat_map. rewrite ?app_nil_r. f_equal. unfold like_esc1, replace_char. simpl.
  repeat match goal with
         | |- context [Z.eqb c ?n] => destruct (Z.eqb_spec c n); subst; simpl
         end; reflexivity.
Qed.

Lemma build_like_pattern_esc (query : text) :
  build_like_pattern query = 37 :: flat_map like_esc1 (py_strip query) ++ [37].
Proof. unfold build_like_pattern. rewrite like_escape_flat. reflexivity. Qed.

Lemma c_str_cons (c : Z) (s : text) : c <> 0 -> c_str (c :: s) = c :: c_str s.
Proof. intros Hc. unfold c_str. simpl. rewrite (proj2 (Z.eqb_neq c 0) Hc). reflexivity. Qed.

Lemma c_str_id (s : text) : 0 ∉ s -> c_str s = s.
Proof.
  induction s as [|c s IH]; intros Hs; [reflexivity|].
  rewrite elem_of_cons in Hs. rewrite c_str_cons by (intros ->; apply Hs; by left).
  f_equal. apply IH. intros H. apply Hs. by right.
Qed.

Lemma c_str_app_id (a b : text) : 0 ∉ a -> c_str (a ++ b) = a ++ c_str b.
Proof.
  induction a as [|c a IH]; intros Ha; [reflexivity|].
  rewrite elem_of_cons in Ha. simpl. rewrite c_str_cons by (intros ->; apply Ha; by left).
  f_equal. apply IH. intros H. apply Ha. by right.
Qed.

Lemma c_str_prefix (s : text) : exists rest, s = c_str s ++ rest.
Proof. exists (drop_while (fun c => negb (Z.eqb c 0)) s). apply take_drop_while. Qed.

Lemma like_esc1_nul_free (c : Z) : c <> 0 -> 0 ∉ like_esc1 c.
Proof.
  intros Hc. unfold like_esc1.
  repeat destruct (Z.eqb _ _); rewrite ?elem_of_cons, ?elem_of_nil;
    intros Hin; destruct_or! Hin; congruence.
Qed.

Lemma c_str_esc (m p : text) :
  c_str (flat_map like_esc1 m ++ p) =
  flat_map like_esc1 (c_str m) ++ (if bool_decide (0 ∈ m) then [] else c_str p).
Proof.
  induction m as [|c m IH]; [|cbn [flat_map]].
  - rewrite bool_decide_false by apply not_elem_of_nil. reflexivity.
  - destruct (Z.eq_dec c 0) as [->|Hc].
    + rewrite bool_decide_true by constructor. reflexivity.
    + rewrite <- app_assoc, c_str_app_id by (by apply like_esc1_nul_free).
      rewrite IH, (c_str_cons c m Hc). cbn [flat_map].
      replace (bool_decide (0 ∈ c :: m)) with (bool_decide (0 ∈ m)); [by rewrite app_assoc|].
      apply bool_decide_ext. rewrite elem_of_cons.
      split; [by right|intros [H|H]; [congruence|done]].
Qed.

Lemma drop_while_keep p (s : text) c : c ∈ s -> p c = false -> c ∈ drop_while p s.
Proof.
  induction s as [|x s IH]; simpl; [done|]. intros Hs Hp.
  destruct (p x) eqn:Hx; [|done]. apply elem_of_cons in Hs as [->|Hs]; [congruence|auto].
Qed.

Lemma py_strip_nul (q : text) : 0 ∈ py_strip q <-> 0 ∈ q.
Proof.
  split; [apply py_strip_incl|]. intros H. unfold py_strip.
  rewrite list_elem_of_In, <- in_rev, <- list_elem_of_In.
  apply drop_while_keep; [|reflexivity].
  rewrite list_elem_of_In, <- in_rev, <- list_elem_of_In.
  apply drop_while_keep; [done|reflexivity].
Qed.

Lemma pattern_compare_pct_cons (p : text) x (s : text) :
  pattern_compare (37 :: p) (x :: s) = pattern_compare p (x :: s) || pattern_compare (37 :: p) s.
Proof. reflexivity. Qed.

Lemma pattern_compare_pct (p s : text) :
  pattern_compare (37 :: p) s = true <-> exists a b, s = a ++ b /\ pattern_compare p b = true.
Proof.
  induction s as [|x s IH].
  - change (pattern_compare (37 :: p) []) with (pattern_compare p [] || false).
    rewrite orb_false_r. split.
    + intros H. exists [], []. done.
    + intros (a & b & Hab & H). symmetry in Hab. apply app_eq_nil in Hab as [-> ->]. done.
  - rewrite pattern_compare_pct_cons, orb_true_iff, IH. split.
    + intros [H|(a & b & -> & H)].
      * exists [], (x :: s). done.
      * exists (x :: a), b. done.
    + intros ([|y a] & b & Hab & H).
      * left. simpl in Hab. by subst.
      * right. injection Hab as <- ->. exists a, b. done.
Qed.

Lemma pattern_compare_esc1 (c : Z) (q s : text) :
  pattern_compare (like_esc1 c ++ q) s =
    match s with
    | [] => false
    | x :: s' => Z.eqb (ascii_lower c) (ascii_lower x) && pattern_compare q s'
    end.
Proof.
  unfold like_esc1.
  destruct (Z.eqb_spec c 92) as [->|H92]; [reflexivity|].
  destruct (Z.eqb_spec c 37) as [->|H37]; [reflexivity|].
  destruct (Z.eqb_spec c 95) as [->|H95]; [reflexivity|].
  simpl. rewrite (proj2 (Z.eqb_neq c 37) H37), (proj2 (Z.eqb_neq c 95) H95),
    (proj2 (Z.eqb_neq c 92) H92). reflexivity.
Qed.

Lemma pattern_compare_lit (m p s : text) :
  pattern_compare (flat_map like_esc1 m ++ p) s = true <->
  exists s1 s2, s = s1 ++ s2 /\ map ascii_lower s1 = map ascii_lower m /\
                pattern_compare p s2 = true.
Proof.
  revert s. induction m as [|c m IH]; intros s; simpl.
  - split.
    + intros H. exists [], s. done.
    + intros (s1 & s2 & -> & Hs1 & H). destruct s1; [done|discriminate].
  - rewrite <- app_assoc, pattern_compare_esc1. destruct s as [|x s].
    + split; [done|]. intros ([|y s1] & s2 & Hs & Hl & _); [discriminate|discriminate].
    + rewrite andb_true_iff, Z.eqb_eq, IH. split.
      * intros (Hx & s1 & s2 & -> & Hl & H). exists (x :: s1), s2. simpl. rewrite Hl, Hx. done.
      * intros ([|y s1] & s2 & Hs & Hl & H); [discriminate|].
        injection Hs as <- ->. injection Hl as Hx Hl. split; [done|]. exists s1, s2. done.
Qed.

Lemma pattern_compare_pct_any (s : text) : pattern_compare [37] s = true.
Proof. apply pattern_compare_pct. exists s, []. rewrite app_nil_r. done. Qed.

Lemma pattern_compare_nil (s : text) : pattern_compare [] s = true <-> s = [].
Proof. destruct s; simpl; done. Qed.

Lemma like_pattern_match_iff (query v : text) :
  like_match (build_like_pattern query) v = true <->
  if bool_decide (0 ∈ query)
  then exists a m, c_str v = a ++ m /\ map ascii_lower m = map ascii_lower (c_str (py_strip query))
  else contains_ci (c_str v) (py_strip query).
Proof.
  unfold like_match. rewrite build_like_pattern_esc, c_str_cons by lia. rewrite c_str_esc.
  rewrite (bool_decide_ext _ _ (py_strip_nul query)).
  case_bool_decide as Hq; rewrite pattern_compare_pct.
  - rewrite app_nil_r. split.
    + intros (a & b & Hv & H). rewrite <- (app_nil_r (flat_map _ _)) in H.
      apply pattern_compare_lit in H as (s1 & s2 & -> & Hl & H2).
      apply pattern_compare_nil in H2 as ->. exists a, s1. rewrite Hv, app_nil_r. done.
    + intros (a & m & Hv & Hl). exists a, m. split; [done|].
      rewrite <- (app_nil_r (flat_map _ _)). apply pattern_compare_lit.
      exists m, []. rewrite app_nil_r. done.
  - rewrite (c_str_id (py_strip query)) by (by rewrite py_strip_nul).
    change (c_str [37]) with [37]. unfold contains_ci. split.
    + intros (a & b & Hv & H). apply pattern_compare_lit in H as (s1 & s2 & -> & Hl & _).
      exists a, s1, s2. done.
    + intros (a & m & b & Hv & Hl). exists a, (m ++ b). split; [done|].
      apply pattern_compare_lit. exists m, b. split; [done|]. split; [done|].
      apply pattern_compare_pct_any.
Qed.

(** X1: the LIKE pattern [_build_like_pattern] makes of a query matches
    a value exactly when the value, read up to its first NUL, contains
    the stripped query, ASCII letters compared without case.  A NUL in
    the query cuts the pattern before its closing [%]: the pattern then
    matches the values whose text up to their first NUL ends with the
    part of the stripped query before its first NUL. *)
Lemma like_pattern_contains (query v : text) :
  like_match (build_like_pattern query) v = true <->
  if bool_decide (0 ∈ query)
  then exists a m, c_str v = a ++ m /\ map ascii_lower m = map ascii_lower (c_str (py_strip query))
  else contains_ci (c_str v) (py_strip query).
Proof. apply like_pattern_match_iff. Qed.

(** ** What a LIKE search returns *)

Lemma contains_ci_c_str (v q : text) : contains_ci (c_str v) q -> contains_ci v q.
Proof.
  unfold contains_ci. intros (a & m & b & Hv & Hl). destruct (c_str_prefix v) as [rest Hr].
  exists a, m, (b ++ rest). rewrite Hr, Hv, <- !app_assoc. done.
Qed.

Lemma sql_like_pattern (c : option text) (query : text) :
  0 ∉ query ->
  sql_like c (build_like_pattern query) = true <-> opt_contains_ci (c_str <$> c) (py_strip query).
Proof.
  intros Hq. destruct c as [v|]; simpl; [|split; [discriminate|done]].
  rewrite like_pattern_match_iff, bool_decide_false by done. done.
Qed.

Lemma sql_like_sound (c : option text) (query : text) :
  0 ∉ query -> sql_like c (build_like_pattern query) = true -> opt_contains_ci c (py_strip query).
Proof.
  intros Hq H. apply (sql_like_pattern c query Hq) in H.
  destruct c as [v|]; simpl in *; [by apply contains_ci_c_str|done].
Qed.

Lemma in_limit_offset {A} (lim off : Z) (l : list A) x : In x (limit_offset lim off l) -> In x l.
Proof.
  unfold limit_offset. intros H.
  rewrite <- (take_drop (Z.to_nat off) l). apply in_or_app. right.
  rewrite <- (take_drop (Z.to_nat lim) (drop (Z.to_nat off) l)). apply in_or_app. by left.
Qed.

Lemma in_rows_by_rowid {R} (t : gmap Z R) k r : In (k, r) (rows_by_rowid t) <-> t !! k = Some r.
Proof.
  unfold rows_by_rowid. rewrite <- list_elem_of_In, merge_sort_Permutation.
  apply elem_of_map_to_list.
Qed.

Lemma NoDup_fst_rows_by_rowid {R} (t : gmap Z R) : NoDup (List.map fst (rows_by_rowid t)).
Proof.
  unfold rows_by_rowid. change (NoDup ((merge_sort rowid_le (map_to_list t)).*1)).
  rewrite merge_sort_Permutation. apply NoDup_fst_map_to_list.
Qed.

Lemma NoDup_map_filter {A B} (f : A -> B) (P : A -> bool) (l : list A) :
  NoDup (List.map f l) -> NoDup (List.map f (List.filter P l)).
Proof.
  induction l as [|x l IH]; simpl; [done|]. intros Hnd. apply NoDup_cons in Hnd as [Hx Hnd].
  destruct (P x); simpl; [|by apply IH]. constructor; [|by apply IH].
  intros Hin. apply Hx. apply list_elem_of_In in Hin. apply list_elem_of_In.
  apply in_map_iff in Hin as (y & <- & Hy). apply filter_In in Hy as [Hy _].
  apply in_map_iff. eauto.
Qed.

Lemma like_page_sound {R} (item : Z -> R -> search_item) (content : R -> option text)
    (query : text) (off : Z) (t : gmap Z R) l n :
  0 ∉ query ->
  like_page item content (build_like_pattern query) off t = inr (l, n) ->
  Forall (fun it => exists k r, t !! k = Some r /\ it = item k r /\
                                opt_contains_ci (content r) (py_strip query)) l.
Proof.
  intros Hq. unfold like_page. destruct (bind_text _) as [|pat'] eqn:Hb; [discriminate|].
  apply bind_text_inr in Hb as ->.
  destruct (bind_int off); [discriminate|].
  destruct (bool_decide _ && _); [discriminate|]. intros [= <- _].
  apply Forall_forall. intros it Hit. apply list_elem_of_In, in_limit_offset in Hit.
  unfold order_by_desc in Hit. apply (Permutation_in _ (merge_sort_Permutation _ _)) in Hit.
  apply in_map_iff in Hit as ([k r] & <- & Hin). apply filter_In in Hin as [Hin Hl].
  exists k, r. split; [by apply in_rows_by_rowid|]. split; [done|].
  by apply (sql_like_sound _ query Hq).
Qed.

Lemma like_page_count {R} (item : Z -> R -> search_item) (content : R -> option text)
    (query : text) (off : Z) (t : gmap Z R) l n :
  0 ∉ query ->
  like_page item content (build_like_pattern query) off t = inr (l, n) ->
  exists ks, NoDup ks /\
    (forall k, k ∈ ks <-> exists r, t !! k = Some r /\
                                    opt_contains_ci (c_str <$> content r) (py_strip query)) /\
    n = Z.of_nat (length ks).
Proof.
  intros Hq. unfold like_page. destruct (bind_text _) as [|pat'] eqn:Hb; [discriminate|].
  apply bind_text_inr in Hb as ->.
  destruct (bind_int off); [discriminate|].
  destruct (bool_decide _ && _); [discriminate|]. intros [= _ <-].
  set (hits := List.filter _ _).
  exists (List.map fst hits). split; [apply NoDup_map_filter, NoDup_fst_rows_by_rowid|].
  split; [|by rewrite length_map].
  intros k. rewrite list_elem_of_In, in_map_iff. split.
  - intros ([k' r] & <- & Hin). apply filter_In in Hin as [Hin Hl].
    exists r. split; [by apply in_rows_by_rowid|]. by apply (sql_like_pattern _ query Hq).
  - intros (r & Hr & Hc). exists (k, r). split; [done|]. apply filter_In.
    split; [by apply in_rows_by_rowid|]. by apply (sql_like_pattern _ query Hq).
Qed.

Lemma Forall_py_sort_posted_desc (P : search_item -> Prop) (l : list search_item) :
  Forall P (py_sort_posted_desc l) <-> Forall P l.
Proof. unfold py_sort_posted_desc. by rewrite merge_sort_Permutation. Qed.

Lemma link_like_pattern (query : text) (lr : link_row) :
  0 ∉ query ->
  link_like (build_like_pattern query) lr = true ->
  contains_ci (url lr) (py_strip query) \/ opt_contains_ci (og_title lr) (py_strip query) \/
  opt_contains_ci (og_description lr) (py_strip query) \/
  opt_contains_ci (og_site_name lr) (py_strip query).
Proof.
  intros Hq. unfold link_like. rewrite !orb_true_iff.
  intros [[[H|H]|H]|H]; apply (sql_like_sound _ query Hq) in H; simpl in H; tauto.
Qed.

(** In like mode every result [search] returns is a stored row whose
    searched text contains the stripped query, ASCII letters compared
    without case: a post or a reply whose [content_raw] contains it, or
    a link whose url, og_title, og_description or og_site_name does.
    [%], [_] and [\\] in the query are matched literally.  The query is
    taken to hold no NUL, which would cut the LIKE pattern short. *)
Theorem search_like_results_contain fts5_match (query search_type mode : text) (pg : Z)
    (s s' : store) (r : search_result) :
  mode <> cps "fts" -> 0 ∉ query ->
  search fts5_match query search_type mode pg s = (s', inr r) ->
  Forall (fun it =>
    match it with
    | PlurkItem k p =>
        rows (plurks s) !! k = Some p /\ opt_contains_ci (Plurks.content_raw p) (py_strip query)
    | ResponseItem k p =>
        rows (responses s) !! k = Some p /\
        opt_contains_ci (Responses.content_raw p) (py_strip query)
    | LinkItem lr =>
        exists t rid, link_metadata s = Some t /\ lrows t !! rid = Some lr /\
          (contains_ci (url lr) (py_strip query) \/ opt_contains_ci (og_title lr) (py_strip query) \/
           opt_contains_ci (og_description lr) (py_strip query) \/
           opt_contains_ci (og_site_name lr) (py_strip query))
    end) (results r).
Proof.
  intros Hm Hq. unfold search. case_bool_decide as Hl; intros [= _ Hr].
  - unfold search_links in Hr. cbv zeta in Hr.
    destruct (link_metadata s) as [t|] eqn:Ht; [|injection Hr as <-; constructor].
    rewrite bool_decide_false in Hr by done.
    destruct (bind_text (build_like_pattern query)) as [|pat] eqn:Hb; [discriminate|].
    apply bind_text_inr in Hb as ->.
    destruct (bind_int (pg * RESULTS_PER_PAGE)); [discriminate|].
    destruct (bool_decide _ && _); [discriminate|]. injection Hr as <-. simpl.
    apply Forall_forall. intros it Hit. apply list_elem_of_In, in_map_iff in Hit as ([k lr] & <- & Hin).
    apply in_limit_offset, filter_In in Hin as [Hin Hlk]. apply in_rev, in_rows_by_rowid in Hin.
    exists t, k. split; [done|]. split; [done|]. by apply link_like_pattern.
  - unfold search_content in Hr. cbv zeta in Hr. rewrite bool_decide_false in Hr by done.
    destruct (bool_decide (search_type ∈ [cps "all"; cps "plurks"])).
    + destruct (like_page PlurkItem Plurks.content_raw (build_like_pattern query)
                  (pg * RESULTS_PER_PAGE) (rows (plurks s))) as [e|[lp np]] eqn:Ep; [discriminate|].
      destruct (bool_decide (search_type ∈ [cps "all"; cps "responses"])).
      * destruct (like_page ResponseItem Responses.content_raw (build_like_pattern query)
                    (pg * RESULTS_PER_PAGE) (rows (responses s))) as [e|[lr nr]] eqn:Er;
          [discriminate|].
        injection Hr as <-. simpl. apply Forall_py_sort_posted_desc, Forall_app. split.
        -- eapply Forall_impl; [apply (like_page_sound _ _ _ _ _ _ _ Hq Ep)|].
           intros it (k & p & Hk & -> & Hc). done.
        -- eapply Forall_impl; [apply (like_page_sound _ _ _ _ _ _ _ Hq Er)|].
           intros it (k & p & Hk & -> & Hc). done.
      * injection Hr as <-. simpl. apply Forall_py_sort_posted_desc. rewrite app_nil_r.
        eapply Forall_impl; [apply (like_page_sound _ _ _ _ _ _ _ Hq Ep)|].
        intros it (k & p & Hk & -> & Hc). done.
    + destruct (bool_decide (search_type ∈ [cps "all"; cps "responses"])).
      * destruct (like_page ResponseItem Responses.content_raw (build_like_pattern query)
                    (pg * RESULTS_PER_PAGE) (rows (responses s))) as [e|[lr nr]] eqn:Er;
          [discriminate|].
        injection Hr as <-. simpl. apply Forall_py_sort_posted_desc.
        eapply Forall_impl; [apply (like_page_sound _ _ _ _ _ _ _ Hq Er)|].
        intros it (k & p & Hk & -> & Hc). done.
      * injection Hr as <-. constructor.
Qed.

Lemma search_like_results_contain_witness :
  cps "like" <> cps "fts" /\ (0 ∉ cps "cat") /\
  search (fun _ _ => false) (cps "cat") (cps "all") (cps "like") 0 cat_store =
    (cat_store, (search (fun _ _ => false) (cps "cat") (cps "all") (cps "like") 0 cat_store).2) /\
  exists r,
    (search (fun _ _ => false) (cps "cat") (cps "all") (cps "like") 0 cat_store).2 = inr r /\
    results r <> [] /\
    Forall (fun it =>
      match it with
      | PlurkItem k p =>
          rows (plurks cat_store) !! k = Some p /\
          opt_contains_ci (Plurks.content_raw p) (py_strip (cps "cat"))
      | ResponseItem k p =>
          rows (responses cat_store) !! k = Some p /\
          opt_contains_ci (Responses.content_raw p) (py_strip (cps "cat"))
      | LinkItem lr =>
          exists t rid, link_metadata cat_store = Some t /\ lrows t !! rid = Some lr /\
            (contains_ci (url lr) (py_strip (cps "cat")) \/
             opt_contains_ci (og_title lr) (py_strip (cps "cat")) \/
             opt_contains_ci (og_description lr) (py_strip (cps "cat")) \/
             opt_contains_ci (og_site_name lr) (py_strip (cps "cat")))
      end) (results r).
Proof.
  split; [discriminate|]. split; [apply (bool_decide_unpack _); vm_compute; reflexivity|].
  split; [vm_compute; reflexivity|].
  eexists. split; [vm_compute; reflexivity|]. split; [vm_compute; discriminate|].
  apply (search_like_results_contain (fun _ _ => false) (cps "cat") (cps "all") (cps "like") 0
           cat_store cat_store);
    [discriminate|apply (bool_decide_unpack _); vm_compute; reflexivity|vm_compute; reflexivity].
Defined.

(** In like mode with scope all, [total] is the number of posts plus the
    number of replies whose [content_raw], read up to its first NUL,
    contains the stripped query, ASCII letters compared without case
    (rows with a NULL [content_raw] are never counted), for a query
    without NUL. *)
Theorem search_like_all_total fts5_match (query mode : text) (pg : Z) (s s' : store)
    (r : search_result) :
  mode <> cps "fts" -> 0 ∉ query ->
  search fts5_match query (cps "all") mode pg s = (s', inr r) ->
  exists kp kr, NoDup kp /\ NoDup kr /\
    (forall k, k ∈ kp <-> exists p, rows (plurks s) !! k = Some p /\
                                   opt_contains_ci (c_str <$> Plurks.content_raw p) (py_strip query)) /\
    (forall k, k ∈ kr <-> exists p, rows (responses s) !! k = Some p /\
                                   opt_contains_ci (c_str <$> Responses.content_raw p) (py_strip query)) /\
    total r = Z.of_nat (length kp) + Z.of_nat (length kr).
Proof.
  intros Hm Hq. unfold search. rewrite bool_decide_false by discriminate. intros [= _ Hr].
  unfold search_content in Hr. cbv zeta in Hr. rewrite bool_decide_false in Hr by done.
  rewrite (bool_decide_true (cps "all" ∈ [cps "all"; cps "plurks"])) in Hr by constructor.
  rewrite (bool_decide_true (cps "all" ∈ [cps "all"; cps "responses"])) in Hr by constructor.
  destruct (like_page PlurkItem Plurks.content_raw (build_like_pattern query)
              (pg * RESULTS_PER_PAGE) (rows (plurks s))) as [e|[lp np]] eqn:Ep; [discriminate|].
  destruct (like_page ResponseItem Responses.content_raw (build_like_pattern query)
              (pg * RESULTS_PER_PAGE) (rows (responses s))) as [e|[lr nr]] eqn:Er; [discriminate|].
  injection Hr as <-. simpl.
  destruct (like_page_count _ _ _ _ _ _ _ Hq Ep) as (kp & Hp1 & Hp2 & ->).
  destruct (like_page_count _ _ _ _ _ _ _ Hq Er) as (kr & Hr1 & Hr2 & ->).
  exists kp, kr. done.
Qed.

Lemma search_like_all_total_witness :
  cps "like" <> cps "fts" /\ (0 ∉ cps "a") /\
  exists r,
    search (fun _ _ => false) (cps "a") (cps "all") (cps "like") 0 sixty_each_store =
      (sixty_each_store, inr r) /\
    exists kp kr, NoDup kp /\ NoDup kr /\
      (forall k, k ∈ kp <-> exists p, rows (plurks sixty_each_store) !! k = Some p /\
                                     opt_contains_ci (c_str <$> Plurks.content_raw p) (py_strip (cps "a"))) /\
      (forall k, k ∈ kr <-> exists p, rows (responses sixty_each_store) !! k = Some p /\
                                     opt_contains_ci (c_str <$> Responses.content_raw p) (py_strip (cps "a"))) /\
      total r = Z.of_nat (length kp) + Z.of_nat (length kr).
Proof.
  split; [discriminate|]. split; [apply (bool_decide_unpack _); vm_compute; reflexivity|].
  eexists. split; [vm_compute; reflexivity|].
  apply (search_like_all_total (fun _ _ => false) (cps "a") (cps "like") 0 sixty_each_store
           sixty_each_store);
    [discriminate|apply (bool_decide_unpack _); vm_compute; reflexivity|vm_compute; reflexivity].
Defined.

(** ** The MATCH string of a query *)



(** ** What [rebuild_fts] leaves *)

Lemma filter_key_notin {R} `{Indexed R} (l : list (Z * R)) k :
  k ∉ l.*1 ->
  filter (fun e : fts_entry => e.1 = k) (List.map (fun kr => (kr.1, indexed_cols kr.2)) l) = [].
Proof.
  induction l as [|[k' r'] l IH]; intros Hk; [reflexivity|]. simpl.
  rewrite filter_cons_False; [apply IH; set_solver|]. simpl. set_solver.
Qed.

Lemma filter_key_in {R} `{Indexed R} (l : list (Z * R)) k r :
  NoDup l.*1 -> (k, r) ∈ l ->
  filter (fun e : fts_entry => e.1 = k) (List.map (fun kr => (kr.1, indexed_cols kr.2)) l) =
    [(k, indexed_cols r)].
Proof.
  induction l as [|[k' r'] l IH]; intros Hnd Hin; [set_solver|].
  simpl in Hnd. apply NoDup_cons in Hnd as [Hk' Hnd]. simpl.
  apply elem_of_cons in Hin as [Heq|Hin].
  - injection Heq as -> ->. rewrite filter_cons_True by done. f_equal.
    by apply filter_key_notin.
  - assert (k <> k').
    { intros ->. apply Hk'. apply list_elem_of_fmap. exists (k', r). done. }
    rewrite filter_cons_False by (simpl; congruence). by apply IH.
Qed.

Lemma fts_rows_synced {R} `{Indexed R} (m : gmap Z R) (tok : text) :
  index_synced m (mk_fts tok (fts_rows m)).
Proof.
  intros k. unfold fts_rows. simpl. destruct (m !! k) as [r|] eqn:Hk.
  - apply filter_key_in.
    + rewrite merge_sort_Permutation. apply NoDup_fst_map_to_list.
    + rewrite merge_sort_Permutation. by apply elem_of_map_to_list.
  - apply filter_key_notin. rewrite merge_sort_Permutation. intros Hin.
    apply list_elem_of_fmap in Hin as ([k' r] & -> & Hin). apply elem_of_map_to_list in Hin.
    simpl in Hk. congruence.
Qed.

Lemma length_fts_rows {R} `{Indexed R} (m : gmap Z R) : length (fts_rows m) = size m.
Proof.
  unfold fts_rows. rewrite length_map, (Permutation_length (merge_sort_Permutation _ _)).
  apply length_map_to_list.
Qed.


(** ** Merging the same sources again *)

Lemma append_missing_sub (xs ys : list Z) :
  (forall y, y ∈ ys -> y ∈ xs) -> append_missing xs ys = xs.
Proof.
  revert xs. induction ys as [|y ys IH]; intros xs Hsub; simpl; [done|].
  rewrite bool_decide_true by set_solver. apply IH. set_solver.
Qed.

Lemma append_missing_incl (xs ys : list Z) x :
  x ∈ xs \/ x ∈ ys -> x ∈ append_missing xs ys.
Proof.
  revert xs. induction ys as [|y ys IH]; intros xs Hx; simpl; [set_solver|].
  apply IH. case_bool_decide; set_solver.
Qed.

Lemma dict_set_same (d : url_dict) (u : text) (v : sources) :
  dict_get d u = Some v -> dict_set d u v = d.
Proof.
  induction d as [|[k w] d IH]; simpl; [discriminate|].
  destruct (decide (k = u)) as [->|Hne]; [by intros [= ->]|]. intros H. by rewrite IH.
Qed.

Lemma merge_url_sources_cons (b : url_dict) (x : text * sources) (n : url_dict) :
  merge_url_sources b (x :: n) = merge_url_sources (merge_url_sources b [x]) n.
Proof. reflexivity. Qed.

Lemma merge_url_sources_mono (n b : url_dict) (u : text) (cur : sources) :
  dict_get b u = Some cur ->
  exists cur', dict_get (merge_url_sources b n) u = Some cur' /\ sources_incl cur cur'.
Proof.
  revert b cur. induction n as [|[v src] n IH]; intros b cur Hb.
  - exists cur. split; [done|split; done].
  - rewrite merge_url_sources_cons.
    assert (Hstep : exists c, dict_get (merge_url_sources b [(v, src)]) u = Some c /\
                              sources_incl cur c).
    { simpl. rewrite dict_get_set. destruct (decide (v = u)) as [->|Hne].
      - rewrite Hb. eexists. split; [reflexivity|].
        split; intros x Hx; apply append_missing_incl; by left.
      - exists cur. split; [done|split; done]. }
    destruct Hstep as (c & Hc & H1). destruct (IH _ _ Hc) as (c' & Hc' & H2).
    exists c'. split; [done|]. destruct H1, H2. split; auto.
Qed.

Lemma merge_url_sources_covers (n b : url_dict) (u : text) (src : sources) :
  (u, src) ∈ n ->
  exists cur, dict_get (merge_url_sources b n) u = Some cur /\ sources_incl src cur.
Proof.
  revert b. induction n as [|[v src'] n IH]; intros b Hin; [set_solver|].
  rewrite merge_url_sources_cons. apply elem_of_cons in Hin as [[= <- <-]|Hin]; [|by apply IH].
  set (m1 := merge_url_sources b [(u, src)]).
  assert (Hm1 : exists c, dict_get m1 u = Some c /\ sources_incl src c).
  { unfold m1. simpl. rewrite dict_get_set, decide_True by done.
    eexists. split; [reflexivity|]. split; intros x Hx; apply append_missing_incl; by right. }
  destruct Hm1 as (c & Hc & Hsc).
  destruct (merge_url_sources_mono n m1 u c Hc) as (c' & Hc' & Hcc').
  exists c'. split; [done|]. destruct Hsc, Hcc'. split; auto.
Qed.

Lemma merge_url_sources_stable (n b : url_dict) :
  (forall u src, (u, src) ∈ n -> exists cur, dict_get b u = Some cur /\ sources_incl src cur) ->
  merge_url_sources b n = b.
Proof.
  revert b. induction n as [|[u src] n IH]; intros b Hcov; [done|].
  rewrite merge_url_sources_cons.
  destruct (Hcov u src (proj2 (elem_of_cons _ _ _) (or_introl eq_refl))) as ([p r] & Hb & Hp & Hr).
  assert (Hstep : merge_url_sources b [(u, src)] = b).
  { simpl. rewrite Hb. simpl. rewrite !append_missing_sub by done. by apply dict_set_same. }
  rewrite Hstep. apply IH. intros v s' Hin. apply Hcov. apply elem_of_cons. by right.
Qed.

(** Merging the same collected sources into the accumulated dict a second
    time changes nothing: [merge_url_sources] is idempotent, whatever the
    order, the duplicates or the overlaps of the URLs and ids involved. *)
Theorem merge_url_sources_idempotent (base nw : url_dict) :
  merge_url_sources (merge_url_sources base nw) nw = merge_url_sources base nw.
Proof.
  apply merge_url_sources_stable. intros u src Hin. by apply merge_url_sources_covers.
Qed.

(** ** Upserting the same URL and sources again *)

Lemma sorted_set_idem (a b : list Z) :
  sorted_set (sorted_set (a ++ b) ++ b) = sorted_set (a ++ b).
Proof.
  destruct (sorted_set_spec (a ++ b)) as (H1 & H2 & H3).
  destruct (sorted_set_spec (sorted_set (a ++ b) ++ b)) as (K1 & K2 & K3).
  assert (Hanti : AntiSymm eq Z.le) by (intros x y ? ?; lia).
  assert (Htr : Transitive Z.le) by (intros x y z ? ?; lia).
  apply (Sorted_unique Z.le); [done|done|]. apply NoDup_Permutation; [done|done|].
  intros x. rewrite K3, elem_of_app, H3, elem_of_app. tauto.
Qed.

Lemma urls_unique_update (m : gmap Z link_row) (rid : Z) (r r' : link_row) :
  urls_unique m -> m !! rid = Some r -> url r' = url r -> urls_unique (<[rid := r']> m).
Proof.
  unfold urls_unique. intros Hu Hr Hurl.
  rewrite <- (insert_delete_id m rid r Hr) in Hu. rewrite <- insert_delete_eq.
  rewrite (map_to_list_insert (delete rid m)) in Hu |- * by apply lookup_delete_eq.
  simpl in Hu |- *. by rewrite Hurl.
Qed.

Lemma upsert_link_resight_step chk_b chk_n (s : store) (t : link_table) (u : text)
    (new_sources : sources) (rid : Z) (r : link_row) (old : sources) :
  link_metadata s = Some t -> urls_unique (lrows t) -> lrows t !! rid = Some r ->
  url r = u -> l_sources r = Some old ->
  upsert_link chk_b chk_n u new_sources s =
    (set_links (Some (link_apply (row_update rid rid
       (set_l_sources r (Some (mk_sources (sorted_set (plurk_ids old ++ plurk_ids new_sources))
                                          (sorted_set (response_ids old ++ response_ids new_sources))))))
       t)) s, inr false).
Proof.
  intros Hs Hu Hr Hurl Hold.
  unfold upsert_link, bind, select_link_by_url. rewrite Hs. subst u.
  rewrite (find_url_unique _ _ _ Hu Hr). simpl. rewrite Hold. simpl.
  unfold exec_stmt. rewrite Hs. unfold exec_link. rewrite Hr.
  rewrite (url_taken_unique _ rid r) by done.
  rewrite bool_decide_false by tauto. reflexivity.
Qed.



(** ** Which plurk files [filter_plurk_files] selects *)

Lemma elem_of_sort_names (f : text) (l : list text) : f ∈ sort_names l <-> f ∈ l.
Proof. unfold sort_names. by rewrite merge_sort_Permutation. Qed.

Lemma elem_of_glob_js (f : text) (l : list text) :
  f ∈ glob_js l <-> f ∈ l /\ ends_with (cps ".js") f = true.
Proof. unfold glob_js. rewrite !list_elem_of_In, filter_In. done. Qed.

Lemma select_in_range_some (a e : text) (files : list text) :
  exists l, select_in_range a (Some e) files = inr l /\
    forall f, f ∈ l <-> f ∈ files /\ text_leb a (month_key f) = true /\
                       text_leb (month_key f) e = true.
Proof.
  induction files as [|f fs (l & Hl & IH)]; simpl.
  - exists []. split; [done|]. intros f. split; [intros Hf; inversion Hf|intros [Hf _]; inversion Hf].
  - rewrite Hl. destruct (text_leb a (month_key f)) eqn:Ha; simpl.
    + destruct (text_leb (month_key f) e) eqn:He.
      * exists (f :: l). split; [done|]. intros g. rewrite !elem_of_cons, IH.
        split; [intros [->|H]; tauto|intros [[->|H] [H1 H2]]; auto].
      * exists l. split; [done|]. intros g. rewrite IH, elem_of_cons.
        split; [tauto|intros [[->|H] [H1 H2]]; [congruence|auto]].
    + exists l. split; [done|]. intros g. rewrite IH, elem_of_cons.
      split; [tauto|intros [[->|H] [H1 H2]]; [congruence|auto]].
Qed.

Lemma filter_plurk_files_some (names : list text) (a e : text) :
  exists l, filter_plurk_files names (Some a) (Some e) = inr l /\
    forall f, f ∈ l <-> f ∈ names /\ ends_with (cps ".js") f = true /\
                       text_leb a (month_key f) = true /\ text_leb (month_key f) e = true.
Proof.
  unfold filter_plurk_files.
  destruct (select_in_range_some a e (sort_names (glob_js names))) as (l & Hl & Hin).
  rewrite Hl. exists (sort_names l). split; [done|]. intros f.
  rewrite elem_of_sort_names, Hin, elem_of_sort_names, elem_of_glob_js. tauto.
Qed.

Lemma text_compare_refl (a : text) : text_compare a a = Eq.
Proof. induction a as [|x a IH]; simpl; [done|]. by rewrite Z.compare_refl. Qed.

Lemma text_compare_antisym (a b : text) :
  text_leb a b = true -> text_leb b a = true -> a = b.
Proof.
  unfold text_leb. revert b. induction a as [|x a IH]; intros [|y b]; simpl; try done.
  destruct (Z.compare_spec x y) as [->|Hxy|Hxy].
  - rewrite Z.compare_refl. intros H1 H2. f_equal. by apply IH.
  - rewrite (proj2 (Z.compare_gt_iff y x)) by lia. done.
  - done.
Qed.

Lemma text_compare_app_eqlen (a a' b b' : text) :
  length a = length a' ->
  text_compare (a ++ b) (a' ++ b') = match text_compare a a' with Eq => text_compare b b' | c => c end.
Proof.
  revert a'. induction a as [|x a IH]; intros [|y a'] Hlen; simpl in *; try done.
  destruct (Z.compare x y); try done. apply IH. lia.
Qed.

Lemma cmp_step (k a a' b b' : Z) :
  0 <= b < k -> 0 <= b' < k ->
  Z.compare (a * k + b) (a' * k + b') = match Z.compare a a' with Eq => Z.compare b b' | c => c end.
Proof.
  intros Hb Hb'. destruct (Z.compare_spec a a') as [->|H|H].
  - destruct (Z.compare_spec b b'); [subst; apply Z.compare_refl|apply Z.compare_lt_iff; lia|
                                     apply Z.compare_gt_iff; lia].
  - apply Z.compare_lt_iff. nia.
  - apply Z.compare_gt_iff. nia.
Qed.

Lemma digits_compare (ds ds' : list Z) (acc acc' : Z) :
  length ds = length ds' -> Forall (fun d => 0 <= d < 10) ds -> Forall (fun d => 0 <= d < 10) ds' ->
  Z.compare (foldl (fun a d => a * 10 + d) acc ds) (foldl (fun a d => a * 10 + d) acc' ds') =
  match Z.compare acc acc' with
  | Eq => text_compare (List.map (Z.add 48) ds) (List.map (Z.add 48) ds')
  | c => c
  end.
Proof.
  revert ds' acc acc'. induction ds as [|d ds IH]; intros [|d' ds'] acc acc' Hlen Hd Hd';
    simpl in *; try lia.
  - by destruct (Z.compare acc acc').
  - inversion Hd as [|? ? Hd0 Hds]; inversion Hd' as [|? ? Hd0' Hds']; subst.
    rewrite IH by (auto; lia). rewrite cmp_step by lia.
    replace (Z.compare (48 + d) (48 + d')) with (Z.compare d d')
      by (symmetry; apply Z.add_compare_mono_l).
    destruct (Z.compare acc acc'); try done; by destruct (Z.compare d d').
Qed.

Lemma digits_compare0 (ds ds' : list Z) :
  length ds = length ds' -> Forall (fun d => 0 <= d < 10) ds -> Forall (fun d => 0 <= d < 10) ds' ->
  Z.compare (foldl (fun a d => a * 10 + d) 0 ds) (foldl (fun a d => a * 10 + d) 0 ds') =
  text_compare (List.map (Z.add 48) ds) (List.map (Z.add 48) ds').
Proof. intros. by rewrite digits_compare. Qed.

Lemma decimal_digits_step (f : nat) (n : Z) (acc : text) :
  10 <= n -> decimal_digits (S f) n acc = decimal_digits f (n / 10) ((48 + n mod 10) :: acc).
Proof. intros H. simpl. by rewrite (proj2 (Z.ltb_ge n 10) H). Qed.

Lemma decimal_digits_base (f : nat) (n : Z) (acc : text) :
  n < 10 -> decimal_digits (S f) n acc = (48 + n) :: acc.
Proof. intros H. simpl. by rewrite (proj2 (Z.ltb_lt n 10) H). Qed.

Ltac lia_div := Z.div_mod_to_equations; lia.

Lemma decimal_digits_year (y : Z) :
  1000 <= y <= 9999 -> decimal_digits 20 y [] = List.map (Z.add 48) (year_digits y).
Proof.
  intros Hy. unfold year_digits.
  rewrite decimal_digits_step by lia. rewrite decimal_digits_step by lia_div.
  rewrite decimal_digits_step by lia_div. rewrite decimal_digits_base by lia_div. simpl.
  rewrite !Z.div_div by lia. reflexivity.
Qed.

Lemma year_digits_ok (y : Z) :
  1000 <= y <= 9999 ->
  Forall (fun d => 0 <= d < 10) (year_digits y) /\ foldl (fun a d => a * 10 + d) 0 (year_digits y) = y.
Proof.
  intros Hy. unfold year_digits. split; [repeat constructor; lia_div|]. simpl. lia_div.
Qed.

Lemma month_digits (m : Z) :
  1 <= m <= 12 ->
  (if m <? 10 then [48; 48 + m] else decimal_digits 20 m []) = two_digits m /\
  two_digits m = List.map (Z.add 48) [m / 10; m mod 10].
Proof.
  intros Hm. assert (m = 1 \/ m = 2 \/ m = 3 \/ m = 4 \/ m = 5 \/ m = 6 \/ m = 7 \/ m = 8 \/
                     m = 9 \/ m = 10 \/ m = 11 \/ m = 12) as Hc by lia.
  repeat destruct Hc as [->|Hc]; try subst m; split; reflexivity.
Qed.

Lemma strftime_ym_digits (d : date) :
  1000 <= year d <= 9999 -> 1 <= month d <= 12 ->
  strftime_ym d = decimal_digits 20 (year d) [] ++ [45] ++ two_digits (month d).
Proof. intros Hy Hm. unfold strftime_ym. by rewrite (proj1 (month_digits _ Hm)). Qed.

Lemma strftime_ym_compare (d d' : date) :
  1000 <= year d <= 9999 -> 1 <= month d <= 12 ->
  1000 <= year d' <= 9999 -> 1 <= month d' <= 12 ->
  text_compare (strftime_ym d) (strftime_ym d') =
    Z.compare (month_index (year d) (month d)) (month_index (year d') (month d')).
Proof.
  intros Hy Hm Hy' Hm'. rewrite !strftime_ym_digits by done.
  rewrite !decimal_digits_year by done.
  rewrite text_compare_app_eqlen by (unfold year_digits; reflexivity). simpl (text_compare [45] _).
  rewrite text_compare_app_eqlen by reflexivity. simpl (text_compare [45] [45]).
  rewrite ?Z.compare_refl.
  rewrite (proj2 (month_digits _ Hm)), (proj2 (month_digits _ Hm')).
  destruct (year_digits_ok _ Hy) as [Hd Hv]. destruct (year_digits_ok _ Hy') as [Hd' Hv'].
  rewrite <- (digits_compare0 (year_digits (year d)) (year_digits (year d'))), Hv, Hv' by done.
  rewrite <- (digits_compare0 [month d / 10; month d mod 10] [month d' / 10; month d' mod 10])
    by first [done | repeat constructor; lia_div].
  simpl foldl.
  unfold month_index.
  rewrite (cmp_step 12 (year d) (year d') (month d - 1) (month d' - 1)) by lia.
  destruct (Z.compare (year d) (year d')); try done.
  replace ((0 * 10 + month d / 10) * 10 + month d mod 10) with (month d) by lia_div.
  replace ((0 * 10 + month d' / 10) * 10 + month d' mod 10) with (month d') by lia_div.
  destruct (Z.compare_spec (month d) (month d')); symmetry;
    [apply Z.compare_eq_iff|apply Z.compare_lt_iff|apply Z.compare_gt_iff]; lia.
Qed.

Lemma rfind_char_app (c : Z) (l l' : text) :
  rfind_char c (l ++ l') =
    match rfind_char c l' with Some j => Some (length l + j)%nat | None => rfind_char c l end.
Proof.
  induction l as [|x l IH]; simpl; [by destruct (rfind_char c l')|].
  rewrite IH. by destruct (rfind_char c l').
Qed.

Lemma replace_char_id (old : Z) (new l : text) :
  Forall (fun c => c <> old) l -> replace_char old new l = l.
Proof.
  induction 1 as [|x l Hx _ IH]; [done|]. unfold replace_char in *. simpl.
  rewrite (proj2 (Z.eqb_neq x old) Hx), IH. done.
Qed.

Lemma month_key_plurk_file_name (y m : Z) :
  1000 <= y <= 9999 -> 1 <= m <= 12 ->
  month_key (plurk_file_name y m) = strftime_ym (mk_date y m 1).
Proof.
  intros Hy Hm. rewrite strftime_ym_digits by done. simpl (year _). simpl (month _).
  unfold month_key, py_stem, plurk_file_name.
  rewrite !app_assoc, rfind_char_app. simpl (rfind_char 46 (cps ".js")).
  rewrite decimal_digits_year, (proj2 (month_digits _ Hm)) by done.
  unfold year_digits, replace_char.
  cbn [length app map Nat.add Nat.sub Nat.ltb Nat.leb andb take cps flat_map].
  repeat match goal with
         | |- context [Z.eqb (48 + ?x) 95] => rewrite (proj2 (Z.eqb_neq (48 + x) 95)) by lia_div
         end.
  reflexivity.
Qed.

Lemma ends_with_app (e l : text) : ends_with e (l ++ e) = true.
Proof.
  unfold ends_with. rewrite length_app.
  replace (length l + length e - length e)%nat with (length l) by lia.
  rewrite drop_app_length, bool_decide_true by done. apply andb_true_intro. split; [|done].
  apply Nat.leb_le. lia.
Qed.

Lemma plurk_file_name_js (y m : Z) : ends_with (cps ".js") (plurk_file_name y m) = true.
Proof. unfold plurk_file_name. rewrite !app_assoc. apply ends_with_app. Qed.

Lemma plurk_file_name_in_range (a b : date) (y m : Z) :
  1000 <= year a <= 9999 -> 1 <= month a <= 12 ->
  1000 <= year b <= 9999 -> 1 <= month b <= 12 ->
  1000 <= y <= 9999 -> 1 <= m <= 12 ->
  (text_leb (strftime_ym a) (month_key (plurk_file_name y m)) = true /\
   text_leb (month_key (plurk_file_name y m)) (strftime_ym b) = true) <->
  month_index (year a) (month a) <= month_index y m <= month_index (year b) (month b).
Proof.
  intros Ha Ham Hb Hbm Hy Hm. rewrite month_key_plurk_file_name by done. unfold text_leb.
  rewrite !strftime_ym_compare by (simpl; lia). simpl (year _). simpl (month _).
  destruct (Z.compare_spec (month_index (year a) (month a)) (month_index y m));
  destruct (Z.compare_spec (month_index y m) (month_index (year b) (month b)));
  split; intros; try lia; try done; destruct_and?; try discriminate.
Qed.

(** [filter_plurk_files] with a range of two [YYYY-MM] bounds (the shape
    [calculate_scan_range] produces for four-digit years) never raises;
    it keeps only names of the directory, and a backup file
    [YYYY_MM.js] is kept exactly when its month lies between the two
    bounds, both included, in calendar order. *)
Theorem filter_plurk_files_months (names : list text) (a b : date) :
  1000 <= year a <= 9999 -> 1 <= month a <= 12 ->
  1000 <= year b <= 9999 -> 1 <= month b <= 12 ->
  exists l, filter_plurk_files names (Some (strftime_ym a)) (Some (strftime_ym b)) = inr l /\
    (forall f, f ∈ l -> f ∈ names) /\
    forall y m, 1000 <= y <= 9999 -> 1 <= m <= 12 ->
      (plurk_file_name y m ∈ l <->
       plurk_file_name y m ∈ names /\
       month_index (year a) (month a) <= month_index y m <= month_index (year b) (month b)).
Proof.
  intros Ha Ham Hb Hbm.
  destruct (filter_plurk_files_some names (strftime_ym a) (strftime_ym b)) as (l & Hl & Hin).
  exists l. split; [done|]. split; [intros f Hf; by apply Hin in Hf as [? _]|].
  intros y m Hy Hm. rewrite Hin, <- (plurk_file_name_in_range a b y m) by done.
  rewrite plurk_file_name_js. tauto.
Qed.

Lemma filter_plurk_files_months_witness :
  (1000 <= year (mk_date 2018 9 1) <= 9999 /\ 1 <= month (mk_date 2018 9 1) <= 12 /\
   1000 <= year (mk_date 2019 2 1) <= 9999 /\ 1 <= month (mk_date 2019 2 1) <= 12) /\
  exists l,
    filter_plurk_files [cps "2018_08.js"; cps "2018_10.js"; cps "2019_02.js"; cps "2019_03.js"]
      (Some (strftime_ym (mk_date 2018 9 1))) (Some (strftime_ym (mk_date 2019 2 1))) = inr l /\
    (forall f, f ∈ l -> f ∈ [cps "2018_08.js"; cps "2018_10.js"; cps "2019_02.js"; cps "2019_03.js"]) /\
    forall y m, 1000 <= y <= 9999 -> 1 <= m <= 12 ->
      (plurk_file_name y m ∈ l <->
       plurk_file_name y m ∈ [cps "2018_08.js"; cps "2018_10.js"; cps "2019_02.js"; cps "2019_03.js"] /\
       month_index 2018 9 <= month_index y m <= month_index 2019 2).
Proof.
  split; [simpl; lia|].
  apply (filter_plurk_files_months _ (mk_date 2018 9 1) (mk_date 2019 2 1)); simpl; lia.
Defined.

(** [cmd_extract]'s single-month range: [filter_plurk_files] from
    [f\"{month[:4]}-{month[4:]}\"] to itself never raises and keeps
    exactly the names of the directory that end in [.js] and whose stem,
    with [_] replaced by [-], is that string. *)
Theorem extract_month_files (names : list text) (month : text) :
  exists l, filter_plurk_files names (Some (extract_month_key month))
                                      (Some (extract_month_key month)) = inr l /\
    forall f, f ∈ l <-> f ∈ names /\ ends_with (cps ".js") f = true /\
                       month_key f = extract_month_key month.
Proof.
  destruct (filter_plurk_files_some names (extract_month_key month) (extract_month_key month))
    as (l & Hl & Hin).
  exists l. split; [done|]. intros f. rewrite Hin. split.
  - intros (H1 & H2 & H3 & H4). split; [done|]. split; [done|].
    symmetry. by apply text_compare_antisym.
  - intros (H1 & H2 & ->). unfold text_leb. rewrite text_compare_refl. done.
Qed.

Lemma parse_date_valid (p : text) (d : date) : parse_date p = inr d -> valid_date d = true.
Proof.
  unfold parse_date. intros H.
  destruct (parse_iso p) as [d0|]; [|destruct (parse_rfc1123 p) as [d0|]]; simpl in H;
    try discriminate; destruct (valid_date d0) eqn:Hv; inversion H; subst; done.
Qed.

Lemma valid_date_bounds (d : date) :
  valid_date d = true -> 1 <= year d <= 9999 /\ 1 <= month d <= 12.
Proof. unfold valid_date. rewrite !andb_true_iff, !Z.leb_le. lia. Qed.

Lemma sub_months_index (d : date) (n : Z) :
  1 <= month d <= 12 -> 0 <= n -> 1001 <= year d <= 9999 -> n <= 12 ->
  exists d', sub_months d n = inr d' /\
    1000 <= year d' <= 9999 /\ 1 <= month d' <= 12 /\
    month_index (year d') (month d') = month_index (year d) (month d) - n.
Proof.
  intros Hm Hn Hy Hn'. unfold sub_months.
  rewrite (proj2 (Z.ltb_ge _ 1)) by lia_div.
  eexists. split; [reflexivity|]. simpl. unfold month_index. repeat split; lia_div.
Qed.


(** ** Which response files are read *)

Lemma existsb_json_is_str (t : text) (ids : list json) :
  existsb (json_is_str t) ids = true <-> JStr t ∈ ids.
Proof.
  rewrite existsb_exists, list_elem_of_In. split.
  - intros ([] & Hin & Hx); simpl in Hx; try discriminate. case_bool_decide; [by subst|discriminate].
  - intros Hin. exists (JStr t). simpl. by rewrite bool_decide_true.
Qed.

Lemma py_truthy_str (float_truthy : text -> bool) (t : text) :
  py_truthy float_truthy (JStr t) = true <-> t <> [].
Proof. unfold py_truthy. by rewrite negb_true_iff, bool_decide_eq_false. Qed.

Lemma base_id_value (float_truthy : text -> bool) (fields : list (text * json)) (t : text) :
  (default JNone (dict_lookup fields (cps "base_id")) = JStr t /\
   py_truthy float_truthy (JStr t) = true) <->
  dict_lookup fields (cps "base_id") = Some (JStr t) /\ t <> [].
Proof.
  rewrite py_truthy_str. destruct (dict_lookup fields (cps "base_id")) as [v|]; simpl.
  - split; intros [H1 H2]; split; congruence.
  - split; intros [H1 H2]; discriminate.
Qed.

Lemma collect_base_ids_spec (float_truthy : text -> bool) (items acc ids : list json) :
  collect_base_ids float_truthy items acc = inr ids ->
  forall t, JStr t ∈ ids <->
    JStr t ∈ acc \/
    exists fields, JDict fields ∈ items /\
      dict_lookup fields (cps "base_id") = Some (JStr t) /\ t <> [].
Proof.
  revert acc. induction items as [|p items IH]; intros acc; cbn [collect_base_ids].
  - intros [= <-] t. split; [by left|]. intros [H|(f & Hf & _)]; [done|inversion Hf].
  - destruct p as [| | | | | | |fields]; cbn [py_get]; try discriminate.
    set (v := default JNone (dict_lookup fields (cps "base_id"))).
    destruct (py_truthy float_truthy v) eqn:Ht.
    + destruct (py_hash_check v) eqn:Hh; cbn; [discriminate|]. intros H t.
      rewrite (IH _ H), elem_of_app, list_elem_of_singleton.
      setoid_rewrite elem_of_cons.
      pose proof (base_id_value float_truthy fields t) as Hb. fold v in Hb. split.
      * intros [[Ha|Hv]|(f & Hf & Hl & Hne)].
        -- by left.
        -- right. exists fields. split; [by left|]. apply Hb. split; [done|]. by rewrite Hv.
        -- right. exists f. split; [by right|done].
      * intros [Ha|(f & [Hf|Hf] & Hl & Hne)].
        -- by left; left.
        -- injection Hf as ->. left; right. by destruct (proj2 Hb (conj Hl Hne)) as [-> _].
        -- right. by exists f.
    + intros H t. rewrite (IH _ H). setoid_rewrite elem_of_cons. split.
      * intros [Ha|(f & Hf & Hl & Hne)]; [by left|right]. exists f. split; [by right|done].
      * intros [Ha|(f & [Hf|Hf] & Hl & Hne)]; [by left| |right; by exists f].
        injection Hf as ->. exfalso.
        destruct (proj2 (base_id_value float_truthy fields t) (conj Hl Hne)) as [Hv Hs].
        fold v in Hv. rewrite Hv in Ht. congruence.
Qed.

Lemma py_iter_dicts (v : json) (items : list json) (fields : list (text * json)) :
  py_iter v = inr items -> JDict fields ∈ items -> v = JList items.
Proof.
  destruct v; simpl; intros H; try discriminate; injection H as <-; try done;
    intros Hin; apply list_elem_of_fmap in Hin as (x & Hx & _); discriminate.
Qed.

Lemma get_base_ids_loop_spec (float_truthy : text -> bool) (d : nat) (contents : list text)
    (acc ids : list json) :
  get_base_ids_loop float_truthy d contents acc = inr ids ->
  forall t, JStr t ∈ ids <->
    JStr t ∈ acc \/
    exists c key items fields, c ∈ contents /\ parse_plurk_file d c = inr (key, JList items) /\
      JDict fields ∈ items /\ dict_lookup fields (cps "base_id") = Some (JStr t) /\ t <> [].
Proof.
  revert acc. induction contents as [|c cs IH]; intros acc; simpl.
  - intros [= <-] t. split; [by left|]. intros [H|(c & _ & _ & _ & Hc & _)]; [done|inversion Hc].
  - destruct (parse_plurk_file d c) as [e|[key plurks]] eqn:Hp; [discriminate|].
    destruct (py_iter plurks) as [e|items] eqn:Hi; [discriminate|].
    destruct (collect_base_ids float_truthy items acc) as [e|acc'] eqn:Hc; [discriminate|].
    intros H t. rewrite (IH _ H), (collect_base_ids_spec _ _ _ _ Hc). split.
    + intros [[Ha|(f & Hf & Hl & Hne)]|(c' & key' & items' & f & Hc' & Hp' & Hf & Hl & Hne)].
      * by left.
      * right. exists c, key, items, f. rewrite <- (py_iter_dicts _ _ _ Hi Hf).
        split; [by left|done].
      * right. exists c', key', items', f. split; [by right|done].
    + intros [Ha|(c' & key' & items' & f & Hc' & Hp' & Hf & Hl & Hne)]; [by left; left|].
      apply elem_of_cons in Hc' as [->|Hc'].
      * rewrite Hp in Hp'. injection Hp' as -> ->. simpl in Hi. injection Hi as ->.
        left. right. by exists f.
      * right. by exists c', key', items', f.
Qed.

(** The response files [database.py] and [links extract] read after
    their plurk files: when [get_base_ids_from_plurks] succeeds, a name
    of the responses directory is selected by [filter_response_files]
    exactly when it ends in [.js] and its stem is the [base_id] of a
    record of one of the plurk files, given there as a non-empty JSON
    string, the file holding a JSON array of objects.  A [base_id]
    given as a number selects no file. *)
Theorem response_files_selected (float_truthy : text -> bool) (d : nat) (contents : list text)
    (ids : list json) (names : list text) :
  get_base_ids_from_plurks float_truthy d contents = inr ids ->
  forall n, n ∈ filter_response_files names ids <->
    n ∈ names /\ ends_with (cps ".js") n = true /\
    exists c key items fields, c ∈ contents /\ parse_plurk_file d c = inr (key, JList items) /\
      JDict fields ∈ items /\ dict_lookup fields (cps "base_id") = Some (JStr (py_stem n)) /\
      py_stem n <> [].
Proof.
  intros H n. pose proof (get_base_ids_loop_spec _ _ _ _ _ H (py_stem n)) as Hs.
  unfold filter_response_files. destruct ids as [|i ids'] eqn:Hids.
  - split; [intros Hn; inversion Hn|]. intros (_ & _ & Hex).
    assert (Hin : JStr (py_stem n) ∈ ([] : list json)) by (apply Hs; by right). inversion Hin.
  - rewrite <- Hids in *. rewrite elem_of_sort_names, list_elem_of_In, filter_In,
      <- list_elem_of_In, elem_of_glob_js, existsb_json_is_str, Hs.
    split.
    + intros [[Hn Hj] [Ha|Hex]]; [inversion Ha|]. done.
    + intros (Hn & Hj & Hex). split; [done|]. by right.
Qed.

Lemma response_files_selected_witness :
  get_base_ids_from_plurks (fun _ => true) 100 [base_id_demo_file] = inr [JStr (cps "abc"); JInt 7] /\
  filter_response_files [cps "7.js"; cps "abc.js"; cps "xyz.js"] [JStr (cps "abc"); JInt 7] =
    [cps "abc.js"] /\
  forall n, n ∈ filter_response_files [cps "7.js"; cps "abc.js"; cps "xyz.js"]
                                      [JStr (cps "abc"); JInt 7] <->
    n ∈ [cps "7.js"; cps "abc.js"; cps "xyz.js"] /\ ends_with (cps ".js") n = true /\
    exists c key items fields, c ∈ [base_id_demo_file] /\
      parse_plurk_file 100 c = inr (key, JList items) /\
      JDict fields ∈ items /\ dict_lookup fields (cps "base_id") = Some (JStr (py_stem n)) /\
      py_stem n <> [].
Proof.
  split; [vm_compute; reflexivity|]. split; [vm_compute; reflexivity|].
  apply (response_files_selected (fun _ => true) 100 [base_id_demo_file]).
  vm_compute. reflexivity.
Defined.

(** ** Search scopes *)

Lemma fts_page_stored {R} `{Indexed R} fts5_match (item : Z -> R -> search_item) (q : text)
    (off : Z) (t : content_table R) l n :
  fts_page fts5_match item q off t = inr (l, n) ->
  Forall (fun it => exists k r, rows t !! k = Some r /\ it = item k r) l.
Proof.
  unfold fts_page. destruct (bind_text q) as [|q']; [discriminate|].
  destruct (bind_int off); [discriminate|]. simpl.
  destruct (fts_query_ids fts5_match q' (index t)) as [e|ids]; [discriminate|]. intros [= <- _].
  apply Forall_forall. intros it Hit. apply list_elem_of_In, in_limit_offset in Hit.
  unfold order_by_desc in Hit. apply (Permutation_in _ (merge_sort_Permutation _ _)) in Hit.
  apply list_elem_of_In, list_elem_of_omap in Hit as (k & _ & Hk).
  destruct (rows t !! k) as [r|] eqn:Hr; [|discriminate]. injection Hk as <-. eauto.
Qed.

Lemma like_page_stored {R} (item : Z -> R -> search_item) (content : R -> option text)
    (pat : text) (off : Z) (t : gmap Z R) l n :
  like_page item content pat off t = inr (l, n) ->
  Forall (fun it => exists k r, t !! k = Some r /\ it = item k r) l.
Proof.
  unfold like_page. destruct (bind_text pat) as [|pat']; [discriminate|].
  destruct (bind_int off); [discriminate|].
  destruct (bool_decide _ && _); [discriminate|]. intros [= <- _].
  apply Forall_forall. intros it Hit. apply list_elem_of_In, in_limit_offset in Hit.
  unfold order_by_desc in Hit. apply (Permutation_in _ (merge_sort_Permutation _ _)) in Hit.
  apply in_map_iff in Hit as ([k r] & <- & Hin). apply filter_In in Hin as [Hin _].
  exists k, r. split; [by apply in_rows_by_rowid|done].
Qed.

(** The scope of a search holds in both modes: with type [plurks] every
    result is a stored post, with type [responses] every result is a
    stored reply, each with its own id. *)
Theorem search_scope_results fts5_match (query mode : text) (pg : Z) (s s' : store)
    (r : search_result) :
  (search fts5_match query (cps "plurks") mode pg s = (s', inr r) ->
   Forall (fun it => exists k p, rows (plurks s) !! k = Some p /\ it = PlurkItem k p) (results r)) /\
  (search fts5_match query (cps "responses") mode pg s = (s', inr r) ->
   Forall (fun it => exists k p, rows (responses s) !! k = Some p /\ it = ResponseItem k p)
          (results r)).
Proof.
  unfold search. rewrite !bool_decide_false by discriminate. split; intros [= _ Hr];
    unfold search_content in Hr; cbv zeta in Hr.
  - rewrite (bool_decide_true (cps "plurks" ∈ [cps "all"; cps "plurks"])) in Hr
      by (right; constructor).
    rewrite (bool_decide_false (cps "plurks" ∈ [cps "all"; cps "responses"])) in Hr
      by (rewrite !elem_of_cons; intros [H|[H|H]]; [discriminate|discriminate|inversion H]).
    destruct (bool_decide (mode = cps "fts")).
    + destruct (fts_page fts5_match PlurkItem _ _ (plurks s)) as [e|[lp np]] eqn:Ep; [discriminate|].
      injection Hr as <-. simpl. apply Forall_py_sort_posted_desc. rewrite app_nil_r.
      exact (fts_page_stored _ _ _ _ _ _ _ Ep).
    + destruct (like_page PlurkItem Plurks.content_raw _ _ (rows (plurks s))) as [e|[lp np]] eqn:Ep;
        [discriminate|].
      injection Hr as <-. simpl. apply Forall_py_sort_posted_desc. rewrite app_nil_r.
      exact (like_page_stored _ _ _ _ _ _ _ Ep).
  - rewrite (bool_decide_false (cps "responses" ∈ [cps "all"; cps "plurks"])) in Hr
      by (rewrite !elem_of_cons; intros [H|[H|H]]; [discriminate|discriminate|inversion H]).
    rewrite (bool_decide_true (cps "responses" ∈ [cps "all"; cps "responses"])) in Hr
      by (right; constructor).
    destruct (bool_decide (mode = cps "fts")).
    + destruct (fts_page fts5_match ResponseItem _ _ (responses s)) as [e|[lr nr]] eqn:Er;
        [discriminate|].
      injection Hr as <-. simpl. apply Forall_py_sort_posted_desc.
      exact (fts_page_stored _ _ _ _ _ _ _ Er).
    + destruct (like_page ResponseItem Responses.content_raw _ _ (rows (responses s)))
        as [e|[lr nr]] eqn:Er; [discriminate|].
      injection Hr as <-. simpl. apply Forall_py_sort_posted_desc.
      exact (like_page_stored _ _ _ _ _ _ _ Er).
Qed.

(** A search type other than [all], [plurks], [responses] and [links] is
    no error: whatever the query (even one FTS5 would refuse), mode and
    page, [search] runs no query and returns an empty first page: no
    results, total 0, pages 1, the page echoed. *)
Theorem search_unknown_type fts5_match (query search_type mode : text) (pg : Z) (s : store) :
  search_type ∉ [cps "all"; cps "plurks"; cps "responses"; cps "links"] ->
  search fts5_match query search_type mode pg s = (s, inr (mk_search_result [] 0 pg 1 None)).
Proof.
  intros Hst. unfold search.
  rewrite bool_decide_false by (intros ->; apply Hst; do 3 right; left).
  unfold search_content. cbv zeta.
  rewrite (bool_decide_false (search_type ∈ [cps "all"; cps "plurks"]))
    by (rewrite !elem_of_cons; intros [->|[->|H]];
        [apply Hst; left|apply Hst; right; left|inversion H]).
  rewrite (bool_decide_false (search_type ∈ [cps "all"; cps "responses"]))
    by (rewrite !elem_of_cons; intros [->|[->|H]];
        [apply Hst; left|apply Hst; do 2 right; left|inversion H]).
  by destruct (bool_decide (mode = cps "fts")).
Qed.

Lemma search_unknown_type_witness :
  (cps "post" ∉ [cps "all"; cps "plurks"; cps "responses"; cps "links"]) /\
  search (fun _ _ => false) [] (cps "post") (cps "fts") (2 ^ 70) cat_store =
    (cat_store, inr (mk_search_result [] 0 (2 ^ 70) 1 None)).
Proof.
  split; [refine (bool_decide_unpack _ _); vm_compute; exact I|].
  apply search_unknown_type. refine (bool_decide_unpack _ _); vm_compute; exact I.
Defined.

Lemma search_scope_results_witness :
  search (fun _ _ => true) (cps "cat") (cps "plurks") (cps "like") 0 cat_store =
    (cat_store, inr cat_plurks_result) /\
  results cat_plurks_result <> [] /\
  Forall (fun it => exists k p, rows (plurks cat_store) !! k = Some p /\ it = PlurkItem k p)
         (results cat_plurks_result).
Proof.
  assert (H : search (fun _ _ => true) (cps "cat") (cps "plurks") (cps "like") 0 cat_store =
                (cat_store, inr cat_plurks_result)) by (vm_compute; reflexivity).
  split; [exact H|]. split; [intros Hn; vm_compute in Hn; discriminate|].
  exact (proj1 (search_scope_results (fun _ _ => true) (cps "cat") (cps "like") 0 cat_store cat_store
                  cat_plurks_result) H).
Defined.

(** ** A response's post *)

Lemma head_filter_None {A} (P : A -> bool) (l : list A) :
  head (List.filter P l) = None <-> forall x, In x l -> P x = false.
Proof.
  induction l as [|x l IH]; simpl; [split; [intros _ y []|done]|].
  destruct (P x) eqn:Hx; simpl.
  - split; [discriminate|]. intros H. rewrite (H x) in Hx by (by left). discriminate.
  - rewrite IH. split; [intros H y [<-|Hy]; [done|by apply H]|intros H y Hy; apply H; by right].
Qed.

Lemma head_filter_Some {A} (P : A -> bool) (l : list A) x :
  head (List.filter P l) = Some x -> In x l /\ P x = true.
Proof.
  induction l as [|y l IH]; simpl; [discriminate|].
  destruct (P y) eqn:Hy; simpl.
  - intros [= <-]. by split; [left|].
  - intros H. destruct (IH H). split; [by right|done].
Qed.

(** [/api/response/<id>/plurk]: an id beyond SQLite's 64-bit integers
    makes [get_response_plurk] raise [OverflowError] (the handler then
    answers 500, not 404).  Otherwise it returns [None] (answered 404
    [Response not found]) exactly when the response is missing, its
    [base_id] is NULL or no stored post has that [base_id]; else it
    returns that [base_id] and the [posted] of a stored post with it.
    The store is never changed. *)
Theorem get_response_plurk_result (rid : Z) (s : store) :
  ((rid < - 2 ^ 63 \/ 2 ^ 63 - 1 < rid) ->
   get_response_plurk rid s =
     (s, inl (OverflowError "Python int too large to convert to SQLite INTEGER"))) /\
  (- 2 ^ 63 <= rid <= 2 ^ 63 - 1 ->
   exists res, get_response_plurk rid s = (s, inr res) /\
     (res = None <->
      forall r b, rows (responses s) !! rid = Some r -> Responses.base_id r = Some b ->
        forall k p, rows (plurks s) !! k = Some p -> Plurks.base_id p <> Some b) /\
     (forall bo po, res = Some (bo, po) ->
      exists r b k p, rows (responses s) !! rid = Some r /\ Responses.base_id r = Some b /\
        rows (plurks s) !! k = Some p /\ Plurks.base_id p = Some b /\
        bo = Some b /\ po = Plurks.posted p)).
Proof.
  split.
  - intros Hr. unfold get_response_plurk, bind_int.
    replace ((- 2 ^ 63 <=? rid) && (rid <=? 2 ^ 63 - 1)) with false; [done|].
    symmetry. apply andb_false_iff. destruct Hr; [left|right]; apply Z.leb_gt; lia.
  - intros Hr. unfold get_response_plurk. rewrite bind_int_ok by done. cbn.
    eexists. split; [reflexivity|].
    destruct (rows (responses s) !! rid) as [r|] eqn:Er.
    + destruct (Responses.base_id r) as [b|] eqn:Eb.
      * set (P := fun kp : Z * Plurks.row => bool_decide (Plurks.base_id kp.2 = Some b)).
        destruct (head (List.filter P (rows_by_rowid (rows (plurks s))))) as [[k p]|] eqn:Eh;
          simpl.
        -- apply head_filter_Some in Eh as [Hin HP]. apply in_rows_by_rowid in Hin.
           unfold P in HP. simpl in HP. apply bool_decide_eq_true in HP.
           split.
           ++ split; [discriminate|]. intros H. exfalso.
              by apply (H r b eq_refl Eb k p).
           ++ intros bo po [= <- <-]. by exists r, b, k, p.
        -- pose proof (proj1 (head_filter_None _ _) Eh) as Hn. split; [|discriminate].
           split; [|done]. intros _ r' b' [= <-] Eb' k p Hp. rewrite Eb in Eb'. injection Eb' as <-.
           specialize (Hn (k, p) (proj2 (in_rows_by_rowid _ _ _) Hp)).
           unfold P in Hn. simpl in Hn. by apply bool_decide_eq_false in Hn.
      * split; [|discriminate]. split; [|done]. intros _ r' b' [= <-]. congruence.
    + split; [|discriminate]. split; [|done]. intros _ r' b' Hr'. discriminate.
Qed.

Lemma get_response_plurk_result_witness :
  ((2 ^ 63 < - 2 ^ 63 \/ 2 ^ 63 - 1 < 2 ^ 63) /\
   get_response_plurk (2 ^ 63) reply_store =
     (reply_store, inl (OverflowError "Python int too large to convert to SQLite INTEGER"))) /\
  (- 2 ^ 63 <= 5 <= 2 ^ 63 - 1 /\
   get_response_plurk 5 reply_store =
     (reply_store, inr (Some (Some (cps "abc"), Some (cps "2024-01-02")))) /\
   exists res, get_response_plurk 5 reply_store = (reply_store, inr res) /\
     (res = None <->
      forall r b, rows (responses reply_store) !! 5 = Some r -> Responses.base_id r = Some b ->
        forall k p, rows (plurks reply_store) !! k = Some p -> Plurks.base_id p <> Some b) /\
     (forall bo po, res = Some (bo, po) ->
      exists r b k p, rows (responses reply_store) !! 5 = Some r /\ Responses.base_id r = Some b /\
        rows (plurks reply_store) !! k = Some p /\ Plurks.base_id p = Some b /\
        bo = Some b /\ po = Plurks.posted p)) /\
  get_response_plurk 6 reply_store = (reply_store, inr None) /\
  get_response_plurk 7 reply_store = (reply_store, inr None).
Proof.
  split; [split; [lia|apply (proj1 (get_response_plurk_result (2 ^ 63) reply_store)); lia]|].
  split; [split; [lia|split; [vm_compute; reflexivity|]]|].
  - apply (proj2 (get_response_plurk_result 5 reply_store)). lia.
  - split; vm_compute; reflexivity.
Defined.

(** ** Where the server's paths lead *)

Lemma split_on_no_sep (c : Z) (w : text) : c ∉ w -> split_on c w = [w].
Proof.
  induction w as [|x w IH]; simpl; [done|]. intros Hw.
  rewrite elem_of_cons in Hw. rewrite (proj2 (Z.eqb_neq x c)) by (intros ->; tauto).
  rewrite IH by tauto. done.
Qed.

Lemma split_on_sep (c : Z) (w r : text) : c ∉ w -> split_on c (w ++ c :: r) = w :: split_on c r.
Proof.
  induction w as [|x w IH]; simpl; intros Hw; [by rewrite Z.eqb_refl|].
  rewrite elem_of_cons in Hw. rewrite (proj2 (Z.eqb_neq x c)) by (intros ->; tauto).
  rewrite IH by tauto. done.
Qed.

Lemma split_on_parts (c : Z) (w : text) (ts : list text) :
  c ∉ w -> Forall (fun t => c ∉ t) ts ->
  split_on c (w ++ concat (List.map (fun t => c :: t) ts)) = w :: ts.
Proof.
  revert w. induction ts as [|t ts IH]; intros w Hw Hts; simpl.
  - rewrite app_nil_r. by apply split_on_no_sep.
  - apply Forall_cons in Hts as [Ht Hts]. rewrite split_on_sep by done. by rewrite IH.
Qed.

Lemma path_parts_filter_id (ts : list text) :
  Forall (fun t => t <> [] /\ t <> [46]) ts ->
  List.filter (fun x => negb (bool_decide (x = [])) && negb (bool_decide (x = [46]))) ts = ts.
Proof.
  induction ts as [|t ts IH]; simpl; [done|]. intros [[H1 H2] Hts]%Forall_cons.
  rewrite !bool_decide_false by done. simpl. by rewrite IH.
Qed.

Lemma Forall_joined (Q : Z -> Prop) (c : Z) (ts : list text) :
  Q c -> Forall (Forall Q) ts -> Forall Q (concat (List.map (fun t => c :: t) ts)).
Proof.
  intros Hc. induction ts as [|t ts IH]; simpl; [constructor|].
  intros [Ht Hts]%Forall_cons. constructor; [done|]. apply Forall_app. split; [done|]. by apply IH.
Qed.

Lemma take_while_id (p : Z -> bool) (l : text) : Forall (fun c => p c = true) l -> take_while p l = l.
Proof. induction l as [|x l IH]; simpl; [done|]. intros [-> Hl]%Forall_cons. by rewrite IH. Qed.

Lemma existsb_eqb_absent (c : Z) (l : text) : Forall (fun x => x <> c) l -> existsb (Z.eqb c) l = false.
Proof.
  induction l as [|x l IH]; simpl; [done|]. intros [Hx Hl]%Forall_cons.
  rewrite (proj2 (Z.eqb_neq c x)) by congruence. by apply IH.
Qed.

Lemma resolve_parts_app (acc xs ys : list text) :
  resolve_parts acc (xs ++ ys) = resolve_parts (resolve_parts acc xs) ys.
Proof. revert acc. induction xs as [|x xs IH]; intros acc; simpl; [done|]. by case_bool_decide. Qed.

Lemma resolve_parts_plain (acc xs : list text) :
  Forall (fun x => x <> [46; 46]) xs -> resolve_parts acc xs = acc ++ xs.
Proof.
  revert acc. induction xs as [|x xs IH]; intros acc; simpl; [by rewrite app_nil_r|].
  intros [Hx Hxs]%Forall_cons. rewrite bool_decide_false by done. rewrite IH by done.
  by rewrite <- app_assoc.
Qed.

Lemma length_removelast {A} (l : list A) : length (removelast l) = pred (length l).
Proof.
  induction l as [|x [|y l] IH]; [done|done|]. change (removelast (x :: y :: l)) with
    (x :: removelast (y :: l)). simpl in *. rewrite IH. done.
Qed.

Lemma resolve_parts_up (acc : list text) (k : nat) :
  (length acc <= k)%nat -> resolve_parts acc (repeat [46; 46] k) = [].
Proof.
  revert acc. induction k as [|k IH]; intros acc Hk; simpl.
  - by destruct acc; [|simpl in Hk; lia].
  - try rewrite bool_decide_true by done. apply IH. rewrite length_removelast. lia.
Qed.

(** [translate_path] never confines a request: [/data/..] leaves the
    backup directory, and with one [..] more than the backup path has
    parts, a request names any absolute path [target] of the machine
    (its parts non-empty, not [.] or [..], without [/], [%], [?] or
    [#]); the file the handler opens for it is [target] itself. *)
Theorem translate_path_escapes (unquote_pct : text -> text) (viewer_dir backup_path target : list text) :
  Forall (fun b => b <> cps "..") backup_path ->
  Forall (fun t => t <> [] /\ t <> cps "." /\ t <> cps ".." /\
                   (47 ∉ t) /\ (37 ∉ t) /\ (63 ∉ t) /\ (35 ∉ t)) target ->
  resolve_parts [] (translate_path unquote_pct viewer_dir backup_path
                      (climbing_request (S (length backup_path)) target)) = target.
Proof.
  intros Hb Ht. set (n := length backup_path).
  unfold climbing_request. change (cps "data") with [100; 97; 116; 97].
  change (cps "..") with [46; 46] in *. change (cps ".") with [46] in *.
  set (ps := repeat [46; 46] (S n) ++ target).
  assert (Hchars : Forall (fun c => c <> 37 /\ c <> 63 /\ c <> 35)
                          (concat (List.map (fun t => 47 :: t)
                                   ([100; 97; 116; 97] :: ps)))).
  { apply Forall_joined; [lia|].
    constructor; [repeat constructor; lia|]. apply Forall_app. split.
    - apply Forall_forall. intros x Hx%list_elem_of_In%repeat_spec. subst x.
      repeat constructor; lia.
    - apply (Forall_impl _ _ _ Ht). intros t (_ & _ & _ & _ & H37 & H63 & H35).
      apply Forall_forall. intros c Hc. repeat split; intros ->; contradiction. }
  unfold translate_path, py_unquote.
  rewrite existsb_eqb_absent by (apply (Forall_impl _ _ _ Hchars); intros c Hc; lia).
  rewrite (take_while_id (fun c => negb (Z.eqb c 63)))
    by (apply (Forall_impl _ _ _ Hchars); intros c Hc; apply negb_true_iff, Z.eqb_neq; lia).
  rewrite take_while_id
    by (apply (Forall_impl _ _ _ Hchars); intros c Hc; apply negb_true_iff, Z.eqb_neq; lia).
  cbn [List.map concat app]. fold ps.
  rewrite (eq_refl : drop_while (fun c => Z.eqb c 47)
            (47 :: 100 :: 97 :: 116 :: 97 :: concat (List.map (fun t => 47 :: t) ps)) =
            100 :: 97 :: 116 :: 97 :: concat (List.map (fun t => 47 :: t) ps)).
  assert (Hs : starts_with (cps "data/") ([100; 97; 116; 97] ++ concat (List.map (fun t => 47 :: t) ps))
               = true).
  { unfold ps. cbn [repeat app List.map concat]. unfold starts_with.
    apply bool_decide_eq_true. reflexivity. }
  cbn [app] in Hs |- *. rewrite Hs.
  unfold path_join, path_parts.
  change (100 :: 97 :: 116 :: 97 :: concat (List.map (fun t => 47 :: t) ps))
    with ([100; 97; 116; 97] ++ concat (List.map (fun t => 47 :: t) ps)).
  rewrite split_on_parts.
  2: { intros H. repeat (apply elem_of_cons in H as [H|H]; [discriminate|]). inversion H. }
  2: { unfold ps. apply Forall_app. split.
       - apply Forall_forall. intros x Hx%list_elem_of_In%repeat_spec. subst x.
         intros H. repeat (apply elem_of_cons in H as [H|H]; [discriminate|]). inversion H.
       - apply (Forall_impl _ _ _ Ht). tauto. }
  rewrite path_parts_filter_id.
  2: { constructor; [split; discriminate|]. unfold ps. apply Forall_app. split.
       - apply Forall_forall. intros x Hx%list_elem_of_In%repeat_spec. subst x.
         split; discriminate.
       - apply (Forall_impl _ _ _ Ht). tauto. }
  rewrite resolve_parts_app, (resolve_parts_plain [] backup_path Hb). simpl.
  rewrite removelast_last, resolve_parts_app, resolve_parts_up by (unfold n; lia).
  rewrite resolve_parts_plain by (apply (Forall_impl _ _ _ Ht); tauto). done.
Qed.

Lemma translate_path_escapes_witness :
  (Forall (fun b => b <> cps "..") [cps "home"; cps "u"; cps "plurk-backup"] /\
   Forall (fun t => t <> [] /\ t <> cps "." /\ t <> cps ".." /\
                    (47 ∉ t) /\ (37 ∉ t) /\ (63 ∉ t) /\ (35 ∉ t)) [cps "etc"; cps "passwd"]) /\
  climbing_request 4 [cps "etc"; cps "passwd"] = cps "/data/../../../../etc/passwd" /\
  translate_path (fun s => s) [cps "srv"; cps "viewer"] [cps "home"; cps "u"; cps "plurk-backup"]
    (cps "/data/../../../../etc/passwd") =
    [cps "home"; cps "u"; cps "plurk-backup"; cps "data"; cps ".."; cps ".."; cps "..";
     cps ".."; cps "etc"; cps "passwd"] /\
  resolve_parts [] (translate_path (fun s => s) [cps "srv"; cps "viewer"]
                      [cps "home"; cps "u"; cps "plurk-backup"]
                      (climbing_request (S (length [cps "home"; cps "u"; cps "plurk-backup"]))
                         [cps "etc"; cps "passwd"])) = [cps "etc"; cps "passwd"].
Proof.
  split; [split; refine (bool_decide_unpack _ _); vm_compute; exact I|].
  split; [vm_compute; reflexivity|]. split; [vm_compute; reflexivity|].
  apply translate_path_escapes; refine (bool_decide_unpack _ _); vm_compute; exact I.
Defined.

Lemma elem_of_take_l {A} (x : A) (n : nat) (l : list A) : x ∈ take n l -> x ∈ l.
Proof. intros H. rewrite <- (take_drop n l). apply elem_of_app. by left. Qed.

Lemma ends_with_drop (e s : text) : ends_with e s = true -> drop (length s - length e) s = e.
Proof. unfold ends_with. intros [_ H]%andb_true_iff. by apply bool_decide_eq_true in H. Qed.

(** [init]'s default viewer directory is a sibling of the backup: for a
    backup path of at least one part, the viewer path has the same
    parent and a last part ending in [-viewer] that differs from the
    backup's name, so no path inside the viewer directory (where [init]
    replaces [static] with [rmtree] and [copytree]) lies inside the
    backup, and the other way round. *)
Theorem get_default_viewer_path_sibling (backup_path : list text) :
  backup_path <> [] -> Forall (fun b => 47 ∉ b) backup_path ->
  exists vn, get_default_viewer_path backup_path = removelast backup_path ++ [vn] /\
    ends_with (cps "-viewer") vn = true /\ last backup_path <> Some vn /\
    forall xs ys, get_default_viewer_path backup_path ++ xs <> backup_path ++ ys.
Proof.
  intros Hne Hsl. destruct (exists_last Hne) as (pre & name & ->).
  apply Forall_app in Hsl as [_ Hn]. apply Forall_cons in Hn as [Hn _].
  set (vn := if ends_with (cps "-backup") name
             then take (length name - 7) name ++ cps "-viewer" else name ++ cps "-viewer").
  assert (Hvn : ends_with (cps "-viewer") vn = true)
    by (unfold vn; destruct (ends_with _ name); apply ends_with_app).
  assert (Hlen : (7 <= length vn)%nat)
    by (unfold vn; destruct (ends_with _ name); rewrite length_app; simpl; lia).
  assert (Hsl : 47 ∉ vn).
  { unfold vn. intros H. destruct (ends_with _ name); apply elem_of_app in H as [H|H].
    - by apply Hn, (elem_of_take_l _ (length name - 7)).
    - revert H. refine (bool_decide_unpack _ _). vm_compute. exact I.
    - done.
    - revert H. refine (bool_decide_unpack _ _). vm_compute. exact I. }
  assert (Hparts : path_parts vn = [vn]).
  { unfold path_parts. rewrite split_on_no_sep by done. simpl.
    rewrite !bool_decide_false; [done| |]; intros ->; simpl in Hlen; lia. }
  assert (Hneq : vn <> name).
  { intros Heq. pose proof Hvn as Hv. rewrite Heq in Hv.
    destruct (ends_with (cps "-backup") name) eqn:Hb.
    - apply ends_with_drop in Hb, Hv. simpl in Hb, Hv. rewrite Hb in Hv. discriminate.
    - unfold vn in Heq. rewrite ?Hb in Heq. cbv iota in Heq.
      apply (f_equal length) in Heq. rewrite length_app in Heq. simpl in Heq. lia. }
  exists vn. unfold get_default_viewer_path. rewrite last_snoc, removelast_last. change (default [] (Some name)) with name.
  fold vn. unfold path_join. rewrite Hparts. split; [done|]. split; [done|].
  split; [intros [= H]; by apply Hneq|].
  intros xs ys H. rewrite <- !app_assoc in H. apply app_inv_head in H. simpl in H.
  injection H as H _. done.
Qed.

Lemma get_default_viewer_path_sibling_witness :
  ([cps "home"; cps "u"; cps "amy-backup"] <> [] /\
   Forall (fun b => 47 ∉ b) [cps "home"; cps "u"; cps "amy-backup"]) /\
  get_default_viewer_path [cps "home"; cps "u"; cps "amy-backup"] =
    [cps "home"; cps "u"; cps "amy-viewer"] /\
  get_default_viewer_path [cps "backup"] = [cps "backup-viewer"] /\
  exists vn, get_default_viewer_path [cps "home"; cps "u"; cps "amy-backup"] =
               removelast [cps "home"; cps "u"; cps "amy-backup"] ++ [vn] /\
    ends_with (cps "-viewer") vn = true /\ last [cps "home"; cps "u"; cps "amy-backup"] <> Some vn /\
    forall xs ys, get_default_viewer_path [cps "home"; cps "u"; cps "amy-backup"] ++ xs <>
                  [cps "home"; cps "u"; cps "amy-backup"] ++ ys.
Proof.
  split; [split; [discriminate|refine (bool_decide_unpack _ _); vm_compute; exact I]|].
  split; [vm_compute; reflexivity|]. split; [vm_compute; reflexivity|].
  apply get_default_viewer_path_sibling;
    [discriminate|refine (bool_decide_unpack _ _); vm_compute; exact I].
Defined.
